(** * NeerSetu: the map geometry, the zoom and hover engine, the GeoJSON and
      location-detection routes and the chat transcript.

    A shallow embedding of the TypeScript sources.

    The numbers of JavaScript are binary64 floating-point numbers, and the
    functions that compute with coordinates are embedded on them
    ([MapVisualization64], [GeoJsonRoute64]): every arithmetic operation of
    the sources is translated operation by operation, each one rounding as
    IEEE 754 prescribes, with [Infinity], [-Infinity] and [NaN].

    The same functions are also embedded on exact fractions ([Q]), operation
    by operation, without rounding ([MapVisualization], [GeoJsonRoute]).
    That embedding carries the component ([InteractiveMap]), whose times are
    integers of milliseconds, and the statements that rounding cannot
    change; it also says what a formula gives when nothing is rounded.  No
    statement about the value of a rounded computation is drawn from it.
    There the sentinels [Infinity] and [-Infinity] of [calculateBounds] are
    kept explicit ([ext]), and equality of computed numbers is stated with
    [==] (equality of fractions). *)

From Stdlib Require Import QArith Qfield Lqa Lia ZArith List Bool String Ascii Arith.
From Stdlib Require Floats.
Import ListNotations.

Local Open Scope Q_scope.
Set Warnings "-register-all,-inexact-float".

(* ================================================================== *)
(** * Numbers *)
(* ================================================================== *)

Module Num.

(** [a < b] and [a > b] on numbers, as booleans. *)
Definition ltb (a b : Q) : bool := negb (Qle_bool b a).
Definition gtb (a b : Q) : bool := ltb b a.

(** [Math.min(a, b)] *)
Definition Math_min (a b : Q) : Q := if Qle_bool a b then a else b.

(** Numbers extended with the two infinities. *)
Inductive ext : Type :=
| NegInfinity
| Fin (q : Q)
| Infinity.

(** [a < b] on extended numbers. *)
Definition ext_ltb (a b : ext) : bool :=
  match a, b with
  | NegInfinity, NegInfinity => false
  | NegInfinity, _ => true
  | Fin x, Fin y => ltb x y
  | Fin _, Infinity => true
  | Fin _, NegInfinity => false
  | Infinity, _ => false
  end.

End Num.

Infix "<?" := Num.ltb (at level 70, no associativity) : Q_scope.
Infix ">?" := Num.gtb (at level 70, no associativity) : Q_scope.

(* ================================================================== *)
(** * Strings *)
(* ================================================================== *)

(** Strings are sequences of 8-bit code units (Latin-1). *)
Module Text.
Local Open Scope string_scope.
Local Open Scope nat_scope.

(** [\s] below 256: tab, line feed, vertical tab, form feed, carriage
    return, space and the no-break space. *)
Definition isWhitespace (c : ascii) : bool :=
  let n := nat_of_ascii c in
  ((9 <=? n) && (n <=? 13)) || (n =? 32) || (n =? 160).

Definition lowerChar (c : ascii) : ascii :=
  let n := nat_of_ascii c in
  if ((65 <=? n) && (n <=? 90)) || ((192 <=? n) && (n <=? 214))
     || ((216 <=? n) && (n <=? 222))
  then ascii_of_nat (n + 32) else c.

(** [s.toLowerCase()] *)
Fixpoint toLowerCase (s : string) : string :=
  match s with
  | EmptyString => EmptyString
  | String c r => String (lowerChar c) (toLowerCase r)
  end.

Fixpoint trimStart (s : string) : string :=
  match s with
  | EmptyString => EmptyString
  | String c r => if isWhitespace c then trimStart r else s
  end.

Fixpoint trimEnd (s : string) : string :=
  match s with
  | EmptyString => EmptyString
  | String c r =>
    match trimEnd r with
    | EmptyString => if isWhitespace c then EmptyString else String c EmptyString
    | r' => String c r'
    end
  end.

(** [s.trim()] *)
Definition trim (s : string) : string := trimEnd (trimStart s).

(** [s.replace(/\s+/g, " ")]; [inRun] tells that the previous character
    belongs to the run of whitespace being replaced. *)
Fixpoint collapseFrom (inRun : bool) (s : string) : string :=
  match s with
  | EmptyString => EmptyString
  | String c r =>
    if isWhitespace c
    then if inRun then collapseFrom true r else String " " (collapseFrom true r)
    else String c (collapseFrom false r)
  end.

Definition collapseWhitespace (s : string) : string := collapseFrom false s.

(** [hay.includes(needle)] *)
Fixpoint includes (hay needle : string) : bool :=
  prefix needle hay ||
  match hay with
  | EmptyString => false
  | String _ r => includes r needle
  end.

(** [s.split(/\s+/)]: [word] is the piece being read. *)
Fixpoint splitFrom (inRun : bool) (word : string) (s : string) : list string :=
  match s with
  | EmptyString => [word]
  | String c r =>
    if isWhitespace c
    then if inRun then splitFrom true word r else word :: splitFrom true EmptyString r
    else splitFrom false (word ++ String c EmptyString) r
  end.

Definition splitWhitespace (s : string) : list string := splitFrom false EmptyString s.

(** [normalizeLocationName], defined alike in both routes. *)
Definition normalizeLocationName (name : string) : string :=
  collapseWhitespace (trim (toLowerCase name)).

End Text.

(* ================================================================== *)
(** * types/location *)
(* ================================================================== *)

Module Location.

(** ["country" | "state" | "district"] *)
Inductive Level : Type := country | state | district.

Record DetectedLocation : Type := {
  type : Level;
  name : string;
  stateName : option string
}.

Definition Level_eqb (a b : Level) : bool :=
  match a, b with
  | country, country | state, state | district, district => true
  | _, _ => false
  end.

(** The level as the string it is. *)
Definition Level_toString (l : Level) : string :=
  match l with
  | country => "country"
  | state => "state"
  | district => "district"
  end.

End Location.

(* ================================================================== *)
(** * map-visualization: projection, bounds and interpolation *)
(* ================================================================== *)

(** The helper functions on fractions.  From this module come the
    statements that rounding cannot change: which extreme is selected, what
    two functions that carry out the same operations agree on, what a [null]
    argument gives, and the boxes the component passes around.  The module
    [MapVisualization64] has the same functions on the numbers of
    JavaScript. *)
Module MapVisualization.
Import Num.

(** A GeoJSON position [[lon, lat]]. *)
Definition position : Type := (Q * Q)%type.

(** [geometry.coordinates]: positions nested in arrays to any depth.  A
    position is an array that starts with a number; of its numbers the
    component reads the first two. *)
Inductive coords : Type :=
| Position (lon lat : Q)
| Nested (cs : list coords).

Inductive FeatureType : Type := state | district.

(** [GeoJsonFeature].  [fid] stands for the identity of the object, which
    the component compares with [===]. *)
Record GeoJsonFeature : Type := {
  fid : nat;
  geometry_type : string;
  coordinates : coords
}.

(** The return value of [calculateBounds] when it is not [null]. *)
Record Bounds : Type := {
  minLon : Q; maxLon : Q; minLat : Q; maxLat : Q;
  width : Q; height : Q; centerX : Q; centerY : Q
}.

(** The four running extremes of [calculateBounds]. *)
Record Extremes : Type := {
  e_minLon : ext; e_maxLon : ext; e_minLat : ext; e_maxLat : ext
}.

Definition initial : Extremes :=
  {| e_minLon := Infinity; e_maxLon := NegInfinity;
     e_minLat := Infinity; e_maxLat := NegInfinity |}.

(** The body of [traverse] at a position. *)
Definition visit (lon lat : Q) (e : Extremes) : Extremes :=
  {| e_minLon := if ext_ltb (Fin lon) (e_minLon e) then Fin lon else e_minLon e;
     e_maxLon := if ext_ltb (e_maxLon e) (Fin lon) then Fin lon else e_maxLon e;
     e_minLat := if ext_ltb (Fin lat) (e_minLat e) then Fin lat else e_minLat e;
     e_maxLat := if ext_ltb (e_maxLat e) (Fin lat) then Fin lat else e_maxLat e |}.

Fixpoint traverse (c : coords) (e : Extremes) : Extremes :=
  match c with
  | Position lon lat => visit lon lat e
  | Nested cs => fold_left (fun acc c' => traverse c' acc) cs e
  end.

Definition calculateBounds (features : list GeoJsonFeature) : option Bounds :=
  let e := fold_left (fun acc f => traverse (coordinates f) acc) features initial in
  match e_minLon e with
  | Infinity => None
  | _ =>
    match e_minLon e, e_maxLon e, e_minLat e, e_maxLat e with
    | Fin minLon, Fin maxLon, Fin minLat, Fin maxLat =>
      let width := maxLon - minLon in
      let height := maxLat - minLat in
      Some {| minLon := minLon; maxLon := maxLon; minLat := minLat; maxLat := maxLat;
              width := width; height := height;
              centerX := minLon + width / 2; centerY := minLat + height / 2 |}
    | _, _, _, _ => None
    end
  end.

Definition interpolateBounds (b1 b2 : option Bounds) (p : Q) : option Bounds :=
  match b1, b2 with
  | Some b1, Some b2 =>
    Some {| minLon := minLon b1 + (minLon b2 - minLon b1) * p;
            maxLon := maxLon b1 + (maxLon b2 - maxLon b1) * p;
            minLat := minLat b1 + (minLat b2 - minLat b1) * p;
            maxLat := maxLat b1 + (maxLat b2 - maxLat b1) * p;
            width := width b1 + (width b2 - width b1) * p;
            height := height b1 + (height b2 - height b1) * p;
            centerX := centerX b1 + (centerX b2 - centerX b1) * p;
            centerY := centerY b1 + (centerY b2 - centerY b1) * p |}
  | _, Some b2 => Some b2
  | _, None => b1
  end.

(** One command of an SVG path. *)
Inductive PathCommand : Type :=
| MoveTo (x y : Q)      (* "M x y" *)
| LineTo (x y : Q)      (* "L x y" *)
| ClosePath.            (* "Z" *)

(** [ringToPath]: the path string is kept as its list of commands; the
    empty string is the empty list. *)
Definition ringToPath (ring : list position) (bounds : option Bounds) (w h : Q)
  : list PathCommand :=
  match bounds with
  | None => []
  | Some bounds =>
    let px := width bounds * 0.02 in
    let py := height bounds * 0.02 in
    let minLon := minLon bounds - px in
    let maxLon := maxLon bounds + px in
    let minLat := minLat bounds - py in
    let maxLat := maxLat bounds + py in
    let effW := maxLon - minLon in
    let effH := maxLat - minLat in
    let scale := Math_min (w / effW) (h / effH) in
    let ox := (w - effW * scale) / 2 in
    let oy := (h - effH * scale) / 2 in
    map (fun ic : nat * position =>
           let (i, c) := ic in
           let x := (fst c - minLon) * scale + ox in
           let y := h - ((snd c - minLat) * scale + oy) in
           if Nat.eqb i 0 then MoveTo x y else LineTo x y)
        (combine (seq 0 (List.length ring)) ring)
    ++ [ClosePath]
  end.

Definition projectPoint (c : position) (bounds : option Bounds) (w h : Q)
  : option (Q * Q) :=
  match bounds with
  | None => None
  | Some bounds =>
    let px := width bounds * 0.02 in
    let py := height bounds * 0.02 in
    let minLon := minLon bounds - px in
    let minLat := minLat bounds - py in
    let effW := maxLon bounds + px - minLon in
    let effH := maxLat bounds + py - minLat in
    let scale := Math_min (w / effW) (h / effH) in
    let ox := (w - effW * scale) / 2 in
    let oy := (h - effH * scale) / 2 in
    Some ((fst c - minLon) * scale + ox, h - ((snd c - minLat) * scale + oy))
  end.

Definition calculateFeatureCenter (f : GeoJsonFeature) : option position :=
  match calculateBounds [f] with
  | Some b => Some (centerX b, centerY b)
  | None => None
  end.

(** ** Vocabulary of the statements about this module *)

(** The points a path goes through, in order. *)
Definition pathPoints (path : list PathCommand) : list (Q * Q) :=
  flat_map (fun c => match c with
                     | MoveTo x y | LineTo x y => [(x, y)]
                     | ClosePath => []
                     end) path.

(** Every position below [c], in the order [traverse] meets them. *)
Fixpoint positions (c : coords) : list position :=
  match c with
  | Position lon lat => [(lon, lat)]
  | Nested cs => flat_map positions cs
  end.

Definition allPositions (features : list GeoJsonFeature) : list position :=
  flat_map (fun f => positions (coordinates f)) features.

(** [m] is the least, respectively the greatest, number of [l]. *)
Definition is_min (m : Q) (l : list Q) : Prop :=
  In m l /\ forall x, In x l -> m <= x.
Definition is_max (m : Q) (l : list Q) : Prop :=
  In m l /\ forall x, In x l -> x <= m.

(** [traverse] at one position, as a step of a fold. *)
Definition visitPosition (acc : Extremes) (p : position) : Extremes :=
  visit (fst p) (snd p) acc.

(** [e] holds the extremes of the positions [pts] met so far. *)
Definition tracks (pts : list position) (e : Extremes) : Prop :=
  match pts with
  | [] => e = initial
  | _ :: _ =>
    exists a b c d,
      e = {| e_minLon := Fin a; e_maxLon := Fin b;
             e_minLat := Fin c; e_maxLat := Fin d |} /\
      is_min a (map fst pts) /\ is_max b (map fst pts) /\
      is_min c (map snd pts) /\ is_max d (map snd pts)
  end.

End MapVisualization.

(* ================================================================== *)
(** * map-visualization: the InteractiveMap component *)
(* ================================================================== *)

(** The component is embedded as a transition system.  A state holds the
    loaded data, the React state, the refs, and the part of the browser the
    component talks to: the clock, the pending timeouts and the pending
    animation frames.  The closures handed to [setTimeout] and
    [requestAnimationFrame] are kept as data, with the variables they
    capture.  The zoom effect runs in the step that changes its
    dependencies. *)
Module InteractiveMap.
Import Num MapVisualization.

Definition GeoJsonData : Type := list GeoJsonFeature.   (* [features] *)

Record ZoomState : Type := {
  feature : option GeoJsonFeature;
  type : option FeatureType;
  progress : Q
}.

(** The closures given to [setTimeout]. *)
Inductive TimeoutCallback : Type :=
| debounceElapsed (feature : GeoJsonFeature) (type : FeatureType)
| dwellElapsed (feature : GeoJsonFeature) (type : FeatureType).

(** The closures given to [requestAnimationFrame]; [animate] captures the
    [zoomedFeature.type] of the render whose effect created it. *)
Inductive FrameCallback : Type :=
| animate (type : option FeatureType)
| animateHover.

Record Timeout : Type := {
  timeoutId : nat;
  due : Z;
  callback : TimeoutCallback
}.

Record Frame : Type := {
  frameId : nat;
  frameCallback : FrameCallback
}.

(** The prop and what [loadGeoJson] stored. *)
Record Data : Type := {
  location : Location.DetectedLocation;
  geoJson : option GeoJsonData;
  districtsGeoJson : option GeoJsonData;
  allStatesGeoJson : option GeoJsonData
}.

(** [useState] *)
Record Hooks : Type := {
  zoomedFeature : ZoomState;
  hoveredFeature : option (GeoJsonFeature * FeatureType);
  viewLevel : Location.Level;
  hoverProgress : Q
}.

(** [useRef] *)
Record Refs : Type := {
  hoverTimeoutRef : option nat;
  debounceTimeoutRef : option nat;
  animationFrameRef : option nat;
  hoverAnimationRef : option nat;
  zoomStartTimeRef : Z;
  currentHoveredRef : option GeoJsonFeature * option FeatureType;
  hoverStartTimeRef : Z
}.

Record Browser : Type := {
  clock : Z;                      (* [Date.now()] *)
  timeouts : list Timeout;        (* pending *)
  frames : list Frame;            (* pending *)
  nextHandle : nat                (* the next timeout or frame handle *)
}.

Record State : Type := {
  data : Data;
  hooks : Hooks;
  refs : Refs;
  zoomCleanup : bool;   (* the last run of the zoom effect returned its cleanup *)
  browser : Browser
}.

Definition HOVER_DELAY : Z := 2000.
Definition DEBOUNCE_DELAY : Z := 40.
Definition duration : Z := 600.

(** ** Writing the state *)

Definition withHooks (f : Hooks -> Hooks) (s : State) : State :=
  {| data := data s; hooks := f (hooks s); refs := refs s;
     zoomCleanup := zoomCleanup s; browser := browser s |}.

Definition withRefs (f : Refs -> Refs) (s : State) : State :=
  {| data := data s; hooks := hooks s; refs := f (refs s);
     zoomCleanup := zoomCleanup s; browser := browser s |}.

Definition withBrowser (f : Browser -> Browser) (s : State) : State :=
  {| data := data s; hooks := hooks s; refs := refs s;
     zoomCleanup := zoomCleanup s; browser := f (browser s) |}.

Definition withZoomCleanup (v : bool) (s : State) : State :=
  {| data := data s; hooks := hooks s; refs := refs s;
     zoomCleanup := v; browser := browser s |}.

Definition setZoomedFeature (f : ZoomState -> ZoomState) : State -> State :=
  withHooks (fun h =>
    {| zoomedFeature := f (zoomedFeature h); hoveredFeature := hoveredFeature h;
       viewLevel := viewLevel h; hoverProgress := hoverProgress h |}).

Definition setHoveredFeature (v : option (GeoJsonFeature * FeatureType)) : State -> State :=
  withHooks (fun h =>
    {| zoomedFeature := zoomedFeature h; hoveredFeature := v;
       viewLevel := viewLevel h; hoverProgress := hoverProgress h |}).

Definition setViewLevel (v : Location.Level) : State -> State :=
  withHooks (fun h =>
    {| zoomedFeature := zoomedFeature h; hoveredFeature := hoveredFeature h;
       viewLevel := v; hoverProgress := hoverProgress h |}).

Definition setHoverProgress (v : Q) : State -> State :=
  withHooks (fun h =>
    {| zoomedFeature := zoomedFeature h; hoveredFeature := hoveredFeature h;
       viewLevel := viewLevel h; hoverProgress := v |}).

Definition set_hoverTimeoutRef (v : option nat) : State -> State :=
  withRefs (fun r =>
    {| hoverTimeoutRef := v; debounceTimeoutRef := debounceTimeoutRef r;
       animationFrameRef := animationFrameRef r; hoverAnimationRef := hoverAnimationRef r;
       zoomStartTimeRef := zoomStartTimeRef r; currentHoveredRef := currentHoveredRef r;
       hoverStartTimeRef := hoverStartTimeRef r |}).

Definition set_debounceTimeoutRef (v : option nat) : State -> State :=
  withRefs (fun r =>
    {| hoverTimeoutRef := hoverTimeoutRef r; debounceTimeoutRef := v;
       animationFrameRef := animationFrameRef r; hoverAnimationRef := hoverAnimationRef r;
       zoomStartTimeRef := zoomStartTimeRef r; currentHoveredRef := currentHoveredRef r;
       hoverStartTimeRef := hoverStartTimeRef r |}).

Definition set_animationFrameRef (v : option nat) : State -> State :=
  withRefs (fun r =>
    {| hoverTimeoutRef := hoverTimeoutRef r; debounceTimeoutRef := debounceTimeoutRef r;
       animationFrameRef := v; hoverAnimationRef := hoverAnimationRef r;
       zoomStartTimeRef := zoomStartTimeRef r; currentHoveredRef := currentHoveredRef r;
       hoverStartTimeRef := hoverStartTimeRef r |}).

Definition set_hoverAnimationRef (v : option nat) : State -> State :=
  withRefs (fun r =>
    {| hoverTimeoutRef := hoverTimeoutRef r; debounceTimeoutRef := debounceTimeoutRef r;
       animationFrameRef := animationFrameRef r; hoverAnimationRef := v;
       zoomStartTimeRef := zoomStartTimeRef r; currentHoveredRef := currentHoveredRef r;
       hoverStartTimeRef := hoverStartTimeRef r |}).

Definition set_zoomStartTimeRef (v : Z) : State -> State :=
  withRefs (fun r =>
    {| hoverTimeoutRef := hoverTimeoutRef r; debounceTimeoutRef := debounceTimeoutRef r;
       animationFrameRef := animationFrameRef r; hoverAnimationRef := hoverAnimationRef r;
       zoomStartTimeRef := v; currentHoveredRef := currentHoveredRef r;
       hoverStartTimeRef := hoverStartTimeRef r |}).

Definition set_currentHoveredRef (v : option GeoJsonFeature * option FeatureType)
  : State -> State :=
  withRefs (fun r =>
    {| hoverTimeoutRef := hoverTimeoutRef r; debounceTimeoutRef := debounceTimeoutRef r;
       animationFrameRef := animationFrameRef r; hoverAnimationRef := hoverAnimationRef r;
       zoomStartTimeRef := zoomStartTimeRef r; currentHoveredRef := v;
       hoverStartTimeRef := hoverStartTimeRef r |}).

Definition set_hoverStartTimeRef (v : Z) : State -> State :=
  withRefs (fun r =>
    {| hoverTimeoutRef := hoverTimeoutRef r; debounceTimeoutRef := debounceTimeoutRef r;
       animationFrameRef := animationFrameRef r; hoverAnimationRef := hoverAnimationRef r;
       zoomStartTimeRef := zoomStartTimeRef r; currentHoveredRef := currentHoveredRef r;
       hoverStartTimeRef := v |}).

(** ** The browser *)

(** [Date.now()] *)
Definition Date_now (s : State) : Z := clock (browser s).

(** [setTimeout(cb, delay)]: the handle, and the state with the timeout pending. *)
Definition setTimeout (cb : TimeoutCallback) (delay : Z) (s : State) : nat * State :=
  (nextHandle (browser s),
   withBrowser (fun b =>
     {| clock := clock b;
        timeouts := timeouts b ++
                    [{| timeoutId := nextHandle b; due := (clock b + delay)%Z;
                        callback := cb |}];
        frames := frames b;
        nextHandle := S (nextHandle b) |}) s).

(** [if (ref.current) clearTimeout(ref.current)] *)
Definition clearTimeout (ref : option nat) (s : State) : State :=
  match ref with
  | None => s
  | Some id =>
    withBrowser (fun b =>
      {| clock := clock b;
         timeouts := filter (fun t => negb (Nat.eqb (timeoutId t) id)) (timeouts b);
         frames := frames b;
         nextHandle := nextHandle b |}) s
  end.

(** [requestAnimationFrame(cb)] *)
Definition requestAnimationFrame (cb : FrameCallback) (s : State) : nat * State :=
  (nextHandle (browser s),
   withBrowser (fun b =>
     {| clock := clock b;
        timeouts := timeouts b;
        frames := frames b ++ [{| frameId := nextHandle b; frameCallback := cb |}];
        nextHandle := S (nextHandle b) |}) s).

(** [if (ref.current) cancelAnimationFrame(ref.current)] *)
Definition cancelAnimationFrame (ref : option nat) (s : State) : State :=
  match ref with
  | None => s
  | Some id =>
    withBrowser (fun b =>
      {| clock := clock b;
         timeouts := timeouts b;
         frames := filter (fun f => negb (Nat.eqb (frameId f) id)) (frames b);
         nextHandle := nextHandle b |}) s
  end.

(** A pending timeout or frame leaves the pending ones when it runs. *)
Definition takeTimeout (id : nat) (s : State) : State := clearTimeout (Some id) s.
Definition takeFrame (id : nat) (s : State) : State := cancelAnimationFrame (Some id) s.

Definition advance (ms : Z) : State -> State :=
  withBrowser (fun b =>
    {| clock := (clock b + ms)%Z; timeouts := timeouts b; frames := frames b;
       nextHandle := nextHandle b |}).

(** ** The zoom animation *)

(** [Math.min(elapsed / duration, 1)] *)
Definition rawProgress (now zoomStartTime : Z) : Q :=
  let elapsed := (now - zoomStartTime)%Z in
  Math_min (inject_Z elapsed / inject_Z duration) 1.

Definition easing (rawProgress : Q) : Q :=
  if rawProgress <? 0.5
  then 4 * rawProgress * rawProgress * rawProgress
  else 1 - ((-2 * rawProgress + 2) ^ 3) / 2.

Definition levelOf (t : FeatureType) : Location.Level :=
  match t with
  | state => Location.state
  | district => Location.district
  end.

(** The frame callback [animate] of the zoom effect. *)
Definition runAnimate (capturedType : option FeatureType) (s : State) : State :=
  let elapsed_raw := rawProgress (Date_now s) (zoomStartTimeRef (refs s)) in
  let eased := easing elapsed_raw in
  let s := setZoomedFeature (fun prev =>
             {| feature := feature prev; type := type prev; progress := eased |}) s in
  if elapsed_raw <? 1 then
    let (handle, s) := requestAnimationFrame (animate capturedType) s in
    set_animationFrameRef (Some handle) s
  else
    match capturedType with
    | Some t => setViewLevel (levelOf t) s
    | None => s
    end.

(** [===] on features: the same object. *)
Definition sameFeature (a b : option GeoJsonFeature) : bool :=
  match a, b with
  | Some f, Some g => Nat.eqb (fid f) (fid g)
  | None, None => true
  | _, _ => false
  end.

Definition sameType (a b : option FeatureType) : bool :=
  match a, b with
  | Some state, Some state | Some district, Some district | None, None => true
  | _, _ => false
  end.

(** The effect with dependencies [zoomedFeature.feature] and
    [zoomedFeature.type], run after a step from [before]: when a dependency
    differs, the cleanup of the last run, then the body. *)
Definition zoomEffect (before : State) (s : State) : State :=
  if sameFeature (feature (zoomedFeature (hooks before)))
                 (feature (zoomedFeature (hooks s))) &&
     sameType (type (zoomedFeature (hooks before))) (type (zoomedFeature (hooks s)))
  then s
  else
    let s := if zoomCleanup s
             then cancelAnimationFrame (animationFrameRef (refs s)) s
             else s in
    let zoomed := zoomedFeature (hooks s) in
    match feature zoomed with
    | Some _ =>
      if progress zoomed <? 1 then
        let s := if Z.eqb (zoomStartTimeRef (refs s)) 0
                 then set_zoomStartTimeRef (Date_now s) s else s in
        let (handle, s) := requestAnimationFrame (animate (type zoomed)) s in
        withZoomCleanup true (set_animationFrameRef (Some handle) s)
      else withZoomCleanup false s
    | None => withZoomCleanup false (set_zoomStartTimeRef 0 s)
    end.

(** ** The hover handlers *)

Definition handleFeatureHoverStart (f : GeoJsonFeature) (t : FeatureType)
  (s : State) : State :=
  let s := clearTimeout (debounceTimeoutRef (refs s)) s in
  let s := clearTimeout (hoverTimeoutRef (refs s)) s in
  let s := cancelAnimationFrame (hoverAnimationRef (refs s)) s in
  let (handle, s) := setTimeout (debounceElapsed f t) DEBOUNCE_DELAY s in
  set_debounceTimeoutRef (Some handle) s.

(** The callback of the debounce timeout. *)
Definition runDebounceElapsed (f : GeoJsonFeature) (t : FeatureType)
  (s : State) : State :=
  let s := set_currentHoveredRef (Some f, Some t) s in
  let s := set_hoverStartTimeRef (Date_now s) s in
  let s := setHoveredFeature (Some (f, t)) s in
  let s := setHoverProgress 0 s in
  let (handle, s) := requestAnimationFrame animateHover s in
  let s := set_hoverAnimationRef (Some handle) s in
  let (handle, s) := setTimeout (dwellElapsed f t) HOVER_DELAY s in
  set_hoverTimeoutRef (Some handle) s.

(** The frame callback [animateHover]. *)
Definition runAnimateHover (s : State) : State :=
  let progress :=
    Math_min (inject_Z (Date_now s - hoverStartTimeRef (refs s))
              / inject_Z HOVER_DELAY) 1 in
  let s := setHoverProgress progress s in
  if progress <? 1 then
    let (handle, s) := requestAnimationFrame animateHover s in
    set_hoverAnimationRef (Some handle) s
  else s.

(** The callback of the dwell timeout. *)
Definition runDwellElapsed (f : GeoJsonFeature) (t : FeatureType)
  (s : State) : State :=
  if sameFeature (fst (currentHoveredRef (refs s))) (Some f) then
    let s := setZoomedFeature (fun _ =>
               {| feature := Some f; type := Some t; progress := 0 |}) s in
    let s := setHoveredFeature None s in
    let s := setHoverProgress 0 s in
    set_currentHoveredRef (None, None) s
  else s.

Definition handleFeatureHoverEnd (s : State) : State :=
  let s := clearTimeout (debounceTimeoutRef (refs s)) s in
  let s := clearTimeout (hoverTimeoutRef (refs s)) s in
  let s := cancelAnimationFrame (hoverAnimationRef (refs s)) s in
  let s := set_currentHoveredRef (None, None) s in
  let s := setHoveredFeature None s in
  setHoverProgress 0 s.

Definition handleReset (s : State) : State :=
  let s := clearTimeout (hoverTimeoutRef (refs s)) s in
  let s := cancelAnimationFrame (hoverAnimationRef (refs s)) s in
  let s := setZoomedFeature (fun _ =>
             {| feature := None; type := None; progress := 0 |}) s in
  let s := setHoveredFeature None s in
  let s := setHoverProgress 0 s in
  let s := set_zoomStartTimeRef 0 s in
  setViewLevel (match Location.type (location (data s)) with
                | Location.country => Location.country
                | _ => Location.state
                end) s.

(** ** Rendering: which paths take the pointer *)

Definition isIndiaView (s : State) : bool :=
  match allStatesGeoJson (data s), viewLevel (hooks s),
        feature (zoomedFeature (hooks s)) with
  | Some _, Location.country, None => true
  | _, _, _ => false
  end.

Definition baseFeatures (s : State) : list GeoJsonFeature :=
  if isIndiaView s then
    match allStatesGeoJson (data s) with Some fs => fs | None => [] end
  else
    match geoJson (data s) with Some fs => fs | None => [] end.

(** [bounds], as the component computes it before rendering. *)
Definition bounds (s : State) : option Bounds :=
  let baseBounds := calculateBounds (baseFeatures s) in
  let zoomed := zoomedFeature (hooks s) in
  let targetBounds :=
    match feature zoomed with
    | Some f => calculateBounds [f]
    | None => baseBounds
    end in
  match feature zoomed with
  | Some _ =>
    if 0 <? progress zoomed
    then interpolateBounds baseBounds targetBounds (progress zoomed)
    else baseBounds
  | None => baseBounds
  end.

Definition memberFeature (f : GeoJsonFeature) (fs : option GeoJsonData) : bool :=
  match fs with
  | Some fs => existsb (fun g => Nat.eqb (fid g) (fid f)) fs
  | None => false
  end.

(** [MapContent] is rendered. *)
Definition mapRendered (s : State) : bool :=
  match geoJson (data s), allStatesGeoJson (data s) with
  | None, None => false
  | _, _ => match bounds s with Some _ => true | None => false end
  end.

(** [f] has a ring to draw: a polygon has a ring, a multi-polygon has a
    polygon with a ring. *)
Definition hasPath (f : GeoJsonFeature) : bool :=
  let nonEmpty (c : coords) :=
    match c with Nested (_ :: _) => true | _ => false end in
  if String.eqb (geometry_type f) "Polygon"
  then nonEmpty (coordinates f)
  else match coordinates f with
       | Nested polygons => existsb nonEmpty polygons
       | Position _ _ => false
       end.

(** A path of [f] is rendered with [onMouseEnter={() => onHoverStart(f, t)}]. *)
Definition hoverable (s : State) (f : GeoJsonFeature) (t : FeatureType) : bool :=
  mapRendered s && hasPath f &&
  match t with
  | state => isIndiaView s && memberFeature f (allStatesGeoJson (data s))
  | district =>
    negb (isIndiaView s) &&
    Location.Level_eqb (viewLevel (hooks s)) Location.state &&
    memberFeature f (districtsGeoJson (data s))
  end.

(** ** The transition system *)

Inductive Event : Type :=
| MouseEnter (f : GeoJsonFeature) (t : FeatureType)
| MouseLeave
| ClickReset
| TimeoutFires (id : nat)
| FrameRuns (id : nat)
| TimePasses (ms : Z).

Definition pendingTimeout (id : nat) (s : State) : option Timeout :=
  find (fun t => Nat.eqb (timeoutId t) id) (timeouts (browser s)).

Definition pendingFrame (id : nat) (s : State) : option Frame :=
  find (fun f => Nat.eqb (frameId f) id) (frames (browser s)).

(** What may happen in a state: the pointer enters a path that is rendered
    with the handler, a pending timeout fires once it is due, a pending frame
    runs, time passes.  Leaving a path and the reset button are not
    constrained. *)
Definition enabled (s : State) (e : Event) : bool :=
  match e with
  | MouseEnter f t => hoverable s f t
  | MouseLeave => true
  | ClickReset => true
  | TimeoutFires id =>
    match pendingTimeout id s with
    | Some t => (due t <=? clock (browser s))%Z
    | None => false
    end
  | FrameRuns id =>
    match pendingFrame id s with Some _ => true | None => false end
  | TimePasses ms => (0 <=? ms)%Z
  end.

(** The handler or callback of an event, before the effects. *)
Definition handle (e : Event) (s : State) : State :=
  match e with
  | MouseEnter f t => handleFeatureHoverStart f t s
  | MouseLeave => handleFeatureHoverEnd s
  | ClickReset => handleReset s
  | TimeoutFires id =>
    match pendingTimeout id s with
    | Some t =>
      let s := takeTimeout id s in
      match callback t with
      | debounceElapsed f ty => runDebounceElapsed f ty s
      | dwellElapsed f ty => runDwellElapsed f ty s
      end
    | None => s
    end
  | FrameRuns id =>
    match pendingFrame id s with
    | Some f =>
      let s := takeFrame id s in
      match frameCallback f with
      | animate ty => runAnimate ty s
      | animateHover => runAnimateHover s
      end
    | None => s
    end
  | TimePasses ms => advance ms s
  end.

Definition step (s : State) (e : Event) : State := zoomEffect s (handle e s).

(** The component once [loadGeoJson] has stored the answer of
    [/api/geojson] ([dataGeoJson], [dataDistrictsGeoJson]) and the first
    effects have run, at time [now]. *)
Definition mounted (loc : Location.DetectedLocation)
  (dataGeoJson dataDistrictsGeoJson : option GeoJsonData) (now : Z) : State :=
  let isCountry := Location.Level_eqb (Location.type loc) Location.country in
  {| data :=
       {| location := loc;
          geoJson := if isCountry then None else dataGeoJson;
          districtsGeoJson := if isCountry then None else dataDistrictsGeoJson;
          allStatesGeoJson := if isCountry then dataGeoJson else None |};
     hooks :=
       {| zoomedFeature := {| feature := None; type := None; progress := 0 |};
          hoveredFeature := None;
          viewLevel :=
            if isCountry && String.eqb (Location.name loc) "India"
            then Location.country
            else if Location.Level_eqb (Location.type loc) Location.district &&
                    negb (String.eqb (Location.name loc) "")
            then Location.district
            else Location.state;
          hoverProgress := 0 |};
     refs :=
       {| hoverTimeoutRef := None; debounceTimeoutRef := None;
          animationFrameRef := None; hoverAnimationRef := None;
          zoomStartTimeRef := 0; currentHoveredRef := (None, None);
          hoverStartTimeRef := 0 |};
     zoomCleanup := false;
     browser := {| clock := now; timeouts := []; frames := []; nextHandle := 1 |} |}.

(** ** Vocabulary of the statements about this module *)

(** A history: the events that happened, the latest first, each with the
    time at which it happened. *)
Definition History : Type := list (Z * Event).

(** [reaches s0 h s]: from [s0], the events of [h] lead to [s]. *)
Inductive reaches (s0 : State) : History -> State -> Prop :=
| reaches_start : reaches s0 [] s0
| reaches_step (h : History) (s : State) (e : Event) :
    reaches s0 h s -> enabled s e = true ->
    reaches s0 ((clock (browser s), e) :: h) (step s e).

(** The latest event of the pointer on the paths. *)
Fixpoint lastPointerEvent (h : History) : option (Z * Event) :=
  match h with
  | [] => None
  | (t, MouseEnter f ty) :: _ => Some (t, MouseEnter f ty)
  | (t, MouseLeave) :: _ => Some (t, MouseLeave)
  | _ :: rest => lastPointerEvent rest
  end.

(** The event is a dwell timeout that passes its test and zooms on [f]. *)
Definition triggersZoom (s : State) (e : Event)
  : option (GeoJsonFeature * FeatureType) :=
  match e with
  | TimeoutFires id =>
    match pendingTimeout id s with
    | Some {| callback := dwellElapsed f ty |} =>
      if sameFeature (fst (currentHoveredRef (refs s))) (Some f)
      then Some (f, ty) else None
    | _ => None
    end
  | _ => None
  end.

(** The event is a frame of the zoom animation whose raw progress is 1. *)
Definition completesZoom (s : State) (e : Event) : bool :=
  match e with
  | FrameRuns id =>
    match pendingFrame id s with
    | Some {| frameCallback := animate _ |} =>
      negb (rawProgress (Date_now s) (zoomStartTimeRef (refs s)) <? 1)
    | _ => false
    end
  | _ => false
  end.

End InteractiveMap.

(* ================================================================== *)
(** * map-visualization: invariants of the component *)
(* ================================================================== *)

Module Invariants.
Import Num MapVisualization InteractiveMap.
Local Open Scope Z_scope.

(** ** The hover timeouts *)

(** What is known of a pending timeout [t]: it is the one its ref holds and
    it belongs to the latest pointer event, a [MouseEnter] on the feature it
    captured. *)
Definition timeoutOfLatestHover (h : History) (s : State) (t : Timeout) : Prop :=
  (timeoutId t < nextHandle (browser s))%nat /\
  match callback t with
  | debounceElapsed f ty =>
    debounceTimeoutRef (refs s) = Some (timeoutId t) /\
    hoverTimeoutRef (refs s) <> Some (timeoutId t) /\
    exists t0, lastPointerEvent h = Some (t0, MouseEnter f ty) /\
               due t = t0 + DEBOUNCE_DELAY
  | dwellElapsed f ty =>
    hoverTimeoutRef (refs s) = Some (timeoutId t) /\
    exists t0, lastPointerEvent h = Some (t0, MouseEnter f ty) /\
               t0 + DEBOUNCE_DELAY + HOVER_DELAY <= due t
  end.

Definition HoverInvariant (h : History) (s : State) : Prop :=
  (forall id, debounceTimeoutRef (refs s) = Some id -> (id < nextHandle (browser s))%nat) /\
  (forall id, hoverTimeoutRef (refs s) = Some id -> (id < nextHandle (browser s))%nat) /\
  match timeouts (browser s) with
  | [] => True
  | [t] => timeoutOfLatestHover h s t
  | _ :: _ :: _ => False
  end.

(** ** The zoom animation and the view level *)

(** The map of the country, as against the map of a state or a district. *)
Definition isCountry (d : Data) : bool :=
  Location.Level_eqb (Location.type (location d)) Location.country.

(** The type of the features one can hover on the map. *)
Definition hoverType (d : Data) : FeatureType :=
  if isCountry d then state else district.

Definition capturedType (t : Timeout) : FeatureType :=
  match callback t with
  | debounceElapsed _ ty | dwellElapsed _ ty => ty
  end.

(** A pending frame of the zoom animation is the one [animationFrameRef]
    holds, it was requested by an effect that returned its cleanup, and it
    captured the type of the zoomed feature. *)
Definition animateOK (ref : option nat) (cleanup : bool)
  (zoomedType : option FeatureType) (fr : Frame) : Prop :=
  match frameCallback fr with
  | animate captured =>
    ref = Some (frameId fr) /\ cleanup = true /\
    captured = zoomedType /\ captured <> None
  | animateHover => True
  end.

Definition isAnimate (fr : Frame) : bool :=
  match frameCallback fr with animate _ => true | animateHover => false end.

(** The invariant, on the parts of the state it speaks of. *)
Record ZoomInv (d : Data) (k : Hooks) (ref : option nat) (cleanup : bool)
  (pending : list Timeout) (frs : list Frame) : Prop := {
  inv_data :
    if isCountry d
    then geoJson d = None /\ districtsGeoJson d = None
    else allStatesGeoJson d = None;
  inv_level :
    viewLevel k <> (if isCountry d then Location.district else Location.country);
  inv_timeouts : Forall (fun t => capturedType t = hoverType d) pending;
  inv_zoomed : forall ty, type (zoomedFeature k) = Some ty -> ty = hoverType d;
  inv_typed : type (zoomedFeature k) = None <-> feature (zoomedFeature k) = None;
  inv_frames : Forall (animateOK ref cleanup (type (zoomedFeature k))) frs;
  inv_india_hover :
    isCountry d = true -> pending <> [] ->
    viewLevel k = Location.country /\ feature (zoomedFeature k) = None;
  inv_india_zoom :
    isCountry d = true -> existsb isAnimate frs = true ->
    viewLevel k = Location.country
}.

Definition ZoomInvariant (s : State) : Prop :=
  ZoomInv (data s) (hooks s) (animationFrameRef (refs s)) (zoomCleanup s)
          (timeouts (browser s)) (frames (browser s)).

(** The frames of [l'] are frames of [l] or frames of the hover animation. *)
Definition framesFrom (l l' : list Frame) : Prop :=
  forall fr, In fr l' -> In fr l \/ isAnimate fr = false.

(** The frames once the cleanup of the zoom effect has run. *)
Definition framesAfterCleanup (s : State) : list Frame :=
  frames (browser (if zoomCleanup s
                   then cancelAnimationFrame (animationFrameRef (refs s)) s
                   else s)).

(** What a handler leaves alone: the data, the ref and the flag of the zoom
    animation, the zoomed feature and the view level. *)
Definition zoomUntouched (s s' : State) : Prop :=
  data s' = data s /\
  animationFrameRef (refs s') = animationFrameRef (refs s) /\
  zoomCleanup s' = zoomCleanup s /\
  feature (zoomedFeature (hooks s')) = feature (zoomedFeature (hooks s)) /\
  type (zoomedFeature (hooks s')) = type (zoomedFeature (hooks s)) /\
  viewLevel (hooks s') = viewLevel (hooks s).

End Invariants.

(* ================================================================== *)
(** * A session on the map of Gujarat *)
(* ================================================================== *)

Module Session.
Import Num MapVisualization InteractiveMap.
Local Open Scope string_scope.
Local Open Scope Z_scope.

Definition box (id : nat) (west south east north : Q) : GeoJsonFeature :=
  {| fid := id; geometry_type := "Polygon";
     coordinates :=
       Nested [Nested [Position west south; Position east south;
                       Position east north; Position west north;
                       Position west south]] |}.

Definition gujarat : GeoJsonFeature := box 1 68 20 75 25.

Definition kachchh : GeoJsonFeature := box 2 68 22 71 25.

Definition surat : GeoJsonFeature := box 3 72 20 74 22.

Definition s0 : State :=
  mounted {| Location.type := Location.state; Location.name := "Gujarat";
             Location.stateName := None |}
          (Some [gujarat]) (Some [kachchh; surat]) 1000.

(** The pointer enters Kachchh and stays: debounce, dwell, zoom. *)
Definition s1 := step s0 (MouseEnter kachchh district).

Definition s2 := step s1 (TimePasses 40).

Definition s3 := step s2 (TimeoutFires 1).

Definition s4 := step s3 (TimePasses 2000).

Definition s5 := step s4 (TimeoutFires 3).

(** While the zoom is animated the pointer moves to Surat and stays. *)
Definition s6 := step s5 (TimePasses 100).

Definition s7 := step s6 MouseLeave.

Definition s8 := step s7 (MouseEnter surat district).

Definition s9 := step s8 (TimePasses 40).

Definition s10 := step s9 (TimeoutFires 5).

Definition s11 := step s10 (TimePasses 460).

(** The zoom on Kachchh completes, 600 ms after it started. *)
Definition s12 := step s11 (FrameRuns 4).

Definition s13 := step s12 (TimePasses 1540).

(** The dwell on Surat elapses: a second zoom starts, at 5180. *)
Definition s14 := step s13 (TimeoutFires 7).

Definition s15 := step s14 (TimePasses 16).

(** The first frame of the second zoom. *)
Definition s16 := step s15 (FrameRuns 8).

Definition h4 : History :=
  [(clock (browser s3), TimePasses 2000);
   (clock (browser s2), TimeoutFires 1);
   (clock (browser s1), TimePasses 40);
   (clock (browser s0), MouseEnter kachchh district)].

Definition h11 : History :=
  ([(clock (browser s10), TimePasses 460);
    (clock (browser s9), TimeoutFires 5);
    (clock (browser s8), TimePasses 40);
    (clock (browser s7), MouseEnter surat district);
    (clock (browser s6), MouseLeave);
    (clock (browser s5), TimePasses 100);
    (clock (browser s4), TimeoutFires 3)] ++ h4)%list.

Definition h13 : History :=
  ([(clock (browser s12), TimePasses 1540);
    (clock (browser s11), FrameRuns 4)] ++ h11)%list.

Definition h15 : History :=
  ([(clock (browser s14), TimePasses 16);
    (clock (browser s13), TimeoutFires 7)] ++ h13)%list.

End Session.

(* ================================================================== *)
(** * GeoJSON as the routes read it *)
(* ================================================================== *)

Module GeoJson.

(** A position is an array of numbers, a ring an array of positions. *)
Definition Position : Type := list Q.
Definition Ring : Type := list Position.

Inductive Geometry : Type :=
| Polygon (coordinates : list Ring)
| MultiPolygon (coordinates : list (list Ring))
| OtherGeometry (type : string).

Record Feature : Type := {
  properties : list (string * string);
  geometry : option Geometry
}.

(** A parsed JSON value that is truthy, seen through its property
    [features]: [None] when that is not an array. *)
Record Document : Type := {
  features : option (list Feature)
}.

(** [feature.properties?.key]: the value, [undefined] when absent. *)
Fixpoint property (key : string) (props : list (string * string)) : option string :=
  match props with
  | [] => None
  | (k, v) :: rest => if String.eqb k key then Some v else property key rest
  end.

(** [a || b || ... || ""] over property look-ups: the first one that is
    present and not empty. *)
Fixpoint firstTruthy (candidates : list (option string)) : string :=
  match candidates with
  | [] => EmptyString
  | Some EmptyString :: rest | None :: rest => firstTruthy rest
  | Some v :: _ => v
  end.

End GeoJson.

(* ================================================================== *)
(** * app/api/detect-location/route.ts *)
(* ================================================================== *)

Module DetectLocation.
Import Text Location GeoJson.
Local Open Scope string_scope.
Local Open Scope nat_scope.

Definition INDIAN_STATES : list string := [
  "Andhra Pradesh"; "Arunachal Pradesh"; "Assam"; "Bihar"; "Chhattisgarh";
  "Goa"; "Gujarat"; "Haryana"; "Himachal Pradesh"; "Jharkhand"; "Karnataka";
  "Kerala"; "Madhya Pradesh"; "Maharashtra"; "Manipur"; "Meghalaya"; "Mizoram";
  "Nagaland"; "Odisha"; "Punjab"; "Rajasthan"; "Sikkim"; "Tamil Nadu";
  "Telangana"; "Tripura"; "Uttar Pradesh"; "Uttarakhand"; "West Bengal";
  "Andaman and Nicobar Islands"; "Chandigarh";
  "Dadra and Nagar Haveli and Daman and Diu";
  "Delhi"; "Jammu and Kashmir"; "Ladakh"; "Lakshadweep"; "Puducherry"
].

(** [Object.entries(MAJOR_DISTRICTS)], in insertion order. *)
Definition MAJOR_DISTRICTS : list (string * string) := [
  ("Ahmedabad", "Gujarat");
  ("Surat", "Gujarat");
  ("Vadodara", "Gujarat");
  ("Rajkot", "Gujarat");
  ("Mumbai", "Maharashtra");
  ("Pune", "Maharashtra");
  ("Nagpur", "Maharashtra");
  ("Bangalore", "Karnataka");
  ("Bengaluru", "Karnataka");
  ("Chennai", "Tamil Nadu");
  ("Hyderabad", "Telangana");
  ("Kolkata", "West Bengal");
  ("Jaipur", "Rajasthan");
  ("Lucknow", "Uttar Pradesh");
  ("Patna", "Bihar");
  ("Bhopal", "Madhya Pradesh");
  ("Indore", "Madhya Pradesh");
  ("Thiruvananthapuram", "Kerala");
  ("Kochi", "Kerala");
  ("Visakhapatnam", "Andhra Pradesh");
  ("Guwahati", "Assam");
  ("Bhubaneswar", "Odisha");
  ("Raipur", "Chhattisgarh");
  ("Ranchi", "Jharkhand");
  ("Dehradun", "Uttarakhand");
  ("Shimla", "Himachal Pradesh");
  ("Srinagar", "Jammu and Kashmir");
  ("Jammu", "Jammu and Kashmir");
  ("Leh", "Ladakh")
].

(** What reading [output.geojson] gives: [None] when the file is missing,
    unreadable or not JSON, else the parsed document. *)
Definition OutputFile : Type := option Document.

(** [findDistrictInGeoJson]: the [dtname] of the first feature whose
    normalized [dtname] is the normalized [districtName]. *)
Definition findDistrictInGeoJson (output : OutputFile) (districtName : string)
  : option string :=
  match output with
  | None => None
  | Some data =>
    let normalizedDistrict := normalizeLocationName districtName in
    let fix scan (fs : list Feature) : option string :=
      match fs with
      | [] => None
      | feature :: rest =>
        let dtname := firstTruthy [property "dtname" (properties feature)] in
        if String.eqb (normalizeLocationName dtname) normalizedDistrict
        then Some dtname
        else scan rest
      end in
    scan (match features data with Some fs => fs | None => [] end)
  end.

(** The request body: [InvalidBody] when [request.json()] throws, [NoText]
    when [body.text] is absent or not a string. *)
Inductive Body : Type :=
| InvalidBody
| NoText
| TextBody (text : string).

Record Response : Type := {
  status : nat;
  location : option DetectedLocation;
  locations : list DetectedLocation
}.

(** The first element of [xs] satisfying [p]. *)
Definition findFirst {A : Type} (p : A -> bool) (xs : list A) : option A :=
  List.find p xs.

(** One turn of the loop over the words of the text. *)
Definition detectWord (output : OutputFile) (normalizedText : string)
  (foundLocations : list DetectedLocation) (word : string) : list DetectedLocation :=
  if 2 <? String.length word then
    match findDistrictInGeoJson output word with
    | Some foundName =>
      if existsb (fun l => Level_eqb (type l) district &&
                           String.eqb (normalizeLocationName (name l))
                                      (normalizeLocationName foundName))
                 foundLocations
      then foundLocations
      else
        let stateName :=
          match findFirst (fun st => includes normalizedText (toLowerCase st))
                          INDIAN_STATES with
          | Some st => Some st
          | None =>
            match findFirst (fun ds => String.eqb (normalizeLocationName (fst ds))
                                                  (normalizeLocationName foundName))
                            MAJOR_DISTRICTS with
            | Some ds => Some (snd ds)
            | None => None
            end
          end in
        (foundLocations ++
          [{| type := district; name := foundName; stateName := stateName |}])%list
    | None => foundLocations
    end
  else foundLocations.

(** One turn of the loop over the states. *)
Definition detectState (normalizedText : string)
  (foundLocations : list DetectedLocation) (st : string) : list DetectedLocation :=
  if includes normalizedText (toLowerCase st) then
    if negb (existsb (fun l => Level_eqb (type l) state &&
                               String.eqb (normalizeLocationName (name l))
                                          (normalizeLocationName st))
                     foundLocations)
    then (foundLocations ++ [{| type := state; name := st; stateName := None |}])%list
    else foundLocations
  else foundLocations.

(** [foundLocations] before deduplication. *)
Definition detect (output : OutputFile) (text : string) : list DetectedLocation :=
  let normalizedText := toLowerCase text in
  let foundLocations : list DetectedLocation := [] in
  let foundLocations :=
    if includes normalizedText "india" &&
       negb (existsb (fun st => includes normalizedText (toLowerCase st)) INDIAN_STATES)
    then (foundLocations ++ [{| type := country; name := "India"; stateName := None |}])%list
    else foundLocations in
  let foundLocations :=
    fold_left (fun found ds =>
                 if includes normalizedText (toLowerCase (fst ds))
                 then (found ++ [{| type := district; name := fst ds;
                                    stateName := Some (snd ds) |}])%list
                 else found)
              MAJOR_DISTRICTS foundLocations in
  let words := splitWhitespace text in
  let foundLocations :=
    fold_left (detectWord output normalizedText) words foundLocations in
  fold_left (detectState normalizedText) INDIAN_STATES foundLocations.

(** The key of a location in [uniqueLocationsMap]. *)
Definition locationKey (loc : DetectedLocation) : string :=
  Level_toString (type loc) ++ "-" ++ normalizeLocationName (name loc).

(** A [Map] with string keys: its entries in insertion order. *)
Definition StringMap (V : Type) : Type := list (string * V).

Definition Map_has {V : Type} (m : StringMap V) (key : string) : bool :=
  existsb (fun kv => String.eqb (fst kv) key) m.

(** [m.set(key, v)]: a present key keeps its place. *)
Fixpoint Map_set {V : Type} (m : StringMap V) (key : string) (v : V) : StringMap V :=
  match m with
  | [] => [(key, v)]
  | (k, v') :: rest =>
    if String.eqb k key then (k, v) :: rest else (k, v') :: Map_set rest key v
  end.

Definition Map_values {V : Type} (m : StringMap V) : list V := map snd m.

Definition uniqueLocations (foundLocations : list DetectedLocation)
  : list DetectedLocation :=
  let uniqueLocationsMap :=
    fold_left (fun m loc =>
                 let key := locationKey loc in
                 if negb (Map_has m key) then Map_set m key loc else m)
              foundLocations ([] : StringMap DetectedLocation) in
  Map_values uniqueLocationsMap.

Definition POST (body : Body) (output : OutputFile) : Response :=
  match body with
  | InvalidBody => {| status := 500; location := None; locations := [] |}
  | NoText => {| status := 400; location := None; locations := [] |}
  | TextBody text =>
    if String.eqb text "" then {| status := 400; location := None; locations := [] |}
    else
      let uniqueLocations := uniqueLocations (detect output text) in
      {| status := 200;
         location := match uniqueLocations with
                     | first :: _ => Some first
                     | [] => None
                     end;
         locations := uniqueLocations |}
  end.

(** ** Vocabulary of the statements about this module *)

(** Two locations with the same type and the same normalized name. *)
Definition sameTypeAndName (a b : DetectedLocation) : Prop :=
  type a = type b /\ normalizeLocationName (name a) = normalizeLocationName (name b).

(** The map holds each location under its own key, and no key twice. *)
Definition keyed (m : StringMap DetectedLocation) : Prop :=
  NoDup (map fst m) /\ Forall (fun kv => fst kv = locationKey (snd kv)) m.

End DetectLocation.

(* ================================================================== *)
(** * app/api/geojson/route.ts *)
(* ================================================================== *)

(** The route on fractions.  From this module come the statements about the
    requests, the files and the statuses, and about points and rings whose
    crossing test involves no rounding; the module [GeoJsonRoute64] has the
    route on the numbers of JavaScript. *)
Module GeoJsonRoute.
Import Num Text GeoJson.
Local Open Scope string_scope.
Local Open Scope Q_scope.

(** [Array.isArray(coord) && coord.length >= 2 && typeof coord[0] === "number"]
    on an array of numbers. *)
Definition isCoordinatePair (coord : Position) : bool :=
  (2 <=? List.length coord)%nat.

(** [coord[i]] where it is defined. *)
Definition at_ (coord : Position) (i : nat) : Q := nth i coord 0.

Definition calculateFeatureCentroid (feature : Feature) : option (Q * Q) :=
  match geometry feature with
  | None => None
  | Some g =>
    let allCoords : list Position :=
      match g with
      | Polygon coords =>
        match coords with
        | ring0 :: _ => filter isCoordinatePair ring0
        | [] => []
        end
      | MultiPolygon coords =>
        flat_map (fun polygon : list Ring =>
                    match polygon with
                    | ring0 :: _ => filter isCoordinatePair ring0
                    | [] => []
                    end) coords
      | OtherGeometry _ => []
      end in
    match allCoords with
    | [] => None
    | _ :: _ =>
      let sumLon := fold_left (fun sum coord => sum + at_ coord 0) allCoords 0 in
      let sumLat := fold_left (fun sum coord => sum + at_ coord 1) allCoords 0 in
      let length := inject_Z (Z.of_nat (List.length allCoords)) in
      Some (sumLon / length, sumLat / length)
    end
  end.

(** The test [intersect] for the vertices [polygon[i]] and [polygon[j]]; a
    vertex with fewer than two numbers has an [undefined] coordinate, and
    every comparison with it is false. *)
Definition intersect (x y : Q) (pi pj : Position) : bool :=
  match pi, pj with
  | xi :: yi :: _, xj :: yj :: _ =>
    negb (Bool.eqb (yi >? y) (yj >? y)) &&
    (x <? (xj - xi) * (y - yi) / (yj - yi) + xi)
  | _, _ => false
  end.

Definition isPointInPolygon (point : Q * Q) (polygon : Ring) : bool :=
  let (x, y) := point in
  let n := List.length polygon in
  fold_left (fun inside i =>
               let j := if Nat.eqb i 0 then (n - 1)%nat else (i - 1)%nat in
               if intersect x y (nth i polygon []) (nth j polygon [])
               then negb inside else inside)
            (seq 0 n) false.

Definition isPointInFeature (point : Q * Q) (feature : Feature) : bool :=
  match geometry feature with
  | None => false
  | Some (Polygon coords) =>
    match coords with
    | ring0 :: _ => isPointInPolygon point ring0
    | [] => false
    end
  | Some (MultiPolygon coords) =>
    existsb (fun polygon : list Ring =>
               match polygon with
               | ring0 :: _ => isPointInPolygon point ring0
               | [] => false
               end) coords
  | Some (OtherGeometry _) => false
  end.

(** What [JSON.parse] or [response.json()] gives: it throws, or it returns a
    value, [None] standing for a falsy one such as [null]. *)
Inductive Json : Type :=
| Invalid
| Value (doc : option Document).

(** A file: [None] when [fs.existsSync] is false. *)
Definition FileRead : Type := option Json.

Inductive FetchResult : Type :=
| FetchFails
| HttpNotOk
| HttpOk (body : Json).

Record Environment : Type := {
  fetchStates : FetchResult;
  localState : string -> FileRead;
  localDistrict : string -> FileRead;
  outputGeojson : FileRead
}.

Record Request : Type := {
  state : option string;
  district : option string;
  allstates : option string
}.

Record Response : Type := {
  status : nat;
  geoJson : option Document;
  districtsGeoJson : option Document;
  error : option string
}.

(** A query parameter that is present and not empty. *)
Definition truthy (p : option string) : option string :=
  match p with
  | Some EmptyString | None => None
  | Some s => Some s
  end.

Definition FeatureCollection (fs : list Feature) : Document :=
  {| features := Some fs |}.

(** The features of [doc] whose name, read by [nameOf], normalizes to
    [normalized]; [None] when the evaluation throws or nothing matches. *)
Definition matchingCollection (nameOf : Feature -> string) (normalized : string)
  (body : Json) : option Document :=
  match body with
  | Value (Some {| features := Some fs |}) =>
    match filter (fun feature =>
                    String.eqb (normalizeLocationName (nameOf feature)) normalized) fs with
    | [] => None
    | matchingFeatures => Some (FeatureCollection matchingFeatures)
    end
  | _ => None
  end.

Definition districtFeatureName (feature : Feature) : string :=
  firstTruthy [property "dtname" (properties feature);
               property "NAME_2" (properties feature);
               property "DISTRICT" (properties feature);
               property "District" (properties feature)].

Definition stateFeatureName (feature : Feature) : string :=
  firstTruthy [property "NAME_1" (properties feature)].

(** The districts shown with a state: the block guarded by
    [stateName && !districtName && geoJsonData]. *)
Definition districtsOfState (geoJsonData : Document) (output : FileRead)
  : option Document :=
  match output with
  | Some (Value (Some {| features := Some (d :: ds) |})) =>
    match features geoJsonData with
    | Some stateFeatures =>
      match filter (fun districtFeature =>
                      match calculateFeatureCentroid districtFeature with
                      | None => false
                      | Some districtCentroid =>
                        existsb (isPointInFeature districtCentroid) stateFeatures
                      end) (d :: ds) with
      | [] => None
      | matchingDistrictFeatures => Some (FeatureCollection matchingDistrictFeatures)
      end
    | None => None
    end
  | _ => None
  end.

Definition errorResponse (code : nat) (message : string) : Response :=
  {| status := code; geoJson := None; districtsGeoJson := None;
     error := Some message |}.

Definition GET (request : Request) (env : Environment) : Response :=
  if match allstates request with Some v => String.eqb v "true" | None => false end then
    match fetchStates env with
    | HttpOk (Value allStatesData) =>
      {| status := 200; geoJson := allStatesData; districtsGeoJson := None;
         error := None |}
    | _ => errorResponse 500 "Failed to load India map data"
    end
  else
    match truthy (state request), truthy (district request) with
    | None, None => errorResponse 400 "State or district name is required"
    | stateName, districtName =>
      (* the local file *)
      let localFile :=
        match districtName, stateName with
        | Some d, _ => localDistrict env d
        | None, Some s => localState env s
        | None, None => None
        end in
      match localFile with
      | Some Invalid => errorResponse 500 "Internal server error"
      | _ =>
        let geoJsonData : option Document :=
          match localFile with
          | Some (Value doc) => doc
          | _ => None
          end in
        (* the remote sources *)
        let geoJsonData :=
          match geoJsonData with
          | Some doc => Some doc
          | None =>
            let fromOutput :=
              match districtName, outputGeojson env with
              | Some d, Some body =>
                matchingCollection districtFeatureName (normalizeLocationName d) body
              | _, _ => None
              end in
            match fromOutput, stateName with
            | Some doc, _ => Some doc
            | None, Some s =>
              match fetchStates env with
              | HttpOk body =>
                matchingCollection stateFeatureName (normalizeLocationName s) body
              | _ => None
              end
            | None, None => None
            end
          end in
        (* the districts of a state *)
        let districtsGeoJsonData :=
          match stateName, districtName, geoJsonData with
          | Some _, None, Some doc => districtsOfState doc (outputGeojson env)
          | _, _, _ => None
          end in
        match geoJsonData with
        | None => errorResponse 404 "Location outline not found"
        | Some doc =>
          {| status := 200; geoJson := Some doc;
             districtsGeoJson := districtsGeoJsonData; error := None |}
        end
      end
    end.

(** ** Vocabulary of the statements about this module *)

(** The outer ring of each polygon of a geometry. *)
Definition outerRings (feature : Feature) : list Ring :=
  match geometry feature with
  | Some (Polygon (ring0 :: _)) => [ring0]
  | Some (MultiPolygon polygons) =>
    flat_map (fun polygon : list Ring =>
                match polygon with ring0 :: _ => [ring0] | [] => [] end) polygons
  | _ => []
  end.

(** The vertices of the outer rings. *)
Definition outerVertices (feature : Feature) : list Position :=
  flat_map (filter isCoordinatePair) (outerRings feature).

Definition sum (l : list Q) : Q := fold_left Qplus l 0.

Definition mean (l : list Q) : Q := sum l / inject_Z (Z.of_nat (List.length l)).

(** The arithmetic mean of the vertices of the outer rings, when there is
    a vertex. *)
Definition centroidOfOuterRings (feature : Feature) : option (Q * Q) :=
  match outerVertices feature with
  | [] => None
  | vs => Some (mean (map (fun v => at_ v 0) vs), mean (map (fun v => at_ v 1) vs))
  end.

(** The edge from vertex [i] to the vertex before it, cyclically, crosses
    the horizontal ray going right from the point. *)
Definition edgeCrossesRay (point : Q * Q) (polygon : Ring) (i : nat) : bool :=
  let j := if Nat.eqb i 0 then (List.length polygon - 1)%nat else (i - 1)%nat in
  intersect (fst point) (snd point) (nth i polygon []) (nth j polygon []).

(** The even-odd rule: an odd number of edges crosses the ray. *)
Definition evenOddInside (point : Q * Q) (polygon : Ring) : bool :=
  Nat.odd (List.length (filter (edgeCrossesRay point polygon)
                               (seq 0 (List.length polygon)))).

(** The centroid of [districtFeature] lies inside the outer ring of some
    feature of [stateFeatures]. *)
Definition centroidInsideState (stateFeatures : list Feature)
  (districtFeature : Feature) : bool :=
  match centroidOfOuterRings districtFeature with
  | None => false
  | Some c =>
    existsb (fun stateFeature => existsb (evenOddInside c) (outerRings stateFeature))
            stateFeatures
  end.

(** The features of a value, none when [features] is not an array. *)
Definition featuresOf (doc : option Document) : list Feature :=
  match doc with
  | Some {| features := Some fs |} => fs
  | _ => []
  end.

(** A square ring, closed. *)
Definition square : Ring := [[0; 0]; [4; 0]; [4; 4]; [0; 4]; [0; 0]].

End GeoJsonRoute.

(* ================================================================== *)
(** * app/page.tsx: the chat transcript *)
(* ================================================================== *)

Module ChatPage.
Import Text Location.
Local Open Scope string_scope.

Inductive Role : Type := user | assistant.

(** A value of type [any], kept as its JSON text. *)
Definition Any : Type := string.

(** [Message]; [id] is the number whose decimal writing is the identifier,
    [timestamp] the time in milliseconds. *)
Record Message : Type := {
  id : Z;
  role : Role;
  content : string;
  data : option Any;
  chart : option Any;
  locationInfo : option DetectedLocation;
  locations : option (list DetectedLocation);
  timestamp : Z
}.

Record ApiResponse : Type := {
  response : string;
  response_data : option Any;
  response_chart : option Any;
  chart_type : option string
}.

(** The state of the page that [sendMessage] reads and writes. *)
Record State : Type := {
  messages : list Message;
  input : string;
  isLoading : bool;
  latitude : option Q;
  longitude : option Q;
  apiUrl : string
}.

(** A request sent with [fetch]. *)
Inductive Fetch : Type :=
| PostQuery (url : string) (question : string) (latitude longitude : option Q)
| PostDetectLocation (url : string) (text : string).

(** What the inference API does with the question. *)
Inductive QueryOutcome : Type :=
| QueryFails                      (* [fetch] rejects *)
| QueryNotOk (status : nat)       (* [response.ok] is false *)
| QueryNotJson                    (* [response.json()] rejects *)
| QueryAnswer (data : ApiResponse).

(** What [/api/detect-location] does with the text. *)
Inductive DetectOutcome : Type :=
| DetectFails                     (* [fetch] or [json()] rejects *)
| DetectNotOk
| DetectAnswer (location : option DetectedLocation)
               (locations : option (list DetectedLocation)).

(** The world around one call: the clock when the call starts and when the
    answer is in, and the outcomes of the two requests. *)
Record World : Type := {
  now : Z;
  query : QueryOutcome;
  later : Z;
  detect : DetectOutcome
}.

Definition apology : string :=
  "Sorry, I encountered an error while processing your request. Please make sure the backend API is running and accessible.".

(** [messageText || input] *)
Definition textToSend (messageText : option string) (st : State) : string :=
  match messageText with
  | Some EmptyString | None => input st
  | Some text => text
  end.

Definition setMessages (f : list Message -> list Message) (st : State) : State :=
  {| messages := f (messages st); input := input st; isLoading := isLoading st;
     latitude := latitude st; longitude := longitude st; apiUrl := apiUrl st |}.

Definition setInput (v : string) (st : State) : State :=
  {| messages := messages st; input := v; isLoading := isLoading st;
     latitude := latitude st; longitude := longitude st; apiUrl := apiUrl st |}.

Definition setIsLoading (v : bool) (st : State) : State :=
  {| messages := messages st; input := input st; isLoading := v;
     latitude := latitude st; longitude := longitude st; apiUrl := apiUrl st |}.

(** [sendMessage]: the state once the call has settled, and the requests
    it sent, in order. *)
Definition sendMessage (messageText : option string) (w : World) (st : State)
  : State * list Fetch :=
  let textToSend := textToSend messageText st in
  if String.eqb (trim textToSend) "" || isLoading st then (st, [])
  else
    let userMessage :=
      {| id := now w; role := user; content := textToSend;
         data := None; chart := None; locationInfo := None; locations := None;
         timestamp := now w |} in
    let st := setMessages (fun prev => prev ++ [userMessage])%list st in
    let st := setInput "" st in
    let st := setIsLoading true st in
    let queryRequest :=
      PostQuery (apiUrl st ++ "/query") textToSend (latitude st) (longitude st) in
    let errorMessage :=
      {| id := (later w + 1)%Z; role := assistant; content := apology;
         data := None; chart := None; locationInfo := None; locations := None;
         timestamp := later w |} in
    match query w with
    | QueryAnswer data =>
      let detectRequest := PostDetectLocation "/api/detect-location" textToSend in
      let (locationInfo, locations) :=
        match detect w with
        | DetectAnswer location locations => (location, locations)
        | DetectFails | DetectNotOk => (None, None)
        end in
      let assistantMessage :=
        {| id := (later w + 1)%Z; role := assistant; content := response data;
           data := response_data data; chart := response_chart data;
           locationInfo := locationInfo; locations := locations;
           timestamp := later w |} in
      let st := setMessages (fun prev => prev ++ [assistantMessage])%list st in
      (setIsLoading false st, [queryRequest; detectRequest])
    | QueryFails | QueryNotOk _ | QueryNotJson =>
      let st := setMessages (fun prev => prev ++ [errorMessage])%list st in
      (setIsLoading false st, [queryRequest])
    end.

(** ** Vocabulary of the statements about this module *)

(** A text that is empty or made of whitespace only. *)
Fixpoint isBlank (s : string) : bool :=
  match s with
  | EmptyString => true
  | String c r => isWhitespace c && isBlank r
  end.

(** A page with nothing sent yet. *)
Definition emptyChat : State :=
  {| messages := []; input := "typed"; isLoading := false;
     latitude := None; longitude := None; apiUrl := "https://neersetu.onrender.com" |}.

End ChatPage.

(* ================================================================== *)
(** * Vocabulary: boxes *)
(* ================================================================== *)

Module Boxes.
Import MapVisualization.

(** Box [a] lies inside box [b]. *)
Definition inside (a b : Bounds) : Prop :=
  minLon b <= minLon a /\ maxLon a <= maxLon b /\
  minLat b <= minLat a /\ maxLat a <= maxLat b.

End Boxes.

(* ================================================================== *)
(** * Vocabulary: strings and detected locations *)
(* ================================================================== *)

Module TextWords.
Import Text.
Local Open Scope string_scope.

(** The string is empty or starts with a character that is not whitespace. *)
Definition startsClean (s : string) : Prop :=
  match s with
  | EmptyString => True
  | String c _ => isWhitespace c = false
  end.

End TextWords.

Module DetectLocationWords.
Import Text Location GeoJson DetectLocation.
Local Open Scope string_scope.

(** The first location of each key, in order; [seen] holds the keys met
    before. *)
Fixpoint firstOccurrences (seen : list string) (found : list DetectedLocation)
  : list DetectedLocation :=
  match found with
  | [] => []
  | loc :: rest =>
    if existsb (String.eqb (locationKey loc)) seen
    then firstOccurrences seen rest
    else loc :: firstOccurrences (locationKey loc :: seen) rest
  end.

(** The text names [s]: its lower-case form holds the lower-case form of [s]. *)
Definition names (text s : string) : bool :=
  includes (toLowerCase text) (toLowerCase s).

(** The state given to a district found through [output.geojson]: the first
    state of the table that the text names, else the state the table of major
    districts gives for the name found. *)
Definition stateOfFound (text foundName : string) : option string :=
  match find (names text) INDIAN_STATES with
  | Some st => Some st
  | None =>
    match find (fun ds => String.eqb (normalizeLocationName (fst ds))
                                     (normalizeLocationName foundName))
               MAJOR_DISTRICTS with
    | Some ds => Some (snd ds)
    | None => None
    end
  end.

Definition countryPart (text : string) : list DetectedLocation :=
  if names text "India" && negb (existsb (names text) INDIAN_STATES)
  then [{| type := country; name := "India"; stateName := None |}] else [].

Definition majorPart (text : string) : list DetectedLocation :=
  map (fun ds => {| type := district; name := fst ds; stateName := Some (snd ds) |})
      (filter (fun ds => names text (fst ds)) MAJOR_DISTRICTS).

Definition statePart (text : string) : list DetectedLocation :=
  map (fun st => {| type := state; name := st; stateName := None |})
      (filter (names text) INDIAN_STATES).

(** A district found through [output.geojson] for a word of the text, not
    found before under the same normalized name. *)
Definition foundByWord (output : OutputFile) (text : string)
  (before : list DetectedLocation) (loc : DetectedLocation) : Prop :=
  type loc = district /\
  stateName loc = stateOfFound text (name loc) /\
  (exists word, In word (splitWhitespace text) /\ (2 < String.length word)%nat /\
                findDistrictInGeoJson output word = Some (name loc)) /\
  forall l, In l before -> type l = district ->
            normalizeLocationName (name l) <> normalizeLocationName (name loc).

(** Every location found is justified by the text. *)
Definition justified (output : OutputFile) (text : string) (loc : DetectedLocation) : Prop :=
  match type loc with
  | country =>
    loc = {| type := country; name := "India"; stateName := None |} /\
    names text "India" = true /\
    forall st, In st INDIAN_STATES -> names text st = false
  | state =>
    stateName loc = None /\ In (name loc) INDIAN_STATES /\ names text (name loc) = true
  | district =>
    (exists st, In (name loc, st) MAJOR_DISTRICTS /\ stateName loc = Some st /\
                names text (name loc) = true) \/
    (stateName loc = stateOfFound text (name loc) /\
     exists word, In word (splitWhitespace text) /\ (2 < String.length word)%nat /\
                  findDistrictInGeoJson output word = Some (name loc))
  end.

End DetectLocationWords.

Module GeoJsonRouteWords.
Import GeoJsonRoute.
Local Open Scope string_scope.

(** The request is the one for all states. *)
Definition wantsAllStates (request : Request) : bool :=
  match allstates request with Some v => String.eqb v "true" | None => false end.

End GeoJsonRouteWords.

(* ================================================================== *)
(** * Vocabulary: the map over time *)
(* ================================================================== *)

Module MapInvariants.
Import Num MapVisualization InteractiveMap Invariants.
Local Open Scope Z_scope.

(** The progress values are fractions, and the recorded start times are not
    in the future. *)
Record RangeInvariant (s : State) : Prop := {
  range_clock : 0 <= clock (browser s);
  range_zoomStart : zoomStartTimeRef (refs s) <= clock (browser s);
  range_hoverStart : hoverStartTimeRef (refs s) <= clock (browser s);
  range_progress : (0 <= progress (zoomedFeature (hooks s)) <= 1)%Q;
  range_hoverProgress : (0 <= hoverProgress (hooks s) <= 1)%Q
}.

End MapInvariants.

Module MapCleanup.
Import Num MapVisualization InteractiveMap Invariants.
Local Open Scope Z_scope.

(** The component unmounts: the cleanup of the effect without dependencies,
    then the cleanup the zoom effect returned, if it returned one. *)
Definition unmount (s : State) : State :=
  let s := clearTimeout (hoverTimeoutRef (refs s)) s in
  let s := clearTimeout (debounceTimeoutRef (refs s)) s in
  let s := cancelAnimationFrame (animationFrameRef (refs s)) s in
  let s := cancelAnimationFrame (hoverAnimationRef (refs s)) s in
  if zoomCleanup s then cancelAnimationFrame (animationFrameRef (refs s)) s else s.

Definition isDebounce (t : Timeout) : bool :=
  match callback t with
  | debounceElapsed _ _ => true
  | dwellElapsed _ _ => false
  end.

(** The frames of the hover animation among [l]. *)
Definition hoverFrames (l : list Frame) : list Frame :=
  filter (fun fr => negb (isAnimate fr)) l.

(** A pending frame of the hover animation is the one [hoverAnimationRef]
    holds, and none is pending while a debounce is. *)
Record HoverFramesInvariant (s : State) : Prop := {
  hover_frames_ref :
    Forall (fun fr => hoverAnimationRef (refs s) = Some (frameId fr))
           (hoverFrames (frames (browser s)));
  hover_frames_debounce :
    existsb isDebounce (timeouts (browser s)) = true ->
    hoverFrames (frames (browser s)) = []
}.

End MapCleanup.

Module CountrySession.
Import Num MapVisualization InteractiveMap Session.
Local Open Scope string_scope.
Local Open Scope Z_scope.

(** The map of India, with Gujarat among its states. *)
Definition india0 : State :=
  mounted {| Location.type := Location.country; Location.name := "India";
             Location.stateName := None |}
          (Some [gujarat]) None 1000.

(** The pointer enters Gujarat and stays: debounce, dwell, zoom. *)
Definition india1 := step india0 (MouseEnter gujarat state).

Definition india2 := step india1 (TimePasses 40).

Definition india3 := step india2 (TimeoutFires 1).

Definition india4 := step india3 (TimePasses 2000).

Definition india5 := step india4 (TimeoutFires 3).

Definition indiaHistory5 : History :=
  [(clock (browser india4), TimeoutFires 3);
   (clock (browser india3), TimePasses 2000);
   (clock (browser india2), TimeoutFires 1);
   (clock (browser india1), TimePasses 40);
   (clock (browser india0), MouseEnter gujarat state)].

End CountrySession.

(* ================================================================== *)
(** * map-visualization: what the map renders *)
(* ================================================================== *)

Module MapRendering.
Import Num MapVisualization InteractiveMap.
Local Open Scope string_scope.
Local Open Scope Z_scope.

(** [showReset] of [MapHeader]: the reset button is shown, and takes the
    pointer, when a feature is zoomed or hovered. *)
Definition showReset (s : State) : bool :=
  match feature (zoomedFeature (hooks s)), hoveredFeature (hooks s) with
  | None, None => false
  | _, _ => true
  end.

(** The features [MapContent] draws paths for: the states on the map of
    India, the outline and the districts at view level ['state'], and the
    zoomed feature. *)
Definition drawnFeatures (s : State) : list GeoJsonFeature :=
  let features (collection : option GeoJsonData) :=
    match collection with Some fs => fs | None => [] end in
  ((if isIndiaView s then features (allStatesGeoJson (data s)) else []) ++
   (if negb (isIndiaView s) && Location.Level_eqb (viewLevel (hooks s)) Location.state
    then features (geoJson (data s)) ++ features (districtsGeoJson (data s))
    else []) ++
   match feature (zoomedFeature (hooks s)) with
   | Some f => [f]
   | None => []
   end)%list.

(** The map of a district as it is mounted, and as it stays: view level
    ['district'], nothing zoomed or hovered, nothing pending. *)
Record Blank (s : State) : Prop := {
  blank_level : viewLevel (hooks s) = Location.district;
  blank_states : allStatesGeoJson (data s) = None;
  blank_zoomed : feature (zoomedFeature (hooks s)) = None;
  blank_type : type (zoomedFeature (hooks s)) = None;
  blank_hovered : hoveredFeature (hooks s) = None;
  blank_timeouts : timeouts (browser s) = [];
  blank_frames : frames (browser s) = []
}.

(** The map of Surat, a district. *)
Definition suratMap : State :=
  mounted {| Location.type := Location.district; Location.name := "Surat";
             Location.stateName := Some "Gujarat" |}
          (Some [Session.surat]) None 1000.

Definition suratHistory : History :=
  [(clock (browser (step suratMap MouseLeave)), TimePasses 5000);
   (clock (browser suratMap), MouseLeave)].

End MapRendering.

(* ================================================================== *)
(** * app/page.tsx: useDebouncedCallback *)
(* ================================================================== *)

Module DebouncedCallback.
Local Open Scope Z_scope.

(** [useDebouncedCallback(callback, delay)], for a callback that takes one
    argument of type [A].  The state holds [timeoutRef], the clock and the
    pending timeouts of the hook, and the calls made to [callback] so far. *)
Section Hook.
Variable A : Type.

Record Timer : Type := {
  timerId : nat;
  due : Z;
  args : A
}.

Record State : Type := {
  timeoutRef : option nat;
  clock : Z;
  pending : list Timer;
  nextHandle : nat;
  called : list (Z * A)    (* the calls of [callback], the latest first *)
}.

Definition initial (now : Z) : State :=
  {| timeoutRef := None; clock := now; pending := []; nextHandle := 1; called := [] |}.

(** [if (timeoutRef.current) clearTimeout(timeoutRef.current)] *)
Definition clearTimeout (s : State) : State :=
  match timeoutRef s with
  | None => s
  | Some id =>
    {| timeoutRef := timeoutRef s; clock := clock s;
       pending := filter (fun t => negb (Nat.eqb (timerId t) id)) (pending s);
       nextHandle := nextHandle s; called := called s |}
  end.

(** [debouncedFn(...args)] *)
Definition debouncedFn (delay : Z) (a : A) (s : State) : State :=
  let s := clearTimeout s in
  {| timeoutRef := Some (nextHandle s); clock := clock s;
     pending := pending s ++ [{| timerId := nextHandle s; due := clock s + delay;
                                 args := a |}];
     nextHandle := S (nextHandle s); called := called s |}.

(** The timeout [id] fires: [callback(...args)]. *)
Definition fire (id : nat) (s : State) : State :=
  match find (fun t => Nat.eqb (timerId t) id) (pending s) with
  | Some t =>
    {| timeoutRef := timeoutRef s; clock := clock s;
       pending := filter (fun t' => negb (Nat.eqb (timerId t') id)) (pending s);
       nextHandle := nextHandle s; called := (clock s, args t) :: called s |}
  | None => s
  end.

Definition advance (ms : Z) (s : State) : State :=
  {| timeoutRef := timeoutRef s; clock := clock s + ms; pending := pending s;
     nextHandle := nextHandle s; called := called s |}.

(** The cleanup of the effect, on unmount. *)
Definition unmount (s : State) : State := clearTimeout s.

Inductive Event : Type :=
| Call (a : A)
| Fires (id : nat)
| Passes (ms : Z).

Definition enabled (s : State) (e : Event) : bool :=
  match e with
  | Call _ => true
  | Fires id =>
    match find (fun t => Nat.eqb (timerId t) id) (pending s) with
    | Some t => due t <=? clock s
    | None => false
    end
  | Passes ms => 0 <=? ms
  end.

Definition step (delay : Z) (s : State) (e : Event) : State :=
  match e with
  | Call a => debouncedFn delay a s
  | Fires id => fire id s
  | Passes ms => advance ms s
  end.

(** The events that happened, the latest first, each with its time. *)
Definition History : Type := list (Z * Event).

Inductive reaches (delay : Z) (s0 : State) : History -> State -> Prop :=
| reaches_start : reaches delay s0 [] s0
| reaches_step (h : History) (s : State) (e : Event) :
    reaches delay s0 h s -> enabled s e = true ->
    reaches delay s0 ((clock s, e) :: h) (step delay s e).

(** The latest call of the debounced function. *)
Fixpoint lastCall (h : History) : option (Z * A) :=
  match h with
  | [] => None
  | (t, Call a) :: _ => Some (t, a)
  | _ :: rest => lastCall rest
  end.

(** The only timeout that may be pending: the one of the latest call. *)
Definition Debounced (delay : Z) (h : History) (s : State) : Prop :=
  (forall id, timeoutRef s = Some id -> (id < nextHandle s)%nat) /\
  match pending s with
  | [] => True
  | [t] =>
    timeoutRef s = Some (timerId t) /\
    exists t0, lastCall h = Some (t0, args t) /\ due t = t0 + delay
  | _ :: _ :: _ => False
  end.

End Hook.

Arguments timerId {A}.
Arguments due {A}.
Arguments args {A}.
Arguments timeoutRef {A}.
Arguments clock {A}.
Arguments pending {A}.
Arguments nextHandle {A}.
Arguments called {A}.
Arguments Call {A}.
Arguments Fires {A}.
Arguments Passes {A}.

End DebouncedCallback.

Module TypingSession.
Import DebouncedCallback.
Local Open Scope string_scope.
Local Open Scope Z_scope.

(** The input of the page, debounced by 300 ms: "Su" is typed, then
    "Surat" 100 ms later, and 300 ms pass. *)
Definition typing0 : State string := initial string 0.
Definition typing1 : State string := step string 300 typing0 (Call "Su").
Definition typing2 : State string := step string 300 typing1 (Passes 100).
Definition typing3 : State string := step string 300 typing2 (Call "Surat").
Definition typing4 : State string := step string 300 typing3 (Passes 300).

Definition typingHistory : History string :=
  [(100, Passes 300); (100, Call "Surat"); (0, Passes 100); (0, Call "Su")].

End TypingSession.

(* ================================================================== *)
(** * chat-message: the maps of a message *)
(* ================================================================== *)

Module ChatMessageView.
Import Text Location ChatPage.
Local Open Scope string_scope.

(** [MapVisualization]: the [location] prop of each [InteractiveMap] it
    renders, in order. *)
Definition MapVisualization (location : option DetectedLocation)
  (locations : option (list DetectedLocation)) : list DetectedLocation :=
  match locations with
  | Some (loc :: rest) => loc :: rest
  | _ =>
    match location with
    | Some loc => [loc]
    | None => []
    end
  end.

(** The maps [ChatMessage] shows for a message: [MapVisualization] is
    rendered when [locationInfo] or [locations] is set. *)
Definition ChatMessage_maps (message : Message) : list DetectedLocation :=
  match locationInfo message, locations message with
  | None, None => []
  | location, locations => MapVisualization location locations
  end.

(** What [sendMessage] reads of an answer of [/api/detect-location]:
    [response.ok] holds for a status from 200 to 299. *)
Definition detectOutcome (answer : DetectLocation.Response) : DetectOutcome :=
  if ((200 <=? DetectLocation.status answer) && (DetectLocation.status answer <? 300))%nat
  then DetectAnswer (DetectLocation.location answer)
                    (Some (DetectLocation.locations answer))
  else DetectNotOk.

End ChatMessageView.

(* ================================================================== *)
(** * map-visualization: the labels *)
(* ================================================================== *)

Module MapLabels.
Import GeoJson.
Local Open Scope string_scope.

(** The first value that is not the empty string, else [last]:
    [a || b || ... || last]. *)
Definition orElse (candidates : list (option string)) (last : string) : string :=
  match firstTruthy candidates with
  | EmptyString => last
  | v => v
  end.

(** [getStateName(f, fallbackName)], for a feature with the properties
    [props]. *)
Definition getStateName (props : list (string * string)) (fallbackName : option string)
  : string :=
  orElse [property "NAME_1" props; property "ST_NM" props; property "STATE" props;
          fallbackName] "State".

(** [getDistrictName(f)] *)
Definition getDistrictName (props : list (string * string)) : string :=
  orElse [property "dtname" props; property "NAME_2" props; property "DISTRICT" props;
          property "name" props] "District".

End MapLabels.

(* ================================================================== *)
(** * map-visualization: loading the map *)
(* ================================================================== *)

Module LoadGeoJson.
Import GeoJson GeoJsonRoute Location.
Local Open Scope string_scope.

(** What [fetch] followed by [response.json()] gives for a request: a
    rejection, with the message of the error when it is an [Error], or an
    answer. *)
Inductive Fetched : Type :=
| Rejects (message : option string)
| Answers (response : Response).

Definition Server : Type := Request -> Fetched.

(** [response.ok] *)
Definition ok (response : Response) : bool :=
  ((200 <=? status response) && (status response <? 300))%nat.

(** The state that [loadGeoJson] writes; the collections are kept as the
    values received. *)
Record Loaded : Type := {
  geoJson : option Document;
  districtsGeoJson : option Document;
  allStatesGeoJson : option Document;
  loading : bool;
  error : option string;
  zoomedFeature : InteractiveMap.ZoomState;
  viewLevel : Level
}.

Definition stateRequest (stateName : string) : Request :=
  {| GeoJsonRoute.state := Some stateName; GeoJsonRoute.district := None;
     allstates := None |}.

Definition districtRequest (districtName : string) : Request :=
  {| GeoJsonRoute.state := None; GeoJsonRoute.district := Some districtName;
     allstates := None |}.

Definition allStatesRequest : Request :=
  {| GeoJsonRoute.state := None; GeoJsonRoute.district := None;
     allstates := Some "true" |}.

(** The first request and the view level that goes with it. *)
Definition firstRequest (location : DetectedLocation) : Request * Level :=
  if Level_eqb (type location) country && String.eqb (name location) "India"
  then (allStatesRequest, country)
  else if Level_eqb (type location) district && negb (String.eqb (name location) "")
  then (districtRequest (name location), district)
  else
    let stateName :=
      match stateName location with
      | Some EmptyString | None => name location
      | Some s => s
      end in
    (stateRequest stateName, state).

(** The [catch] and [finally] blocks. *)
Definition failed (message : option string) (st : Loaded) : Loaded :=
  {| geoJson := geoJson st; districtsGeoJson := districtsGeoJson st;
     allStatesGeoJson := allStatesGeoJson st; loading := false;
     error := Some match message with Some m => m | None => "An error occurred" end;
     zoomedFeature := zoomedFeature st; viewLevel := viewLevel st |}.

(** [loadGeoJson]: the state once the call has settled, and the requests it
    sent, in order. *)
Definition loadGeoJson (server : Server) (location : DetectedLocation) (st : Loaded)
  : Loaded * list Request :=
  let (request, level) := firstRequest location in
  let st :=
    {| geoJson := geoJson st; districtsGeoJson := districtsGeoJson st;
       allStatesGeoJson := allStatesGeoJson st; loading := true; error := None;
       zoomedFeature := {| InteractiveMap.feature := None; InteractiveMap.type := None;
                           InteractiveMap.progress := 0 |};
       viewLevel := level |} in
  match server request with
  | Rejects message => (failed message st, [request])
  | Answers response =>
    if negb (ok response) then
      match type location, stateName location with
      | district, Some (String c s) =>
        let fallback := stateRequest (String c s) in
        match server fallback with
        | Rejects message => (failed message st, [request; fallback])
        | Answers fallbackResponse =>
          match ok fallbackResponse, GeoJsonRoute.geoJson fallbackResponse with
          | true, Some doc =>
            ({| geoJson := Some doc;
                districtsGeoJson := GeoJsonRoute.districtsGeoJson fallbackResponse;
                allStatesGeoJson := allStatesGeoJson st; loading := false;
                error := error st; zoomedFeature := zoomedFeature st;
                viewLevel := viewLevel st |}, [request; fallback])
          | _, _ => (failed (Some "Failed to load map data") st, [request; fallback])
          end
        end
      | _, _ => (failed (Some "Failed to load map data") st, [request])
      end
    else
      match GeoJsonRoute.error response with
      | Some (String c m) => (failed (Some (String c m)) st, [request])
      | _ =>
        (if Level_eqb (type location) country
         then {| geoJson := None; districtsGeoJson := None;
                 allStatesGeoJson := GeoJsonRoute.geoJson response; loading := false;
                 error := error st; zoomedFeature := zoomedFeature st;
                 viewLevel := viewLevel st |}
         else {| geoJson := GeoJsonRoute.geoJson response;
                 districtsGeoJson := GeoJsonRoute.districtsGeoJson response;
                 allStatesGeoJson := allStatesGeoJson st; loading := false;
                 error := error st; zoomedFeature := zoomedFeature st;
                 viewLevel := viewLevel st |},
         [request])
      end
  end.

(** The route answering every request, from the files and sources [env]. *)
Definition served (env : Environment) : Server :=
  fun request => Answers (GET request env).

(** ** Vocabulary of the statements about this module *)

(** The answers of the route, as [loadGeoJson] tells them apart: an error
    with a status that is not ok, or data with status 200. *)
Inductive Answer (request : Request) (env : Environment) : Prop :=
| answer_error (code : nat) (c : Ascii.ascii) (message : string) :
    GET request env = errorResponse code (String c message) ->
    ok (errorResponse code (String c message)) = false ->
    Answer request env
| answer_data (doc : option Document) (districts : option Document) :
    GET request env
    = {| status := 200; GeoJsonRoute.geoJson := doc;
         GeoJsonRoute.districtsGeoJson := districts; GeoJsonRoute.error := None |} ->
    (GeoJsonRouteWords.wantsAllStates request = false -> doc <> None) ->
    Answer request env.

End LoadGeoJson.

(* ================================================================== *)
(** * app/page.tsx: the location detected while typing *)
(* ================================================================== *)

Module LocationBadge.
Import Text Location ChatPage.
Local Open Scope string_scope.

(** [detectLocation(text)]: [detectedLocation] once the call has settled,
    and the requests it sent. *)
Definition detectLocation (text : string) (outcome : DetectOutcome)
  (detectedLocation : option DetectedLocation)
  : option DetectedLocation * list Fetch :=
  if String.eqb (trim text) "" then (None, [])
  else
    (match outcome with
     | DetectAnswer location _ => location
     | DetectNotOk => detectedLocation
     | DetectFails => None
     end,
     [PostDetectLocation "/api/detect-location" text]).

(** The text shown beside the pin above the input, if any; an absent
    [stateName] is written ["undefined"] by the template. *)
Definition badge (detectedLocation : option DetectedLocation) : option string :=
  match detectedLocation with
  | None => None
  | Some loc =>
    Some match type loc with
         | country | state => name loc
         | district =>
           name loc ++ ", " ++
           match stateName loc with Some s => s | None => "undefined" end
         end
  end.

(** An [output.geojson] with the district Thane. *)
Definition thaneFile : DetectLocation.OutputFile :=
  Some {| GeoJson.features :=
            Some [{| GeoJson.properties := [("dtname", "Thane")];
                     GeoJson.geometry := None |}] |}.

End LocationBadge.

(* ================================================================== *)
(** * The numbers of JavaScript *)
(* ================================================================== *)

Module Binary64.
Import PrimFloat SpecFloat FloatOps.
Local Open Scope float_scope.

(** [Math.min(a, b)]: [NaN] when an argument is [NaN], and [-0] is less than
    [+0]. *)
Definition Math_min (a b : float) : float :=
  if is_nan a || is_nan b then nan
  else if a <? b then a
  else if b <? a then b
  else if get_sign a then a else b.

(** The length of an array, as a number. *)
Definition ofNat (n : nat) : float :=
  of_uint63 (Uint63Axioms.of_Z (Z.of_nat n)).

(** ** Vocabulary of the statements about numbers *)

(** The value of a finite number, exactly, as a fraction in lowest terms. *)
Definition exact (x : float) : option Q :=
  match Prim2SF x with
  | S754_zero _ => Some 0%Q
  | S754_finite s m e =>
    Some (Qred ((if s then inject_Z (Z.neg m) else inject_Z (Z.pos m)) * Qpower 2 e))%Q
  | S754_infinity _ | S754_nan => None
  end.

(** The place of a number in the order of the numbers: the sign, then the
    exponent, then the mantissa; [NaN] has none. *)
Definition key (f : spec_float) : option (Z * Z * Z) :=
  match f with
  | S754_nan => None
  | S754_infinity true => Some (-2, 0, 0)%Z
  | S754_finite true m e => Some (-1, - e, Z.neg m)%Z
  | S754_zero _ => Some (0, 0, 0)%Z
  | S754_finite false m e => Some (1, e, Z.pos m)%Z
  | S754_infinity false => Some (2, 0, 0)%Z
  end.

Definition lexCompare (a b : Z * Z * Z) : comparison :=
  let '(a1, a2, a3) := a in
  let '(b1, b2, b3) := b in
  match Z.compare a1 b1 with
  | Eq => match Z.compare a2 b2 with
          | Eq => Z.compare a3 b3
          | c => c
          end
  | c => c
  end.

(** [a] comes before [b]. *)
Definition before (a b : Z * Z * Z) : Prop :=
  let '(a1, a2, a3) := a in
  let '(b1, b2, b3) := b in
  (a1 < b1 \/ (a1 = b1 /\ (a2 < b2 \/ (a2 = b2 /\ a3 < b3))))%Z.

End Binary64.

(* ================================================================== *)
(** * The arithmetic of the projection, with and without rounding *)
(* ================================================================== *)

Module Arithmetic.
Import PrimFloat.

(** The operations of the projection: [+], [-], [*], [/], [Math.min] and the
    literals [2] and [0.02]. *)
Record Ops : Type := {
  num : Type;
  plus : num -> num -> num;
  minus : num -> num -> num;
  times : num -> num -> num;
  divide : num -> num -> num;
  least : num -> num -> num;
  two : num;
  twoPercent : num
}.

(** The numbers of JavaScript: every operation is rounded to binary64. *)
Definition binary64 : Ops :=
  {| num := float;
     plus := PrimFloat.add; minus := PrimFloat.sub;
     times := PrimFloat.mul; divide := PrimFloat.div;
     least := Binary64.Math_min;
     two := 2%float; twoPercent := 0.02%float |}.

(** The same operations on fractions, where nothing is rounded. *)
Definition rational : Ops :=
  {| num := Q;
     plus := Qplus; minus := Qminus; times := Qmult; divide := Qdiv;
     least := Num.Math_min;
     two := 2; twoPercent := 0.02 |}.

(** The body of [ringToPath] for the position [c] of the ring, in the
    arithmetic [O]: the box is padded by 2% of its width and of its height
    on each side, one scale factor serves both axes, the drawing is centred
    and the vertical axis is flipped. *)
Definition projection (O : Ops)
  (bounds_minLon bounds_maxLon bounds_minLat bounds_maxLat
   bounds_width bounds_height w h : num O) (c : num O * num O) : num O * num O :=
  let px := times O bounds_width (twoPercent O) in
  let py := times O bounds_height (twoPercent O) in
  let minLon := minus O bounds_minLon px in
  let maxLon := plus O bounds_maxLon px in
  let minLat := minus O bounds_minLat py in
  let maxLat := plus O bounds_maxLat py in
  let effW := minus O maxLon minLon in
  let effH := minus O maxLat minLat in
  let scale := least O (divide O w effW) (divide O h effH) in
  let ox := divide O (minus O w (times O effW scale)) (two O) in
  let oy := divide O (minus O h (times O effH scale)) (two O) in
  let x := plus O (times O (minus O (fst c) minLon) scale) ox in
  let y := minus O h (plus O (times O (minus O (snd c) minLat) scale) oy) in
  (x, y).

End Arithmetic.

(* ================================================================== *)
(** * map-visualization: the helper functions in binary64 *)
(* ================================================================== *)

Module MapVisualization64.
Import PrimFloat Binary64.
Local Open Scope float_scope.

(** A GeoJSON position [[lon, lat]]. *)
Definition position : Type := (float * float)%type.

(** [geometry.coordinates]: positions nested in arrays to any depth. *)
Inductive coords : Type :=
| Position (lon lat : float)
| Nested (cs : list coords).

(** [GeoJsonFeature], as the helper functions read it. *)
Record GeoJsonFeature : Type := {
  geometry_type : string;
  coordinates : coords
}.

(** The return value of [calculateBounds] when it is not [null]. *)
Record Bounds : Type := {
  minLon : float; maxLon : float; minLat : float; maxLat : float;
  width : float; height : float; centerX : float; centerY : float
}.

(** The four running extremes of [calculateBounds]. *)
Record Extremes : Type := {
  e_minLon : float; e_maxLon : float; e_minLat : float; e_maxLat : float
}.

Definition initial : Extremes :=
  {| e_minLon := infinity; e_maxLon := neg_infinity;
     e_minLat := infinity; e_maxLat := neg_infinity |}.

(** The body of [traverse] at a position. *)
Definition visit (lon lat : float) (e : Extremes) : Extremes :=
  {| e_minLon := if lon <? e_minLon e then lon else e_minLon e;
     e_maxLon := if e_maxLon e <? lon then lon else e_maxLon e;
     e_minLat := if lat <? e_minLat e then lat else e_minLat e;
     e_maxLat := if e_maxLat e <? lat then lat else e_maxLat e |}.

Fixpoint traverse (c : coords) (e : Extremes) : Extremes :=
  match c with
  | Position lon lat => visit lon lat e
  | Nested cs => fold_left (fun acc c' => traverse c' acc) cs e
  end.

Definition calculateBounds (features : list GeoJsonFeature) : option Bounds :=
  let e := fold_left (fun acc f => traverse (coordinates f) acc) features initial in
  if e_minLon e =? infinity then None
  else
    let minLon := e_minLon e in
    let maxLon := e_maxLon e in
    let minLat := e_minLat e in
    let maxLat := e_maxLat e in
    let width := maxLon - minLon in
    let height := maxLat - minLat in
    Some {| minLon := minLon; maxLon := maxLon; minLat := minLat; maxLat := maxLat;
            width := width; height := height;
            centerX := minLon + width / 2; centerY := minLat + height / 2 |}.

Definition interpolateBounds (b1 b2 : option Bounds) (p : float) : option Bounds :=
  match b1, b2 with
  | Some b1, Some b2 =>
    Some {| minLon := minLon b1 + (minLon b2 - minLon b1) * p;
            maxLon := maxLon b1 + (maxLon b2 - maxLon b1) * p;
            minLat := minLat b1 + (minLat b2 - minLat b1) * p;
            maxLat := maxLat b1 + (maxLat b2 - maxLat b1) * p;
            width := width b1 + (width b2 - width b1) * p;
            height := height b1 + (height b2 - height b1) * p;
            centerX := centerX b1 + (centerX b2 - centerX b1) * p;
            centerY := centerY b1 + (centerY b2 - centerY b1) * p |}
  | _, Some b2 => Some b2
  | _, None => b1
  end.

(** One command of an SVG path. *)
Inductive PathCommand : Type :=
| MoveTo (x y : float)      (* "M x y" *)
| LineTo (x y : float)      (* "L x y" *)
| ClosePath.                (* "Z" *)

(** [ringToPath]: the path string is kept as its list of commands; the
    empty string is the empty list. *)
Definition ringToPath (ring : list position) (bounds : option Bounds) (w h : float)
  : list PathCommand :=
  match bounds with
  | None => []
  | Some bounds =>
    let px := width bounds * 0.02 in
    let py := height bounds * 0.02 in
    let minLon := minLon bounds - px in
    let maxLon := maxLon bounds + px in
    let minLat := minLat bounds - py in
    let maxLat := maxLat bounds + py in
    let effW := maxLon - minLon in
    let effH := maxLat - minLat in
    let scale := Math_min (w / effW) (h / effH) in
    let ox := (w - effW * scale) / 2 in
    let oy := (h - effH * scale) / 2 in
    map (fun ic : nat * position =>
           let (i, c) := ic in
           let x := (fst c - minLon) * scale + ox in
           let y := h - ((snd c - minLat) * scale + oy) in
           if Nat.eqb i 0 then MoveTo x y else LineTo x y)
        (combine (seq 0 (List.length ring)) ring)
    ++ [ClosePath]
  end.

Definition projectPoint (c : position) (bounds : option Bounds) (w h : float)
  : option (float * float) :=
  match bounds with
  | None => None
  | Some bounds =>
    let px := width bounds * 0.02 in
    let py := height bounds * 0.02 in
    let minLon := minLon bounds - px in
    let minLat := minLat bounds - py in
    let effW := maxLon bounds + px - minLon in
    let effH := maxLat bounds + py - minLat in
    let scale := Math_min (w / effW) (h / effH) in
    let ox := (w - effW * scale) / 2 in
    let oy := (h - effH * scale) / 2 in
    Some ((fst c - minLon) * scale + ox, h - ((snd c - minLat) * scale + oy))
  end.

(** ** Vocabulary of the statements about this module *)

(** The points a path goes through, in order. *)
Definition pathPoints (path : list PathCommand) : list (float * float) :=
  flat_map (fun c => match c with
                     | MoveTo x y | LineTo x y => [(x, y)]
                     | ClosePath => []
                     end) path.

(** Every position below [c], in the order [traverse] meets them. *)
Fixpoint positions (c : coords) : list position :=
  match c with
  | Position lon lat => [(lon, lat)]
  | Nested cs => flat_map positions cs
  end.

Definition allPositions (features : list GeoJsonFeature) : list position :=
  flat_map (fun f => positions (coordinates f)) features.

(** A position with finite coordinates. *)
Definition finitePosition (p : position) : Prop :=
  is_finite (fst p) = true /\ is_finite (snd p) = true.

(** [m] is the least, respectively the greatest, number of [l]. *)
Definition is_min (m : float) (l : list float) : Prop :=
  In m l /\ forall x, In x l -> (m <=? x) = true.
Definition is_max (m : float) (l : list float) : Prop :=
  In m l /\ forall x, In x l -> (x <=? m) = true.

(** Two bounds with the same numbers in every field, as [===] compares
    numbers. *)
Definition Bounds_same (a b : Bounds) : Prop :=
  (minLon a =? minLon b) = true /\ (maxLon a =? maxLon b) = true /\
  (minLat a =? minLat b) = true /\ (maxLat a =? maxLat b) = true /\
  (width a =? width b) = true /\ (height a =? height b) = true /\
  (centerX a =? centerX b) = true /\ (centerY a =? centerY b) = true.

(** No difference between two fields overflows. *)
Definition finiteDifferences (b1 b2 : Bounds) : Prop :=
  is_finite (minLon b2 - minLon b1) = true /\ is_finite (maxLon b2 - maxLon b1) = true /\
  is_finite (minLat b2 - minLat b1) = true /\ is_finite (maxLat b2 - maxLat b1) = true /\
  is_finite (width b2 - width b1) = true /\ is_finite (height b2 - height b1) = true /\
  is_finite (centerX b2 - centerX b1) = true /\
  is_finite (centerY b2 - centerY b1) = true.

(** The point [ringToPath] draws for the position [c]. *)
Definition paddedProjection (b : Bounds) (w h : float) (c : position) : float * float :=
  Arithmetic.projection Arithmetic.binary64
    (minLon b) (maxLon b) (minLat b) (maxLat b) (width b) (height b) w h c.

(** The same projection carried out on fractions, without rounding. *)
Definition exactProjection (b : MapVisualization.Bounds) (w h : Q) (c : Q * Q) : Q * Q :=
  Arithmetic.projection Arithmetic.rational
    (MapVisualization.minLon b) (MapVisualization.maxLon b)
    (MapVisualization.minLat b) (MapVisualization.maxLat b)
    (MapVisualization.width b) (MapVisualization.height b) w h c.

(** [traverse] at one position, as a step of a fold. *)
Definition visitPosition (acc : Extremes) (p : position) : Extremes :=
  visit (fst p) (snd p) acc.

(** [e] holds the extremes of the positions [pts] met so far. *)
Definition tracks (pts : list position) (e : Extremes) : Prop :=
  match pts with
  | [] => e = initial
  | _ :: _ =>
    is_min (e_minLon e) (map fst pts) /\ is_max (e_maxLon e) (map fst pts) /\
    is_min (e_minLat e) (map snd pts) /\ is_max (e_maxLat e) (map snd pts)
  end.

(** The exact values of the fields of a box, of a position. *)
Definition exactBounds (b : Bounds) : option MapVisualization.Bounds :=
  match exact (minLon b), exact (maxLon b), exact (minLat b), exact (maxLat b),
        exact (width b), exact (height b), exact (centerX b), exact (centerY b) with
  | Some a, Some b', Some c, Some d, Some e, Some f, Some g, Some h =>
    Some {| MapVisualization.minLon := a; MapVisualization.maxLon := b';
            MapVisualization.minLat := c; MapVisualization.maxLat := d;
            MapVisualization.width := e; MapVisualization.height := f;
            MapVisualization.centerX := g; MapVisualization.centerY := h |}
  | _, _, _, _, _, _, _, _ => None
  end.

Definition exactPosition (c : position) : option MapVisualization.position :=
  match exact (fst c), exact (snd c) with
  | Some x, Some y => Some (x, y)
  | _, _ => None
  end.

End MapVisualization64.

Module Geometry64Examples.
Import PrimFloat Binary64 MapVisualization64.
Local Open Scope string_scope.
Local Open Scope float_scope.

(** A feature that is the rectangle from [(west, south)] to [(east, north)]. *)
Definition rectangle (west south east north : float) : GeoJsonFeature :=
  {| geometry_type := "Polygon";
     coordinates :=
       Nested [Nested [Position west south; Position east south;
                       Position east north; Position west north;
                       Position west south]] |}.

(** The extent of India, of Goa and of Gujarat, to one decimal. *)
Definition india : GeoJsonFeature := rectangle 68.1 6.7 97.4 37.1.
Definition goa : GeoJsonFeature := rectangle 73.7 14.9 74.3 15.8.
Definition gujarat : GeoJsonFeature := rectangle 68.1 20.1 74.5 24.7.

(** A rectangle from latitude 7.9 to latitude 30. *)
Definition south : GeoJsonFeature := rectangle 68 7.9 97 30.

(** A rectangle eleven units in the last place wide and one high. *)
Definition sliver : GeoJsonFeature :=
  rectangle 68 8 68.00000000000016 8.000000000000002.

(** A feature with one position, of longitude [Infinity]. *)
Definition beyond : GeoJsonFeature :=
  {| geometry_type := "Point"; coordinates := Position infinity 0 |}.

(** Two rectangles whose fields differ by more than the largest number. *)
Definition farWest : GeoJsonFeature := rectangle (-1.7e308) 0 (-1.6e308) 1.
Definition farEast : GeoJsonFeature := rectangle 1.6e308 0 1.7e308 1.

End Geometry64Examples.

(* ================================================================== *)
(** * app/api/geojson/route.ts in binary64 *)
(* ================================================================== *)

Module GeoJson64.

(** A position is an array of numbers, a ring an array of positions. *)
Definition Position : Type := list PrimFloat.float.
Definition Ring : Type := list Position.

Inductive Geometry : Type :=
| Polygon (coordinates : list Ring)
| MultiPolygon (coordinates : list (list Ring))
| OtherGeometry (type : string).

Record Feature : Type := {
  properties : list (string * string);
  geometry : option Geometry
}.

(** A parsed JSON value that is truthy, seen through its property
    [features]: [None] when that is not an array. *)
Record Document : Type := {
  features : option (list Feature)
}.

End GeoJson64.

Module GeoJsonRoute64.
Import PrimFloat Binary64 Text GeoJson GeoJson64.
Local Open Scope string_scope.
Local Open Scope float_scope.

(** [Array.isArray(coord) && coord.length >= 2 && typeof coord[0] === "number"]
    on an array of numbers. *)
Definition isCoordinatePair (coord : Position) : bool :=
  (2 <=? List.length coord)%nat.

(** [coord[i]] where it is defined. *)
Definition at_ (coord : Position) (i : nat) : float := nth i coord 0.

Definition calculateFeatureCentroid (feature : Feature) : option (float * float) :=
  match geometry feature with
  | None => None
  | Some g =>
    let allCoords : list Position :=
      match g with
      | Polygon coords =>
        match coords with
        | ring0 :: _ => filter isCoordinatePair ring0
        | [] => []
        end
      | MultiPolygon coords =>
        flat_map (fun polygon : list Ring =>
                    match polygon with
                    | ring0 :: _ => filter isCoordinatePair ring0
                    | [] => []
                    end) coords
      | OtherGeometry _ => []
      end in
    match allCoords with
    | [] => None
    | _ :: _ =>
      let sumLon := fold_left (fun sum coord => sum + at_ coord 0) allCoords 0 in
      let sumLat := fold_left (fun sum coord => sum + at_ coord 1) allCoords 0 in
      let length := ofNat (List.length allCoords) in
      Some (sumLon / length, sumLat / length)
    end
  end.

(** The test [intersect] for the vertices [polygon[i]] and [polygon[j]]; a
    vertex with fewer than two numbers has an [undefined] coordinate, and
    every comparison with it is false. *)
Definition intersect (x y : float) (pi pj : Position) : bool :=
  match pi, pj with
  | xi :: yi :: _, xj :: yj :: _ =>
    negb (Bool.eqb (y <? yi) (y <? yj)) &&
    (x <? (xj - xi) * (y - yi) / (yj - yi) + xi)
  | _, _ => false
  end.

Definition isPointInPolygon (point : float * float) (polygon : Ring) : bool :=
  let (x, y) := point in
  let n := List.length polygon in
  fold_left (fun inside i =>
               let j := if Nat.eqb i 0 then (n - 1)%nat else (i - 1)%nat in
               if intersect x y (nth i polygon []) (nth j polygon [])
               then negb inside else inside)
            (seq 0 n) false.

Definition isPointInFeature (point : float * float) (feature : Feature) : bool :=
  match geometry feature with
  | None => false
  | Some (Polygon coords) =>
    match coords with
    | ring0 :: _ => isPointInPolygon point ring0
    | [] => false
    end
  | Some (MultiPolygon coords) =>
    existsb (fun polygon : list Ring =>
               match polygon with
               | ring0 :: _ => isPointInPolygon point ring0
               | [] => false
               end) coords
  | Some (OtherGeometry _) => false
  end.

(** What [JSON.parse] or [response.json()] gives: it throws, or it returns a
    value, [None] standing for a falsy one such as [null]. *)
Inductive Json : Type :=
| Invalid
| Value (doc : option Document).

(** A file: [None] when [fs.existsSync] is false. *)
Definition FileRead : Type := option Json.

Inductive FetchResult : Type :=
| FetchFails
| HttpNotOk
| HttpOk (body : Json).

Record Environment : Type := {
  fetchStates : FetchResult;
  localState : string -> FileRead;
  localDistrict : string -> FileRead;
  outputGeojson : FileRead
}.

Record Request : Type := {
  state : option string;
  district : option string;
  allstates : option string
}.

Record Response : Type := {
  status : nat;
  geoJson : option Document;
  districtsGeoJson : option Document;
  error : option string
}.

(** A query parameter that is present and not empty. *)
Definition truthy (p : option string) : option string :=
  match p with
  | Some EmptyString | None => None
  | Some s => Some s
  end.

Definition FeatureCollection (fs : list Feature) : Document :=
  {| features := Some fs |}.

(** The features of [doc] whose name, read by [nameOf], normalizes to
    [normalized]; [None] when the evaluation throws or nothing matches. *)
Definition matchingCollection (nameOf : Feature -> string) (normalized : string)
  (body : Json) : option Document :=
  match body with
  | Value (Some {| features := Some fs |}) =>
    match filter (fun feature =>
                    String.eqb (normalizeLocationName (nameOf feature)) normalized) fs with
    | [] => None
    | matchingFeatures => Some (FeatureCollection matchingFeatures)
    end
  | _ => None
  end.

Definition districtFeatureName (feature : Feature) : string :=
  firstTruthy [property "dtname" (properties feature);
               property "NAME_2" (properties feature);
               property "DISTRICT" (properties feature);
               property "District" (properties feature)].

Definition stateFeatureName (feature : Feature) : string :=
  firstTruthy [property "NAME_1" (properties feature)].

(** The districts shown with a state: the block guarded by
    [stateName && !districtName && geoJsonData]. *)
Definition districtsOfState (geoJsonData : Document) (output : FileRead)
  : option Document :=
  match output with
  | Some (Value (Some {| features := Some (d :: ds) |})) =>
    match features geoJsonData with
    | Some stateFeatures =>
      match filter (fun districtFeature =>
                      match calculateFeatureCentroid districtFeature with
                      | None => false
                      | Some districtCentroid =>
                        existsb (isPointInFeature districtCentroid) stateFeatures
                      end) (d :: ds) with
      | [] => None
      | matchingDistrictFeatures => Some (FeatureCollection matchingDistrictFeatures)
      end
    | None => None
    end
  | _ => None
  end.

Definition errorResponse (code : nat) (message : string) : Response :=
  {| status := code; geoJson := None; districtsGeoJson := None;
     error := Some message |}.

Definition GET (request : Request) (env : Environment) : Response :=
  if match allstates request with Some v => String.eqb v "true" | None => false end then
    match fetchStates env with
    | HttpOk (Value allStatesData) =>
      {| status := 200; geoJson := allStatesData; districtsGeoJson := None;
         error := None |}
    | _ => errorResponse 500 "Failed to load India map data"
    end
  else
    match truthy (state request), truthy (district request) with
    | None, None => errorResponse 400 "State or district name is required"
    | stateName, districtName =>
      (* the local file *)
      let localFile :=
        match districtName, stateName with
        | Some d, _ => localDistrict env d
        | None, Some s => localState env s
        | None, None => None
        end in
      match localFile with
      | Some Invalid => errorResponse 500 "Internal server error"
      | _ =>
        let geoJsonData : option Document :=
          match localFile with
          | Some (Value doc) => doc
          | _ => None
          end in
        (* the remote sources *)
        let geoJsonData :=
          match geoJsonData with
          | Some doc => Some doc
          | None =>
            let fromOutput :=
              match districtName, outputGeojson env with
              | Some d, Some body =>
                matchingCollection districtFeatureName (normalizeLocationName d) body
              | _, _ => None
              end in
            match fromOutput, stateName with
            | Some doc, _ => Some doc
            | None, Some s =>
              match fetchStates env with
              | HttpOk body =>
                matchingCollection stateFeatureName (normalizeLocationName s) body
              | _ => None
              end
            | None, None => None
            end
          end in
        (* the districts of a state *)
        let districtsGeoJsonData :=
          match stateName, districtName, geoJsonData with
          | Some _, None, Some doc => districtsOfState doc (outputGeojson env)
          | _, _, _ => None
          end in
        match geoJsonData with
        | None => errorResponse 404 "Location outline not found"
        | Some doc =>
          {| status := 200; geoJson := Some doc;
             districtsGeoJson := districtsGeoJsonData; error := None |}
        end
      end
    end.

(** ** Vocabulary of the statements about this module *)

(** The outer ring of each polygon of a geometry. *)
Definition outerRings (feature : Feature) : list Ring :=
  match geometry feature with
  | Some (Polygon (ring0 :: _)) => [ring0]
  | Some (MultiPolygon polygons) =>
    flat_map (fun polygon : list Ring =>
                match polygon with ring0 :: _ => [ring0] | [] => [] end) polygons
  | _ => []
  end.

(** The vertices of the outer rings. *)
Definition outerVertices (feature : Feature) : list Position :=
  flat_map (filter isCoordinatePair) (outerRings feature).

Definition sum (l : list float) : float := fold_left add l 0.

Definition mean (l : list float) : float := sum l / ofNat (List.length l).

(** The mean of the vertices of the outer rings, when there is a vertex:
    their sum, taken in order from 0, divided by their number, each operation
    rounded to binary64. *)
Definition centroidOfOuterRings (feature : Feature) : option (float * float) :=
  match outerVertices feature with
  | [] => None
  | vs => Some (mean (map (fun v => at_ v 0) vs), mean (map (fun v => at_ v 1) vs))
  end.

(** The edge from vertex [i] to the vertex before it, cyclically, crosses
    the horizontal ray going right from the point. *)
Definition edgeCrossesRay (point : float * float) (polygon : Ring) (i : nat) : bool :=
  let j := if Nat.eqb i 0 then (List.length polygon - 1)%nat else (i - 1)%nat in
  intersect (fst point) (snd point) (nth i polygon []) (nth j polygon []).

(** The even-odd rule: an odd number of edges crosses the ray. *)
Definition evenOddInside (point : float * float) (polygon : Ring) : bool :=
  Nat.odd (List.length (filter (edgeCrossesRay point polygon)
                               (seq 0 (List.length polygon)))).

(** The centroid of [districtFeature] lies inside the outer ring of some
    feature of [stateFeatures]. *)
Definition centroidInsideState (stateFeatures : list Feature)
  (districtFeature : Feature) : bool :=
  match centroidOfOuterRings districtFeature with
  | None => false
  | Some c =>
    existsb (fun stateFeature => existsb (evenOddInside c) (outerRings stateFeature))
            stateFeatures
  end.

(** The features of a value, none when [features] is not an array. *)
Definition featuresOf (doc : option Document) : list Feature :=
  match doc with
  | Some {| features := Some fs |} => fs
  | _ => []
  end.

(** A square ring, closed. *)
Definition square : Ring := [[0; 0]; [4; 0]; [4; 4]; [0; 4]; [0; 0]].

(** The same value with every number replaced by its exact value; [None]
    when a number is not finite. *)
Fixpoint exactAll {A B : Type} (f : A -> option B) (l : list A) : option (list B) :=
  match l with
  | [] => Some []
  | a :: rest =>
    match f a, exactAll f rest with
    | Some b, Some bs => Some (b :: bs)
    | _, _ => None
    end
  end.

Definition exactRing (ring : Ring) : option GeoJson.Ring :=
  exactAll (exactAll exact) ring.

Definition exactGeometry (g : Geometry) : option GeoJson.Geometry :=
  match g with
  | Polygon coords => option_map GeoJson.Polygon (exactAll exactRing coords)
  | MultiPolygon coords =>
    option_map GeoJson.MultiPolygon (exactAll (exactAll exactRing) coords)
  | OtherGeometry type => Some (GeoJson.OtherGeometry type)
  end.

Definition exactFeature (feature : Feature) : option GeoJson.Feature :=
  match geometry feature with
  | None =>
    Some {| GeoJson.properties := properties feature; GeoJson.geometry := None |}
  | Some g =>
    option_map (fun gq => {| GeoJson.properties := properties feature;
                             GeoJson.geometry := Some gq |})
               (exactGeometry g)
  end.

(** A state whose western border is the meridian 70.3, and a district on
    that border: a triangle with the longitudes 70.1, 70.3 and 70.7. *)
Definition borderState : Feature :=
  {| properties := [("NAME_1", "Gujarat")];
     geometry := Some (Polygon [[[70.3; 20]; [75; 20]; [75; 25]; [70.3; 25];
                                 [70.3; 20]]]) |}.

Definition borderDistrict : Feature :=
  {| properties := [("dtname", "Border")];
     geometry := Some (Polygon [[[70.1; 21]; [70.3; 22.5]; [70.7; 21];
                                 [70.1; 21]]]) |}.

Definition borderRequest : Request :=
  {| state := Some "Gujarat"; district := None; allstates := None |}.

Definition borderFiles : Environment :=
  {| fetchStates := FetchFails;
     localState := fun _ => Some (Value (Some (FeatureCollection [borderState])));
     localDistrict := fun _ => None;
     outputGeojson := Some (Value (Some (FeatureCollection [borderDistrict]))) |}.

End GeoJsonRoute64.

(* ================================================================== *)
(** * Properties *)
(* ================================================================== *)

Section NumFacts.
Import Num.

Lemma ltb_lt (a b : Q) : (a <? b) = true <-> a < b.
Proof.
  unfold ltb. rewrite negb_true_iff.
  split; intro H.
  - apply Qnot_le_lt. intro Hle. apply Qle_bool_iff in Hle. congruence.
  - destruct (Qle_bool b a) eqn:E; [|reflexivity].
    apply Qle_bool_iff in E. lra.
Qed.

Lemma ltb_ge (a b : Q) : (a <? b) = false <-> b <= a.
Proof.
  unfold ltb. rewrite negb_false_iff. apply Qle_bool_iff.
Qed.

Lemma gtb_gt (a b : Q) : (a >? b) = true <-> b < a.
Proof. apply ltb_lt. Qed.

Lemma Math_min_le_l (a b : Q) : Math_min a b <= a.
Proof.
  unfold Math_min. destruct (Qle_bool a b) eqn:E; [lra|].
  assert (~ a <= b) by (rewrite <- Qle_bool_iff; congruence). lra.
Qed.

Lemma Math_min_le_r (a b : Q) : Math_min a b <= b.
Proof.
  unfold Math_min. destruct (Qle_bool a b) eqn:E; [|lra].
  apply Qle_bool_iff in E. lra.
Qed.

Lemma Math_min_cases (a b : Q) : Math_min a b = a \/ Math_min a b = b.
Proof. unfold Math_min. destruct (Qle_bool a b); auto. Qed.

End NumFacts.

Module ProjectionFacts.
Import Num MapVisualization.

(** The scale factor of [ringToPath] and [projectPoint] for the padded box
    of width [effW] and height [effH]. *)
Lemma scale_fits (w h effW effH : Q) :
  0 <= w -> 0 <= h -> 0 < effW -> 0 < effH ->
  let scale := Math_min (w / effW) (h / effH) in
  0 <= scale /\ effW * scale <= w /\ effH * scale <= h.
Proof.
  intros Hw Hh HW HH scale.
  assert (Ew : effW * (w / effW) == w) by (apply Qmult_div_r; lra).
  assert (Eh : effH * (h / effH) == h) by (apply Qmult_div_r; lra).
  assert (Pw : 0 <= w / effW).
  { apply Qle_shift_div_l; lra. }
  assert (Ph : 0 <= h / effH).
  { apply Qle_shift_div_l; lra. }
  pose proof (Math_min_le_l (w / effW) (h / effH)) as Ll.
  pose proof (Math_min_le_r (w / effW) (h / effH)) as Lr.
  fold scale in Ll, Lr.
  assert (P : 0 <= scale).
  { subst scale. destruct (Math_min_cases (w / effW) (h / effH)) as [->| ->]; assumption. }
  repeat split; [assumption | nra | nra].
Qed.

(** A coordinate [v] of the box [[lo, hi]], padded by [pad] on each side,
    scaled by [s] and centred in a canvas of extent [W], stays on the canvas. *)
Lemma centred_on_canvas (lo hi pad W v s : Q) :
  0 < pad -> lo <= v <= hi -> 0 <= s ->
  (hi + pad - (lo - pad)) * s <= W ->
  0 <= (v - (lo - pad)) * s + (W - (hi + pad - (lo - pad)) * s) / 2 <= W.
Proof.
  intros Hp [Hl Hh] Hs Hfit.
  assert (E : (W - (hi + pad - (lo - pad)) * s) / 2 ==
              (W - (hi + pad - (lo - pad)) * s) * (1 # 2)) by (field).
  rewrite E. split; nra.
Qed.

End ProjectionFacts.

Module RingToPathFacts.
Import Num MapVisualization ProjectionFacts.

Lemma pathPoints_app (p q : list PathCommand) :
  pathPoints (p ++ q) = pathPoints p ++ pathPoints q.
Proof. apply flat_map_app. Qed.

Lemma pathPoints_drawn (F : nat * position -> PathCommand) (g : position -> Q * Q) :
  (forall i c, pathPoints [F (i, c)] = [g c]) ->
  forall l : list (nat * position), pathPoints (map F l) = map g (map snd l).
Proof.
  intros HF l. induction l as [|[i c] l IH]; [reflexivity|].
  change (map F ((i, c) :: l)) with ([F (i, c)] ++ map F l).
  rewrite pathPoints_app, HF, IH. reflexivity.
Qed.

Lemma snd_numbered {A : Type} (l : list A) (k : nat) :
  map snd (combine (seq k (List.length l)) l) = l.
Proof.
  revert k. induction l as [|a l IH]; intro k; [reflexivity|].
  cbn. now rewrite IH.
Qed.

(** The points of the path are the projections of the positions of the ring. *)
Lemma ringToPath_points (ring : list position) (b : Bounds) (w h : Q) :
  map Some (pathPoints (ringToPath ring (Some b) w h))
  = map (fun c => projectPoint c (Some b) w h) ring.
Proof.
  unfold ringToPath. cbv zeta.
  rewrite pathPoints_app. cbn [pathPoints flat_map]. rewrite app_nil_r.
  match goal with
  | |- context [map ?F (combine _ _)] =>
    rewrite (pathPoints_drawn F
               (fun c => match projectPoint c (Some b) w h with
                         | Some p => p
                         | None => (0, 0)
                         end))
  end.
  - rewrite snd_numbered, map_map. reflexivity.
  - intros i c. destruct (Nat.eqb i 0); reflexivity.
Qed.

(** C9.  [projectPoint] returns, for a coordinate pair, exactly the point
    that [ringToPath] draws for it under the same bounds and canvas size;
    without bounds [ringToPath] gives the empty path and [projectPoint]
    gives [null]. *)
Theorem projectPoint_agrees_with_ringToPath
  (ring : list position) (bounds : option Bounds) (w h : Q) :
  match bounds with
  | Some b =>
    map Some (pathPoints (ringToPath ring bounds w h))
    = map (fun c => projectPoint c bounds w h) ring
  | None =>
    ringToPath ring bounds w h = [] /\
    forall c, projectPoint c bounds w h = None
  end.
Proof.
  destruct bounds as [b|].
  - apply ringToPath_points.
  - split; [reflexivity | intro c; reflexivity].
Qed.

End RingToPathFacts.

Module CanvasFacts.
Import Num MapVisualization ProjectionFacts RingToPathFacts.

Lemma projectPoint_on_canvas (b : Bounds) (w h : Q) (c : position) :
  0 < width b -> 0 < height b -> 0 <= w -> 0 <= h ->
  minLon b <= fst c <= maxLon b -> minLat b <= snd c <= maxLat b ->
  exists x y, projectPoint c (Some b) w h = Some (x, y) /\
    0 <= x <= w /\ 0 <= y <= h.
Proof.
  intros Hwd Hht Hw Hh Hlon Hlat.
  unfold projectPoint. cbv zeta. do 2 eexists. split; [reflexivity|].
  set (px := width b * 0.02). set (py := height b * 0.02).
  assert (Px : 0 < px) by (subst px; lra).
  assert (Py : 0 < py) by (subst py; lra).
  destruct (scale_fits w h (maxLon b + px - (minLon b - px))
                           (maxLat b + py - (minLat b - py)))
    as (Hs & Fw & Fh); try assumption; try lra.
  cbv zeta in Hs, Fw, Fh.
  set (s := Math_min _ _) in *.
  pose proof (centred_on_canvas (minLon b) (maxLon b) px w (fst c) s Px Hlon Hs Fw) as X.
  pose proof (centred_on_canvas (minLat b) (maxLat b) py h (snd c) s Py Hlat Hs Fh) as Y.
  split; [exact X | lra].
Qed.

End CanvasFacts.

Module BoundsFacts.
Import Num MapVisualization.

(** Induction on nested coordinates. *)
Lemma coords_nested_ind (P : coords -> Prop) :
  (forall lon lat, P (Position lon lat)) ->
  (forall cs, Forall P cs -> P (Nested cs)) ->
  forall c, P c.
Proof.
  intros HP HN.
  fix IH 1. intros [lon lat|cs].
  - apply HP.
  - apply HN. induction cs as [|c cs IHcs]; constructor; [apply IH | exact IHcs].
Qed.

Lemma traverse_positions (c : coords) :
  forall e, traverse c e = fold_left visitPosition (positions c) e.
Proof.
  induction c as [lon lat|cs IH] using coords_nested_ind; intro e.
  - reflexivity.
  - cbn [traverse positions]. revert e.
    induction IH as [|c cs Hc _ IHcs]; intro e; [reflexivity|].
    cbn [fold_left flat_map]. rewrite fold_left_app, <- Hc. apply IHcs.
Qed.

Lemma features_positions (features : list GeoJsonFeature) :
  forall e,
    fold_left (fun acc f => traverse (coordinates f) acc) features e
    = fold_left visitPosition (allPositions features) e.
Proof.
  induction features as [|f fs IH]; intro e; [reflexivity|].
  unfold allPositions in *. cbn [fold_left flat_map].
  rewrite fold_left_app, <- traverse_positions. apply IH.
Qed.

Lemma is_min_single (x : Q) : is_min x [x].
Proof. split; [left; reflexivity | intros y [<-|[]]; lra]. Qed.

Lemma is_max_single (x : Q) : is_max x [x].
Proof. split; [left; reflexivity | intros y [<-|[]]; lra]. Qed.

Lemma is_min_snoc (m x : Q) (l : list Q) :
  is_min m l -> is_min (if x <? m then x else m) (l ++ [x]).
Proof.
  intros [Hin Hle]. destruct (x <? m) eqn:E.
  - apply ltb_lt in E. split.
    + apply in_or_app. right. left. reflexivity.
    + intros y Hy. apply in_app_or in Hy as [Hy|[<-|[]]]; [|lra].
      specialize (Hle y Hy). lra.
  - apply ltb_ge in E. split.
    + apply in_or_app. left. exact Hin.
    + intros y Hy. apply in_app_or in Hy as [Hy|[<-|[]]]; [auto | lra].
Qed.

Lemma is_max_snoc (m x : Q) (l : list Q) :
  is_max m l -> is_max (if m <? x then x else m) (l ++ [x]).
Proof.
  intros [Hin Hle]. destruct (m <? x) eqn:E.
  - apply ltb_lt in E. split.
    + apply in_or_app. right. left. reflexivity.
    + intros y Hy. apply in_app_or in Hy as [Hy|[<-|[]]]; [|lra].
      specialize (Hle y Hy). lra.
  - apply ltb_ge in E. split.
    + apply in_or_app. left. exact Hin.
    + intros y Hy. apply in_app_or in Hy as [Hy|[<-|[]]]; [auto | lra].
Qed.

Lemma tracks_visit (seen : list position) (e : Extremes) (p : position) :
  tracks seen e -> tracks (seen ++ [p]) (visitPosition e p).
Proof.
  destruct seen as [|q seen]; cbn [tracks app].
  - intros ->. exists (fst p), (fst p), (snd p), (snd p). cbn.
    repeat split; try (left; reflexivity); intros y [<-|[]]; lra.
  - intros (a & b & c & d & -> & Ha & Hb & Hc & Hd).
    unfold visitPosition, visit. cbn [e_minLon e_maxLon e_minLat e_maxLat ext_ltb].
    exists (if fst p <? a then fst p else a), (if b <? fst p then fst p else b),
           (if snd p <? c then snd p else c), (if d <? snd p then snd p else d).
    change (q :: seen ++ [p]) with ((q :: seen) ++ [p]).
    rewrite !map_app. cbn [map].
    split; [|repeat split; first [apply is_min_snoc | apply is_max_snoc]; assumption].
    destruct (fst p <? a), (b <? fst p), (snd p <? c), (d <? snd p); reflexivity.
Qed.

Lemma tracks_fold (pts seen : list position) (e : Extremes) :
  tracks seen e -> tracks (seen ++ pts) (fold_left visitPosition pts e).
Proof.
  revert seen e. induction pts as [|p pts IH]; intros seen e H.
  - now rewrite app_nil_r.
  - cbn [fold_left].
    replace (seen ++ p :: pts) with ((seen ++ [p]) ++ pts)
      by (rewrite <- app_assoc; reflexivity).
    apply IH, tracks_visit, H.
Qed.

End BoundsFacts.

Module DetectLocationFacts.
Import Text Location GeoJson DetectLocation.
Local Open Scope string_scope.

Lemma Map_has_In {V : Type} (m : StringMap V) (key : string) :
  Map_has m key = true <-> In key (map fst m).
Proof.
  unfold Map_has. rewrite existsb_exists. split.
  - intros ([k v] & Hin & Heq). apply String.eqb_eq in Heq. cbn in Heq. subst k.
    apply (in_map fst) in Hin. exact Hin.
  - intro Hin. apply in_map_iff in Hin as ([k v] & Hk & Hin). cbn in Hk. subst k.
    exists (key, v). split; [exact Hin | apply String.eqb_refl].
Qed.

Lemma Map_set_fresh {V : Type} (m : StringMap V) (key : string) (v : V) :
  Map_has m key = false -> Map_set m key v = (m ++ [(key, v)])%list.
Proof.
  induction m as [|[k v'] m IH]; intro H; [reflexivity|].
  cbn in H. apply orb_false_elim in H as [Hk Hm].
  cbn [Map_set]. rewrite Hk. cbn. f_equal. apply IH. exact Hm.
Qed.

Lemma keyed_step (m : StringMap DetectedLocation) (loc : DetectedLocation) :
  keyed m ->
  keyed (if negb (Map_has m (locationKey loc))
         then Map_set m (locationKey loc) loc else m).
Proof.
  intros [Hnd Hk]. destruct (Map_has m (locationKey loc)) eqn:E; cbn [negb].
  - split; assumption.
  - rewrite Map_set_fresh by exact E. split.
    + rewrite map_app. cbn [map fst].
      apply NoDup_app; [exact Hnd | repeat constructor; intros [] | ].
      intros k Hin [<-|[]]. apply Map_has_In in Hin. congruence.
    + apply Forall_app. split; [exact Hk | repeat constructor].
Qed.

Lemma keyed_fold (found : list DetectedLocation) (m : StringMap DetectedLocation) :
  keyed m ->
  keyed (fold_left (fun m loc =>
                      let key := locationKey loc in
                      if negb (Map_has m key) then Map_set m key loc else m)
                   found m).
Proof.
  revert m. induction found as [|loc found IH]; intros m H; [exact H|].
  cbn [fold_left]. apply IH, keyed_step, H.
Qed.

Lemma uniqueLocations_keys (found : list DetectedLocation) :
  NoDup (map locationKey (uniqueLocations found)).
Proof.
  unfold uniqueLocations, Map_values.
  destruct (keyed_fold found [] (conj (NoDup_nil _) (Forall_nil _))) as [Hnd Hk].
  match type of Hk with
  | Forall _ ?folded => change (NoDup (map locationKey (map snd folded)));
                        set (m := folded) in *; clearbody m
  end.
  rewrite map_map.
  replace (map (fun kv => locationKey (snd kv)) m) with (map fst m); [exact Hnd|].
  apply map_ext_in. intros kv Hin.
  rewrite Forall_forall in Hk. apply Hk, Hin.
Qed.

(** The key tells the type and the normalized name apart. *)
Lemma locationKey_inj (a b : DetectedLocation) :
  sameTypeAndName a b -> locationKey a = locationKey b.
Proof. intros [Ht Hn]. unfold locationKey. now rewrite Ht, Hn. Qed.

Lemma locationKey_sound (a b : DetectedLocation) :
  locationKey a = locationKey b -> sameTypeAndName a b.
Proof.
  unfold locationKey, sameTypeAndName. intro H.
  destruct (type a), (type b); cbn in H; try discriminate;
    (split; [reflexivity | congruence]).
Qed.

(** C10.  In every answer with status 200 no two entries of [locations]
    have both the same type and the same normalized name, and [location] is
    the first entry of [locations], [null] exactly when there is none. *)
Theorem POST_unique_locations (body : Body) (output : OutputFile) :
  status (POST body output) = 200%nat ->
  (forall i j a b, i <> j ->
     nth_error (locations (POST body output)) i = Some a ->
     nth_error (locations (POST body output)) j = Some b ->
     ~ sameTypeAndName a b) /\
  location (POST body output) = hd_error (locations (POST body output)) /\
  (location (POST body output) = None <-> locations (POST body output) = []).
Proof.
  intro Hs. unfold POST in *.
  destruct body as [| |text]; [discriminate Hs | discriminate Hs |].
  destruct (String.eqb text ""); [discriminate Hs |].
  cbn [locations location]. clear Hs.
  pose proof (uniqueLocations_keys (detect output text)) as Hnd.
  set (u := uniqueLocations (detect output text)) in *. clearbody u.
  split; [|split; [|split]].
  - intros i j a b Hij Ha Hb Hsame.
    apply locationKey_inj in Hsame.
    apply Hij. apply (proj1 (NoDup_nth_error (map locationKey u)) Hnd).
    + rewrite length_map. apply nth_error_Some. congruence.
    + rewrite !nth_error_map, Ha, Hb. cbn. congruence.
  - destruct u; reflexivity.
  - intro H. destruct u; [reflexivity | discriminate H].
  - intros ->. reflexivity.
Qed.

(** C10 on a text naming a district twice and its state. *)
Lemma POST_unique_locations_witness :
  let r := POST (TextBody "Water levels in Pune and pune, Maharashtra") None in
  status r = 200%nat /\
  ((forall i j a b, i <> j ->
      nth_error (locations r) i = Some a ->
      nth_error (locations r) j = Some b ->
      ~ sameTypeAndName a b) /\
   location r = hd_error (locations r) /\
   (location r = None <-> locations r = [])).
Proof.
  intro r. split; [reflexivity|].
  apply (POST_unique_locations
           (TextBody "Water levels in Pune and pune, Maharashtra") None).
  reflexivity.
Defined.

Example POST_pune :
  locations (POST (TextBody "Water levels in Pune and pune, Maharashtra") None)
  = [ {| type := district; name := "Pune"; stateName := Some "Maharashtra" |};
      {| type := state; name := "Maharashtra"; stateName := None |} ].
Proof. vm_compute. reflexivity. Qed.

End DetectLocationFacts.

Module GeoJsonRouteFacts.
Import Num Text GeoJson GeoJsonRoute.
Local Open Scope string_scope.
Local Open Scope Q_scope.

Example inside_square : isPointInPolygon (2, 2) square = true.
Proof. vm_compute. reflexivity. Qed.

Example outside_square : isPointInPolygon (5, 2) square = false.
Proof. vm_compute. reflexivity. Qed.

(** ** The even-odd rule *)

Lemma toggle_parity {A : Type} (p : A -> bool) (l : list A) (start : bool) :
  fold_left (fun inside a => if p a then negb inside else inside) l start
  = xorb start (Nat.odd (List.length (filter p l))).
Proof.
  revert start. induction l as [|a l IH]; intro start.
  - cbn. now rewrite xorb_false_r.
  - cbn [fold_left filter]. rewrite IH. destruct (p a).
    + cbn [List.length]. rewrite Nat.odd_succ, <- Nat.negb_odd.
      destruct start, (Nat.odd (List.length (filter p l))); reflexivity.
    + reflexivity.
Qed.

Lemma isPointInPolygon_evenOdd (point : Q * Q) (polygon : Ring) :
  isPointInPolygon point polygon = evenOddInside point polygon.
Proof.
  unfold isPointInPolygon, evenOddInside. destruct point as [x y].
  rewrite (toggle_parity (edgeCrossesRay (x, y) polygon)). reflexivity.
Qed.

Lemma existsb_agree {A : Type} (f g : A -> bool) (l : list A) :
  (forall a, f a = g a) -> existsb f l = existsb g l.
Proof.
  intro H. induction l as [|a l IH]; [reflexivity|].
  cbn [existsb]. now rewrite H, IH.
Qed.

End GeoJsonRouteFacts.

Module ChatPageFacts.
Import Text Location ChatPage.
Local Open Scope string_scope.

Lemma trimEnd_nonblank (c : ascii) (r : string) :
  isWhitespace c = false -> trimEnd (String c r) <> "".
Proof.
  intro H. cbn [trimEnd]. destruct (trimEnd r); [rewrite H|]; discriminate.
Qed.

Lemma trim_blank (s : string) : String.eqb (trim s) "" = isBlank s.
Proof.
  unfold trim. induction s as [|c r IH]; [reflexivity|].
  cbn [trimStart isBlank]. destruct (isWhitespace c) eqn:W.
  - exact IH.
  - cbn [andb]. apply String.eqb_neq, trimEnd_nonblank, W.
Qed.

(** C8.  The text of a call is its argument, or the input field when the
    argument is missing or empty.  Called with a text that is empty or
    whitespace only, or while [isLoading] holds, [sendMessage] changes
    nothing and sends nothing.  Otherwise it appends the user message with
    that text, posts the text to [/query], and appends exactly one assistant
    message: the answer of the API, or the apology when the request fails, is
    not ok or has no JSON body; the transcript grows by exactly two
    messages. *)
Theorem sendMessage_transcript (messageText : option string) (w : World) (st : State) :
  let text := match messageText with
              | Some (String c rest) => String c rest
              | Some EmptyString | None => input st
              end in
  let st' := fst (sendMessage messageText w st) in
  let sent := snd (sendMessage messageText w st) in
  if isBlank text || isLoading st
  then st' = st /\ sent = []
  else
    exists userMessage assistantMessage,
      messages st' = (messages st ++ [userMessage; assistantMessage])%list /\
      List.length (messages st') = (List.length (messages st) + 2)%nat /\
      role userMessage = user /\ content userMessage = text /\
      role assistantMessage = assistant /\
      hd_error sent
      = Some (PostQuery (apiUrl st ++ "/query") text (latitude st) (longitude st)) /\
      match query w with
      | QueryAnswer answer =>
        content assistantMessage = response answer /\
        data assistantMessage = response_data answer /\
        chart assistantMessage = response_chart answer
      | QueryFails | QueryNotOk _ | QueryNotJson =>
        content assistantMessage
        = "Sorry, I encountered an error while processing your request. Please make sure the backend API is running and accessible."
      end.
Proof.
  intros text st' sent. subst st' sent.
  assert (Et : textToSend messageText st = text)
    by (destruct messageText as [[|c r]|]; reflexivity).
  unfold sendMessage. rewrite Et, trim_blank.
  destruct (isBlank text || isLoading st); [split; reflexivity|].
  cbv zeta.
  destruct (query w) as [|code| |answer].
  1-3: do 2 eexists; cbn [fst snd messages setMessages setInput setIsLoading hd_error];
       rewrite <- app_assoc; (split; [reflexivity|]);
       (split; [rewrite length_app; reflexivity|]); repeat split.
  destruct (detect w) as [| |loc locs];
    do 2 eexists; cbn [fst snd messages setMessages setInput setIsLoading hd_error];
    rewrite <- app_assoc; (split; [reflexivity|]);
    (split; [rewrite length_app; reflexivity|]); repeat split.
Qed.

(** C8 for a question sent from an empty transcript and answered by the
    API: the transcript holds the question and the answer, and the question
    went to [/query]. *)
Lemma sendMessage_transcript_witness :
  let w := {| now := 5;
              query := QueryAnswer {| response := "About 800 mm a year.";
                                      response_data := None;
                                      response_chart := None;
                                      chart_type := None |};
              later := 9; detect := DetectFails |} in
  let st' := fst (sendMessage (Some "Rainfall in Gujarat") w emptyChat) in
  let sent := snd (sendMessage (Some "Rainfall in Gujarat") w emptyChat) in
  exists userMessage assistantMessage,
    messages st' = [userMessage; assistantMessage] /\
    List.length (messages st') = 2%nat /\
    role userMessage = user /\ content userMessage = "Rainfall in Gujarat" /\
    role assistantMessage = assistant /\
    hd_error sent
    = Some (PostQuery "https://neersetu.onrender.com/query" "Rainfall in Gujarat"
                      None None) /\
    content assistantMessage = "About 800 mm a year." /\
    data assistantMessage = None /\
    chart assistantMessage = None.
Proof.
  intros w st' sent.
  exact (sendMessage_transcript (Some "Rainfall in Gujarat") w emptyChat).
Defined.

Example sendMessage_whitespace :
  sendMessage (Some "   ")
              {| now := 5; query := QueryFails; later := 9; detect := DetectFails |}
              emptyChat
  = (emptyChat, []).
Proof. vm_compute. reflexivity. Qed.

Example sendMessage_failure :
  map content
      (messages (fst (sendMessage None
                        {| now := 5; query := QueryNotOk 502; later := 9;
                           detect := DetectFails |}
                        emptyChat)))
  = ["typed"; apology].
Proof. vm_compute. reflexivity. Qed.

End ChatPageFacts.

Module ZoomAnimationFacts.
Import Num MapVisualization InteractiveMap.

Lemma cube_monotone (a b : Q) : 0 <= a -> a <= b -> a * a * a <= b * b * b.
Proof.
  intros Ha Hab.
  assert (H1 : a * a <= b * b) by nra.
  assert (H2 : a * a * a <= b * b * a) by nra.
  assert (H3 : b * b * a <= b * b * b) by nra.
  lra.
Qed.

Lemma cube (x : Q) : x ^ 3 == x * x * x.
Proof. simpl. ring. Qed.

Lemma half (x : Q) : x / 2 == x * (1 # 2).
Proof. field. Qed.

Lemma easing_first_half (p : Q) : p < 0.5 -> easing p = 4 * p * p * p.
Proof. intro H. unfold easing. apply ltb_lt in H. now rewrite H. Qed.

Lemma easing_second_half (p : Q) :
  0.5 <= p -> easing p = 1 - ((-2 * p + 2) ^ 3) / 2.
Proof. intro H. unfold easing. apply ltb_ge in H. now rewrite H. Qed.

Lemma easing_monotone (p q : Q) :
  0 <= p -> p <= q -> q <= 1 -> easing p <= easing q.
Proof.
  intros Hp Hpq Hq.
  destruct (Qlt_le_dec p 0.5) as [P|P], (Qlt_le_dec q 0.5) as [Q'|Q'].
  - rewrite !easing_first_half by assumption.
    pose proof (cube_monotone p q Hp Hpq). lra.
  - rewrite easing_first_half, easing_second_half by assumption.
    rewrite cube, half.
    assert (Hp' : p <= 0.5) by lra.
    pose proof (cube_monotone p 0.5 Hp Hp').
    assert (H0 : 0 <= -2 * q + 2) by lra.
    assert (H1 : -2 * q + 2 <= 1) by lra.
    pose proof (cube_monotone (-2 * q + 2) 1 H0 H1). lra.
  - lra.
  - rewrite !easing_second_half by assumption.
    rewrite !cube, !half.
    assert (H0 : 0 <= -2 * q + 2) by lra.
    assert (H1 : -2 * q + 2 <= -2 * p + 2) by lra.
    pose proof (cube_monotone (-2 * q + 2) (-2 * p + 2) H0 H1). lra.
Qed.

Lemma rawProgress_le_1 (now start : Z) : rawProgress now start <= 1.
Proof. unfold rawProgress. apply Math_min_le_r. Qed.

(** Raw progress is 1 exactly from 600 ms after the recorded start on. *)
Lemma rawProgress_complete (now start : Z) :
  rawProgress now start == 1 <-> (start + 600 <= now)%Z.
Proof.
  unfold rawProgress, duration. cbv zeta.
  set (e := (now - start)%Z).
  assert (D : inject_Z e / inject_Z 600 == inject_Z e * (1 # 600)) by field.
  assert (I : (600 <= e)%Z <-> 600 <= inject_Z e).
  { rewrite (Zle_Qle 600 e). reflexivity. }
  unfold Math_min.
  destruct (Qle_bool (inject_Z e / inject_Z 600) 1) eqn:E.
  - apply Qle_bool_iff in E. rewrite D in *. split; intro H.
    + assert (H' : (600 <= e)%Z) by (apply I; lra). subst e. lia.
    + assert (H' : (600 <= e)%Z) by (subst e; lia). apply I in H'. lra.
  - assert (N : ~ inject_Z e / inject_Z 600 <= 1)
      by (rewrite <- Qle_bool_iff; congruence).
    rewrite D in N. split; intro H; [|reflexivity].
    assert (H' : (600 <= e)%Z) by (apply I; lra). subst e. lia.
Qed.

Lemma rawProgress_incomplete (now start : Z) :
  (rawProgress now start <? 1) = true <-> (now < start + 600)%Z.
Proof.
  rewrite ltb_lt. pose proof (rawProgress_le_1 now start) as L.
  pose proof (rawProgress_complete now start) as C.
  split; intro H.
  - destruct (Z_lt_le_dec now (start + 600)) as [Hlt|Hge]; [exact Hlt|].
    apply C in Hge. lra.
  - destruct (Qlt_le_dec (rawProgress now start) 1) as [Hlt|Hge]; [exact Hlt|].
    assert (E : rawProgress now start == 1) by lra.
    apply C in E. lia.
Qed.

End ZoomAnimationFacts.

Module HoverFacts.
Import Num MapVisualization InteractiveMap Invariants.
Local Open Scope Z_scope.

(** Splits on the tests met in the goal. *)
Ltac split_tests :=
  cbv beta iota zeta;
  repeat match goal with
         | |- context [match ?x with _ => _ end] =>
           lazymatch x with
           | context [match _ with _ => _ end] => fail
           | _ => destruct x eqn:?; cbv beta iota zeta
           end
         end.

Lemma sameFeature_refl (a : option GeoJsonFeature) : sameFeature a a = true.
Proof. destruct a; [apply Nat.eqb_refl | reflexivity]. Qed.

Lemma sameType_refl (a : option FeatureType) : sameType a a = true.
Proof. destruct a as [[]|]; reflexivity. Qed.

(** ** What the zoom effect leaves alone *)

Lemma zoomEffect_timeouts (before s : State) :
  timeouts (browser (zoomEffect before s)) = timeouts (browser s).
Proof. unfold zoomEffect, requestAnimationFrame, cancelAnimationFrame. split_tests; reflexivity. Qed.

Lemma zoomEffect_clock (before s : State) :
  clock (browser (zoomEffect before s)) = clock (browser s).
Proof. unfold zoomEffect, requestAnimationFrame, cancelAnimationFrame. split_tests; reflexivity. Qed.

Lemma zoomEffect_debounceTimeoutRef (before s : State) :
  debounceTimeoutRef (refs (zoomEffect before s)) = debounceTimeoutRef (refs s).
Proof. unfold zoomEffect, requestAnimationFrame, cancelAnimationFrame. split_tests; reflexivity. Qed.

Lemma zoomEffect_hoverTimeoutRef (before s : State) :
  hoverTimeoutRef (refs (zoomEffect before s)) = hoverTimeoutRef (refs s).
Proof. unfold zoomEffect, requestAnimationFrame, cancelAnimationFrame. split_tests; reflexivity. Qed.

Lemma zoomEffect_nextHandle (before s : State) :
  (nextHandle (browser s) <= nextHandle (browser (zoomEffect before s)))%nat.
Proof.
  unfold zoomEffect, requestAnimationFrame, cancelAnimationFrame. split_tests; cbn; lia.
Qed.

Lemma zoomEffect_hooks (before s : State) :
  hooks (zoomEffect before s) = hooks s.
Proof. unfold zoomEffect, requestAnimationFrame, cancelAnimationFrame. split_tests; reflexivity. Qed.

Lemma zoomEffect_data (before s : State) :
  data (zoomEffect before s) = data s.
Proof. unfold zoomEffect, requestAnimationFrame, cancelAnimationFrame. split_tests; reflexivity. Qed.

(** ** The invariant of the hover timeouts *)

Lemma HoverInvariant_mounted loc g d now : HoverInvariant [] (mounted loc g d now).
Proof. repeat split; cbn; intros; discriminate. Qed.

(** The zoom effect keeps the invariant. *)
Lemma HoverInvariant_zoomEffect (h : History) (before s : State) :
  HoverInvariant h s -> HoverInvariant h (zoomEffect before s).
Proof.
  unfold HoverInvariant, timeoutOfLatestHover.
  rewrite zoomEffect_timeouts, zoomEffect_debounceTimeoutRef, zoomEffect_hoverTimeoutRef.
  pose proof (zoomEffect_nextHandle before s) as N.
  intros (D & H & T). split; [|split].
  - intros id E. specialize (D id E). lia.
  - intros id E. specialize (H id E). lia.
  - destruct (timeouts (browser s)) as [|t [|t' l]]; [exact I| |exact T].
    destruct T as [L T]. split; [lia | exact T].
Qed.

Lemma filter_other_id (t : Timeout) (id : nat) :
  timeoutId t <> id ->
  filter (fun t' => negb (Nat.eqb (timeoutId t') id)) [t] = [t].
Proof. intro H. cbn. apply Nat.eqb_neq in H. now rewrite H. Qed.

Lemma filter_same_id (t : Timeout) :
  filter (fun t' => negb (Nat.eqb (timeoutId t') (timeoutId t))) [t] = [].
Proof. cbn. now rewrite Nat.eqb_refl. Qed.

(** Clearing the two refs of the hover leaves no timeout pending. *)
Lemma hover_timeouts_cleared (h : History) (s : State) :
  HoverInvariant h s ->
  timeouts (browser (clearTimeout (hoverTimeoutRef (refs s))
                       (clearTimeout (debounceTimeoutRef (refs s)) s))) = [].
Proof.
  intros (_ & _ & T).
  destruct (timeouts (browser s)) as [|t [|t' l]] eqn:E; [| |destruct T].
  - unfold clearTimeout.
    destruct (debounceTimeoutRef (refs s)), (hoverTimeoutRef (refs s)); cbn;
      rewrite ?E; reflexivity.
  - destruct T as [_ T]. unfold clearTimeout.
    destruct (callback t) as [f ty|f ty].
    + destruct T as (-> & _). destruct (hoverTimeoutRef (refs s)); cbn;
        rewrite E; cbn; rewrite Nat.eqb_refl; reflexivity.
    + destruct T as (-> & _). destruct (debounceTimeoutRef (refs s)) as [d|]; cbn;
        rewrite E; cbn; [destruct (Nat.eqb (timeoutId t) d); cbn|];
        rewrite ?Nat.eqb_refl; reflexivity.
Qed.

(** ** The handlers, seen from the timeouts *)

Ltac open_handlers :=
  unfold handleFeatureHoverStart, handleFeatureHoverEnd, handleReset,
         runDebounceElapsed, runDwellElapsed, runAnimate, runAnimateHover,
         takeTimeout, takeFrame, advance,
         setTimeout, clearTimeout, requestAnimationFrame, cancelAnimationFrame.

Ltac run_handlers :=
  open_handlers;
  repeat (cbn;
          match goal with
          | |- context [match ?x with _ => _ end] =>
            lazymatch x with
            | context [match _ with _ => _ end] => fail
            | _ => destruct x eqn:?
            end
          end);
  cbn.

Lemma hoverStart_timeouts (f : GeoJsonFeature) (ty : FeatureType) (s : State) :
  timeouts (browser (handleFeatureHoverStart f ty s))
  = (timeouts (browser (clearTimeout (hoverTimeoutRef (refs s))
                          (clearTimeout (debounceTimeoutRef (refs s)) s)))
     ++ [{| timeoutId := nextHandle (browser s);
            due := clock (browser s) + DEBOUNCE_DELAY;
            callback := debounceElapsed f ty |}])%list.
Proof.
  run_handlers; congruence.
Qed.

Lemma hoverStart_refs (f : GeoJsonFeature) (ty : FeatureType) (s : State) :
  debounceTimeoutRef (refs (handleFeatureHoverStart f ty s)) = Some (nextHandle (browser s)) /\
  hoverTimeoutRef (refs (handleFeatureHoverStart f ty s)) = hoverTimeoutRef (refs s) /\
  nextHandle (browser (handleFeatureHoverStart f ty s)) = S (nextHandle (browser s)) /\
  hooks (handleFeatureHoverStart f ty s) = hooks s.
Proof.
  run_handlers; repeat split; congruence.
Qed.

Lemma hoverEnd_timeouts (s : State) :
  timeouts (browser (handleFeatureHoverEnd s))
  = timeouts (browser (clearTimeout (hoverTimeoutRef (refs s))
                         (clearTimeout (debounceTimeoutRef (refs s)) s))).
Proof.
  run_handlers; congruence.
Qed.

Lemma hoverEnd_refs (s : State) :
  debounceTimeoutRef (refs (handleFeatureHoverEnd s)) = debounceTimeoutRef (refs s) /\
  hoverTimeoutRef (refs (handleFeatureHoverEnd s)) = hoverTimeoutRef (refs s) /\
  nextHandle (browser (handleFeatureHoverEnd s)) = nextHandle (browser s).
Proof.
  run_handlers; repeat split; congruence.
Qed.

Lemma reset_timeouts (s : State) :
  timeouts (browser (handleReset s))
  = timeouts (browser (clearTimeout (hoverTimeoutRef (refs s)) s)).
Proof.
  run_handlers; congruence.
Qed.

Lemma reset_refs (s : State) :
  debounceTimeoutRef (refs (handleReset s)) = debounceTimeoutRef (refs s) /\
  hoverTimeoutRef (refs (handleReset s)) = hoverTimeoutRef (refs s) /\
  nextHandle (browser (handleReset s)) = nextHandle (browser s).
Proof.
  run_handlers; repeat split; congruence.
Qed.

Lemma debounceElapsed_effect (id : nat) (f : GeoJsonFeature) (ty : FeatureType) (s : State) :
  let s' := runDebounceElapsed f ty (takeTimeout id s) in
  timeouts (browser s')
  = (filter (fun t => negb (Nat.eqb (timeoutId t) id)) (timeouts (browser s))
     ++ [{| timeoutId := S (nextHandle (browser s));
            due := clock (browser s) + HOVER_DELAY;
            callback := dwellElapsed f ty |}])%list /\
  debounceTimeoutRef (refs s') = debounceTimeoutRef (refs s) /\
  hoverTimeoutRef (refs s') = Some (S (nextHandle (browser s))) /\
  nextHandle (browser s') = S (S (nextHandle (browser s))).
Proof. repeat split. Qed.

Lemma dwellElapsed_effect (id : nat) (f : GeoJsonFeature) (ty : FeatureType) (s : State) :
  let s' := runDwellElapsed f ty (takeTimeout id s) in
  timeouts (browser s')
  = filter (fun t => negb (Nat.eqb (timeoutId t) id)) (timeouts (browser s)) /\
  debounceTimeoutRef (refs s') = debounceTimeoutRef (refs s) /\
  hoverTimeoutRef (refs s') = hoverTimeoutRef (refs s) /\
  nextHandle (browser s') = nextHandle (browser s).
Proof.
  cbv zeta. run_handlers; repeat split; congruence.
Qed.

Lemma frame_effect (id : nat) (cb : FrameCallback) (s : State) :
  let s' := match cb with
            | animate ty => runAnimate ty (takeFrame id s)
            | animateHover => runAnimateHover (takeFrame id s)
            end in
  timeouts (browser s') = timeouts (browser s) /\
  debounceTimeoutRef (refs s') = debounceTimeoutRef (refs s) /\
  hoverTimeoutRef (refs s') = hoverTimeoutRef (refs s) /\
  (nextHandle (browser s) <= nextHandle (browser s'))%nat.
Proof.
  cbv zeta. destruct cb as [[ty|]|]; run_handlers; repeat split; first [congruence | lia].
Qed.

Lemma find_singleton (t : Timeout) (id : nat) (found : Timeout) :
  find (fun t' => Nat.eqb (timeoutId t') id) [t] = Some found ->
  found = t /\ timeoutId t = id.
Proof.
  cbn. destruct (Nat.eqb (timeoutId t) id) eqn:E; [|discriminate].
  intros [= <-]. split; [reflexivity | now apply Nat.eqb_eq].
Qed.

(** A timeout that may fire is the only pending one. *)
Lemma pending_is_latest (h : History) (s : State) (id : nat) (t : Timeout) :
  HoverInvariant h s -> pendingTimeout id s = Some t ->
  timeouts (browser s) = [t] /\ timeoutId t = id /\ timeoutOfLatestHover h s t.
Proof.
  intros (_ & _ & T) P. unfold pendingTimeout in P.
  destruct (timeouts (browser s)) as [|t1 [|t2 l]]; [discriminate| |destruct T].
  apply find_singleton in P as [-> E]. auto.
Qed.

Lemma lastPointerEvent_other (t : Z) (e : Event) (h : History) :
  match e with MouseEnter _ _ | MouseLeave => False | _ => True end ->
  lastPointerEvent ((t, e) :: h) = lastPointerEvent h.
Proof. destruct e; intros []; reflexivity. Qed.

(** Every handler and callback keeps the invariant. *)
Lemma HoverInvariant_handle (h : History) (s : State) (e : Event) :
  HoverInvariant h s -> enabled s e = true ->
  HoverInvariant ((clock (browser s), e) :: h) (handle e s).
Proof.
  intros Inv En. pose proof Inv as (D & H & T).
  destruct e as [f ty| | |id|id|ms]; cbn [handle].
  - (* MouseEnter *)
    destruct (hoverStart_refs f ty s) as (Rd & Rh & Rn & _).
    unfold HoverInvariant, timeoutOfLatestHover.
    rewrite hoverStart_timeouts, (hover_timeouts_cleared h s Inv), Rd, Rh, Rn.
    cbn [app timeoutId callback due lastPointerEvent].
    split; [|split; [|split; [|split; [|split]]]].
    + intros id [= <-]. lia.
    + intros id E. specialize (H id E). lia.
    + lia.
    + reflexivity.
    + intro E. specialize (H _ E). lia.
    + eexists. split; reflexivity.
  - (* MouseLeave *)
    destruct (hoverEnd_refs s) as (Rd & Rh & Rn).
    unfold HoverInvariant.
    rewrite hoverEnd_timeouts, (hover_timeouts_cleared h s Inv), Rd, Rh, Rn.
    auto.
  - (* ClickReset *)
    destruct (reset_refs s) as (Rd & Rh & Rn).
    unfold HoverInvariant, timeoutOfLatestHover.
    rewrite reset_timeouts, Rd, Rh, Rn.
    rewrite lastPointerEvent_other by exact I.
    split; [exact D|]. split; [exact H|].
    unfold timeoutOfLatestHover in T.
    unfold clearTimeout. destruct (hoverTimeoutRef (refs s)) as [r|] eqn:Er; [|exact T].
    cbn [timeouts browser withBrowser].
    destruct (timeouts (browser s)) as [|t [|t' l]]; [exact I| |destruct T].
    destruct T as [L T].
    destruct (Nat.eq_dec (timeoutId t) r) as [<-|Ne].
    + rewrite filter_same_id. exact I.
    + rewrite filter_other_id by exact Ne. split; [exact L | exact T].
  - (* TimeoutFires *)
    cbn [enabled] in En.
    destruct (pendingTimeout id s) as [t|] eqn:P; [|discriminate].
    apply Z.leb_le in En.
    destruct (pending_is_latest h s id t Inv P) as (Et & <- & L & C).
    unfold HoverInvariant, timeoutOfLatestHover.
    rewrite lastPointerEvent_other by exact I.
    destruct (callback t) as [f ty|f ty].
    + destruct (debounceElapsed_effect (timeoutId t) f ty s) as (Rt & Rd & Rh & Rn).
      rewrite Rt, Rd, Rh, Rn, Et, filter_same_id.
      cbn [app timeoutId callback due].
      destruct C as (Cd & _ & t0 & Cl & Cdue).
      split; [|split; [|split; [|split]]].
      * intros id E. specialize (D id E). lia.
      * intros id [= <-]. lia.
      * lia.
      * reflexivity.
      * exists t0. split; [exact Cl | lia].
    + destruct (dwellElapsed_effect (timeoutId t) f ty s) as (Rt & Rd & Rh & Rn).
      rewrite Rt, Rd, Rh, Rn, Et, filter_same_id. auto.
  - (* FrameRuns *)
    cbn [enabled] in En.
    destruct (pendingFrame id s) as [fr|] eqn:P; [|discriminate].
    destruct (frame_effect id (frameCallback fr) s) as (Rt & Rd & Rh & Rn).
    cbv zeta in Rt, Rd, Rh, Rn.
    unfold HoverInvariant, timeoutOfLatestHover.
    rewrite lastPointerEvent_other by exact I.
    destruct (frameCallback fr) as [ty|]; rewrite Rt, Rd, Rh.
    all: split; [intros i E; specialize (D i E); lia|].
    all: split; [intros i E; specialize (H i E); lia|].
    all: destruct (timeouts (browser s)) as [|t [|t' l]]; [exact I| |destruct T].
    all: destruct T as [L T]; split; [lia | exact T].
  - (* TimePasses *)
    unfold HoverInvariant, timeoutOfLatestHover.
    rewrite lastPointerEvent_other by exact I. exact Inv.
Qed.

Lemma HoverInvariant_reaches loc g d now (h : History) (s : State) :
  reaches (mounted loc g d now) h s -> HoverInvariant h s.
Proof.
  induction 1 as [|h s e R IH En].
  - apply HoverInvariant_mounted.
  - unfold step. apply HoverInvariant_zoomEffect, HoverInvariant_handle; assumption.
Qed.

(** Only a dwell timeout that passes its test gives the zoom a feature. *)
Lemma zoom_set_by_dwell (s : State) (e : Event) :
  enabled s e = true ->
  match triggersZoom s e with
  | Some (f, ty) =>
    zoomedFeature (hooks (step s e))
    = {| feature := Some f; type := Some ty; progress := 0 |}
  | None =>
    feature (zoomedFeature (hooks (step s e))) = feature (zoomedFeature (hooks s)) \/
    feature (zoomedFeature (hooks (step s e))) = None
  end.
Proof.
  intro En. unfold step. rewrite zoomEffect_hooks.
  destruct e as [f ty| | |id|id|ms]; cbn [triggersZoom handle].
  - left. now destruct (hoverStart_refs f ty s) as (_ & _ & _ & ->).
  - left. run_handlers; reflexivity.
  - right. run_handlers; reflexivity.
  - destruct (pendingTimeout id s) as [[i d [f ty|f ty]]|]; cbn [callback].
    + left. reflexivity.
    + unfold runDwellElapsed.
      change (currentHoveredRef (refs (takeTimeout id s))) with (currentHoveredRef (refs s)).
      destruct (sameFeature (fst (currentHoveredRef (refs s))) (Some f));
        [reflexivity | left; reflexivity].
    + left. reflexivity.
  - destruct (pendingFrame id s) as [[i [ty|]]|]; cbn [frameCallback];
      left; run_handlers; reflexivity.
  - left. reflexivity.
Qed.

(** A zoom is triggered only by the dwell timeout of the latest hover: the
    latest pointer event is then the [MouseEnter] on that same feature, and
    it happened at least [DEBOUNCE_DELAY + HOVER_DELAY] before.  After
    [handleFeatureHoverEnd] no timeout is pending, and after the hover moved
    to another feature only the debounce of that feature is; so a hover that
    ended with [mouseleave] or moved on never zooms.  Whether the pointer is
    still on the feature when the timeout fires is another matter, which the
    session on the map of Gujarat settles. *)
Lemma hover_zooms_only_after_dwell
  (loc : Location.DetectedLocation) (g d : option GeoJsonData) (now : Z)
  (h : History) (s : State) :
  reaches (mounted loc g d now) h s ->
  (forall e f ty,
     enabled s e = true -> triggersZoom s e = Some (f, ty) ->
     zoomedFeature (hooks (step s e))
     = {| feature := Some f; type := Some ty; progress := 0 |} /\
     exists t0, lastPointerEvent h = Some (t0, MouseEnter f ty) /\
                t0 + DEBOUNCE_DELAY + HOVER_DELAY <= clock (browser s)) /\
  (forall e, enabled s e = true -> triggersZoom s e = None ->
     feature (zoomedFeature (hooks (step s e))) = feature (zoomedFeature (hooks s)) \/
     feature (zoomedFeature (hooks (step s e))) = None) /\
  match h with
  | (_, MouseLeave) :: _ => timeouts (browser s) = []
  | (t, MouseEnter f ty) :: _ =>
    exists id, timeouts (browser s)
               = [{| timeoutId := id; due := t + DEBOUNCE_DELAY;
                     callback := debounceElapsed f ty |}]
  | _ => True
  end.
Proof.
  intro R. pose proof (HoverInvariant_reaches _ _ _ _ _ _ R) as Inv.
  split; [|split].
  - intros e f ty En Tr.
    pose proof (zoom_set_by_dwell s e En) as Z. rewrite Tr in Z.
    split; [exact Z|].
    destruct e as [| | |id| |]; try discriminate.
    cbn [enabled triggersZoom] in En, Tr.
    destruct (pendingTimeout id s) as [t|] eqn:P; [|discriminate].
    apply Z.leb_le in En.
    destruct (pending_is_latest h s id t Inv P) as (_ & _ & _ & C).
    destruct t as [i due_t [f' ty'|f' ty']]; [discriminate|].
    cbn [callback due] in *.
    destruct (sameFeature _ _); [|discriminate]. injection Tr as -> ->.
    destruct C as (_ & t0 & Cl & Cd). exists t0. split; [exact Cl | lia].
  - intros e En Tr.
    pose proof (zoom_set_by_dwell s e En) as Z. rewrite Tr in Z. exact Z.
  - inversion R as [|h' s' e R' En' Eh]; subst; [exact I|].
    pose proof (HoverInvariant_reaches _ _ _ _ _ _ R') as Inv'.
    unfold step. rewrite zoomEffect_timeouts.
    destruct e as [f ty| | | | |]; try exact I; cbn [handle].
    + rewrite hoverStart_timeouts, (hover_timeouts_cleared h' s' Inv').
      eexists. reflexivity.
    + rewrite hoverEnd_timeouts. apply (hover_timeouts_cleared h' s' Inv').
Qed.

End HoverFacts.

Module ViewLevelFacts.
Import Num MapVisualization InteractiveMap Invariants HoverFacts.
Local Open Scope Z_scope.

Lemma ZoomInvariant_mounted loc g d now : ZoomInvariant (mounted loc g d now).
Proof.
  constructor; unfold isCountry, hoverType; cbn.
  - destruct (Location.Level_eqb (Location.type loc) Location.country); auto.
  - destruct (Location.type loc); cbn;
      repeat match goal with |- context [if ?b then _ else _] => destruct b end;
      discriminate.
  - constructor.
  - discriminate.
  - split; reflexivity.
  - constructor.
  - intros _ H. now destruct H.
  - discriminate.
Qed.

Lemma sameType_eq (a b : option FeatureType) : sameType a b = true -> a = b.
Proof. destruct a as [[]|], b as [[]|]; cbn; congruence. Qed.

(** ** Lists of frames *)

Lemma animateOK_hover ref cleanup zt (fr : Frame) :
  isAnimate fr = false -> animateOK ref cleanup zt fr.
Proof. unfold isAnimate, animateOK. destruct (frameCallback fr); [discriminate|auto]. Qed.

Lemma no_animate_OK ref cleanup zt (l : list Frame) :
  existsb isAnimate l = false -> Forall (animateOK ref cleanup zt) l.
Proof.
  intro H. apply Forall_forall. intros fr Hin. apply animateOK_hover.
  destruct (isAnimate fr) eqn:E; [|reflexivity].
  assert (existsb isAnimate l = true) by (apply existsb_exists; eauto). congruence.
Qed.

(** A pending frame of the zoom animation, when there is one. *)
Lemma animate_pending (l : list Frame) :
  existsb isAnimate l = true ->
  exists fr captured, In fr l /\ frameCallback fr = animate captured.
Proof.
  intro E. apply existsb_exists in E as (fr & Hin & Ha).
  unfold isAnimate in Ha. destruct (frameCallback fr) as [c|] eqn:Ec; [|discriminate].
  eauto.
Qed.

(** Cancelling the frame of [animationFrameRef] leaves no frame of the
    zoom animation. *)
Lemma cancel_removes_animate (id : nat) cleanup zt (l : list Frame) :
  Forall (animateOK (Some id) cleanup zt) l ->
  existsb isAnimate (filter (fun f => negb (Nat.eqb (frameId f) id)) l) = false.
Proof.
  intro H. destruct (existsb _ _) eqn:E; [|reflexivity].
  apply animate_pending in E as (fr & c & Hin & Ec).
  apply filter_In in Hin as [Hin Hid].
  rewrite Forall_forall in H. specialize (H fr Hin).
  unfold animateOK in H. rewrite Ec in H.
  destruct H as ([= ->] & _). rewrite Nat.eqb_refl in Hid. discriminate.
Qed.

Lemma no_cleanup_no_animate ref zt (l : list Frame) :
  Forall (animateOK ref false zt) l -> existsb isAnimate l = false.
Proof.
  intro H. destruct (existsb _ _) eqn:E; [|reflexivity].
  apply animate_pending in E as (fr & c & Hin & Ec).
  rewrite Forall_forall in H. specialize (H fr Hin).
  unfold animateOK in H. rewrite Ec in H. destruct H as (_ & [=] & _).
Qed.

Lemma untyped_no_animate ref cleanup (l : list Frame) :
  Forall (animateOK ref cleanup None) l -> existsb isAnimate l = false.
Proof.
  intro H. destruct (existsb _ _) eqn:E; [|reflexivity].
  apply animate_pending in E as (fr & c & Hin & Ec).
  rewrite Forall_forall in H. specialize (H fr Hin).
  unfold animateOK in H. rewrite Ec in H. destruct H as (_ & _ & -> & N). now destruct N.
Qed.

Lemma no_ref_no_animate cleanup zt (l : list Frame) :
  Forall (animateOK None cleanup zt) l -> existsb isAnimate l = false.
Proof.
  intro H. destruct (existsb _ _) eqn:E; [|reflexivity].
  apply animate_pending in E as (fr & c & Hin & Ec).
  rewrite Forall_forall in H. specialize (H fr Hin).
  unfold animateOK in H. rewrite Ec in H. destruct H as ([=] & _).
Qed.

Lemma framesFrom_OK (l l' : list Frame) ref cleanup zt :
  framesFrom l l' ->
  Forall (animateOK ref cleanup zt) l -> Forall (animateOK ref cleanup zt) l'.
Proof.
  intros F H. apply Forall_forall. intros fr Hin.
  destruct (F fr Hin) as [Hold|Hh]; [|now apply animateOK_hover].
  rewrite Forall_forall in H. auto.
Qed.

Lemma framesFrom_animate (l l' : list Frame) :
  framesFrom l l' -> existsb isAnimate l' = true -> existsb isAnimate l = true.
Proof.
  intros F H. apply existsb_exists in H as (fr & Hin & Ha).
  destruct (F fr Hin) as [Hold|Hh]; [|congruence].
  apply existsb_exists. eauto.
Qed.

Lemma framesFrom_no_animate (l l' : list Frame) :
  framesFrom l l' -> existsb isAnimate l = false -> existsb isAnimate l' = false.
Proof.
  intros F H. destruct (existsb isAnimate l') eqn:E; [|reflexivity].
  apply (framesFrom_animate l l' F) in E. congruence.
Qed.

(** ** The zoom effect *)

Lemma cleanup_removes_animate (s : State) zt :
  Forall (animateOK (animationFrameRef (refs s)) (zoomCleanup s) zt)
         (frames (browser s)) ->
  existsb isAnimate (framesAfterCleanup s) = false.
Proof.
  intro F. unfold framesAfterCleanup. destruct (zoomCleanup s).
  - unfold cancelAnimationFrame. destruct (animationFrameRef (refs s)) as [r|].
    + cbn. eapply cancel_removes_animate, F.
    + eapply no_ref_no_animate, F.
  - eapply no_cleanup_no_animate, F.
Qed.

(** What the zoom effect does to the frames, the ref and the flag. *)
Lemma zoomEffect_frames (before s : State) :
  let z := zoomEffect before s in
  (type (zoomedFeature (hooks s)) = type (zoomedFeature (hooks before)) /\
   animationFrameRef (refs z) = animationFrameRef (refs s) /\
   zoomCleanup z = zoomCleanup s /\
   frames (browser z) = frames (browser s)) \/
  (feature (zoomedFeature (hooks s)) <> None /\
   sameFeature (feature (zoomedFeature (hooks before)))
               (feature (zoomedFeature (hooks s))) &&
   sameType (type (zoomedFeature (hooks before)))
            (type (zoomedFeature (hooks s))) = false /\
   exists n, animationFrameRef (refs z) = Some n /\
             zoomCleanup z = true /\
             frames (browser z)
             = (framesAfterCleanup s
                ++ [{| frameId := n;
                       frameCallback := animate (type (zoomedFeature (hooks s))) |}])%list) \/
  (zoomCleanup z = false /\ frames (browser z) = framesAfterCleanup s).
Proof.
  cbv zeta. unfold zoomEffect, framesAfterCleanup.
  destruct (sameFeature _ _ && sameType _ _) eqn:Same.
  - left. apply andb_prop in Same as [_ St]. apply sameType_eq in St. auto.
  - right.
    assert (Eh : hooks (if zoomCleanup s
                        then cancelAnimationFrame (animationFrameRef (refs s)) s
                        else s) = hooks s).
    { destruct (zoomCleanup s); [|reflexivity].
      unfold cancelAnimationFrame. destruct (animationFrameRef (refs s)); reflexivity. }
    set (s2 := if zoomCleanup s
               then cancelAnimationFrame (animationFrameRef (refs s)) s else s) in *.
    clearbody s2. rewrite Eh.
    destruct (feature (zoomedFeature (hooks s))) as [f|].
    + destruct (progress (zoomedFeature (hooks s)) <? 1)%Q.
      * left. split; [discriminate|]. split; [reflexivity|].
        destruct (Z.eqb (zoomStartTimeRef (refs s2)) 0); eexists; cbn; auto.
      * right. auto.
    + right. auto.
Qed.

(** The invariant after the zoom effect, from what holds after the handler. *)
Lemma ZoomInvariant_zoomEffect (before s : State) :
  (if isCountry (data s)
   then geoJson (data s) = None /\ districtsGeoJson (data s) = None
   else allStatesGeoJson (data s) = None) ->
  viewLevel (hooks s)
  <> (if isCountry (data s) then Location.district else Location.country) ->
  Forall (fun t => capturedType t = hoverType (data s)) (timeouts (browser s)) ->
  (forall ty, type (zoomedFeature (hooks s)) = Some ty -> ty = hoverType (data s)) ->
  (type (zoomedFeature (hooks s)) = None <-> feature (zoomedFeature (hooks s)) = None) ->
  (isCountry (data s) = true -> timeouts (browser s) <> [] ->
   viewLevel (hooks s) = Location.country /\ feature (zoomedFeature (hooks s)) = None) ->
  Forall (animateOK (animationFrameRef (refs s)) (zoomCleanup s)
                    (type (zoomedFeature (hooks before))))
         (frames (browser s)) ->
  (isCountry (data s) = true ->
   existsb isAnimate (frames (browser s)) = true ->
   viewLevel (hooks s) = Location.country) ->
  (sameFeature (feature (zoomedFeature (hooks before)))
               (feature (zoomedFeature (hooks s))) &&
   sameType (type (zoomedFeature (hooks before)))
            (type (zoomedFeature (hooks s))) = false ->
   isCountry (data s) = true ->
   feature (zoomedFeature (hooks s)) <> None ->
   viewLevel (hooks s) = Location.country) ->
  ZoomInvariant (zoomEffect before s).
Proof.
  intros Id Il It Iz Ity Ih If Izm Inew.
  pose proof (cleanup_removes_animate s _ If) as Na.
  unfold ZoomInvariant.
  rewrite zoomEffect_data, zoomEffect_hooks, zoomEffect_timeouts.
  destruct (zoomEffect_frames before s)
    as [(Et & -> & -> & ->) | [(Nf & Ch & n & -> & -> & ->) | (-> & ->)]].
  - rewrite <- Et in If. constructor; auto.
  - constructor; auto.
    + apply Forall_app. split; [apply no_animate_OK, Na|].
      constructor; [|constructor]. unfold animateOK. cbn.
      repeat split. intro N. apply Ity in N. contradiction.
  - constructor; auto.
    + apply no_animate_OK, Na.
    + intros C A. congruence.
Qed.

(** ** The events that leave the zoom alone *)

Lemma hoverable_kind (s : State) (f : GeoJsonFeature) (ty : FeatureType) :
  ZoomInvariant s -> hoverable s f ty = true ->
  ty = hoverType (data s) /\
  (isCountry (data s) = true ->
   viewLevel (hooks s) = Location.country /\
   feature (zoomedFeature (hooks s)) = None).
Proof.
  intros [Id _ _ _ _ _ _ _] H. unfold hoverable in H.
  apply andb_prop in H as [_ H]. unfold hoverType.
  destruct ty.
  - apply andb_prop in H as [Hi _]. unfold isIndiaView in Hi.
    destruct (allStatesGeoJson (data s)) as [fs|] eqn:Ea; [|discriminate].
    destruct (isCountry (data s)); [|discriminate].
    split; [reflexivity|]. intros _.
    destruct (viewLevel (hooks s)); try discriminate.
    destruct (feature (zoomedFeature (hooks s))); [discriminate|]. auto.
  - apply andb_prop in H as [_ Hm]. unfold memberFeature in Hm.
    destruct (districtsGeoJson (data s)) as [fs|] eqn:Ea; [|discriminate].
    destruct (isCountry (data s)); [destruct Id; discriminate|].
    split; [reflexivity | discriminate].
Qed.

Ltac frames_from :=
  unfold framesFrom; run_handlers; intros fr Hin;
  repeat match goal with
         | H : In _ (_ ++ _) |- _ => apply in_app_or in H as [H|H]
         | H : In _ (filter _ _) |- _ => apply filter_In in H as [H _]
         | H : In _ [_] |- _ => destruct H as [<-|[]]
         end;
  auto.

Lemma hoverStart_frames f ty s :
  framesFrom (frames (browser s)) (frames (browser (handleFeatureHoverStart f ty s))).
Proof. frames_from. Qed.

Lemma hoverEnd_frames s :
  framesFrom (frames (browser s)) (frames (browser (handleFeatureHoverEnd s))).
Proof. frames_from. Qed.

Lemma reset_frames s :
  framesFrom (frames (browser s)) (frames (browser (handleReset s))).
Proof. frames_from. Qed.

Lemma debounceElapsed_frames id f ty s :
  framesFrom (frames (browser s))
             (frames (browser (runDebounceElapsed f ty (takeTimeout id s)))).
Proof. frames_from. Qed.

Lemma dwellElapsed_frames id f ty s :
  framesFrom (frames (browser s))
             (frames (browser (runDwellElapsed f ty (takeTimeout id s)))).
Proof. frames_from. Qed.

Lemma animateHover_frames id s :
  framesFrom (frames (browser s)) (frames (browser (runAnimateHover (takeFrame id s)))).
Proof. frames_from. Qed.

Ltac untouched := unfold zoomUntouched; run_handlers; repeat split; congruence.

Lemma hoverStart_untouched f ty s : zoomUntouched s (handleFeatureHoverStart f ty s).
Proof. untouched. Qed.

Lemma hoverEnd_untouched s : zoomUntouched s (handleFeatureHoverEnd s).
Proof. untouched. Qed.

Lemma debounceElapsed_untouched id f ty s :
  zoomUntouched s (runDebounceElapsed f ty (takeTimeout id s)).
Proof. untouched. Qed.

Lemma animateHover_untouched id s : zoomUntouched s (runAnimateHover (takeFrame id s)).
Proof. untouched. Qed.

Lemma advance_untouched ms s : zoomUntouched s (advance ms s).
Proof. untouched. Qed.

Lemma dwellElapsed_ignored id f ty s :
  sameFeature (fst (currentHoveredRef (refs s))) (Some f) = false ->
  zoomUntouched s (runDwellElapsed f ty (takeTimeout id s)).
Proof.
  intro G. unfold zoomUntouched, runDwellElapsed.
  change (currentHoveredRef (refs (takeTimeout id s))) with (currentHoveredRef (refs s)).
  rewrite G. repeat split.
Qed.

(** A step whose handler leaves the zoom alone keeps the invariant. *)
Lemma ZoomInvariant_untouched (s s' : State) :
  ZoomInvariant s -> zoomUntouched s s' ->
  framesFrom (frames (browser s)) (frames (browser s')) ->
  Forall (fun t => capturedType t = hoverType (data s)) (timeouts (browser s')) ->
  (isCountry (data s) = true -> timeouts (browser s') <> [] ->
   viewLevel (hooks s) = Location.country /\
   feature (zoomedFeature (hooks s)) = None) ->
  ZoomInvariant (zoomEffect s s').
Proof.
  intros [Id Il It Iz Ity If Ih Izm] (Ed & Er & Ec & Ef & Et & El) F T H.
  apply ZoomInvariant_zoomEffect; rewrite ?Ed, ?Er, ?Ec, ?Ef, ?Et, ?El; auto.
  - eapply framesFrom_OK; eassumption.
  - intros C A. apply Izm; [exact C|]. eapply framesFrom_animate; eassumption.
  - rewrite sameFeature_refl, sameType_refl. discriminate.
Qed.

(** ** The events that change the zoom or the view level *)

Lemma reset_effect (s : State) :
  let s' := handleReset s in
  data s' = data s /\
  zoomedFeature (hooks s') = {| feature := None; type := None; progress := 0 |} /\
  viewLevel (hooks s')
  = (if isCountry (data s) then Location.country else Location.state) /\
  animationFrameRef (refs s') = animationFrameRef (refs s) /\
  zoomCleanup s' = zoomCleanup s.
Proof.
  cbv zeta. unfold isCountry. run_handlers; repeat split; congruence.
Qed.

Lemma trigger_effect (id : nat) (f : GeoJsonFeature) (ty : FeatureType) (s : State) :
  sameFeature (fst (currentHoveredRef (refs s))) (Some f) = true ->
  let s' := runDwellElapsed f ty (takeTimeout id s) in
  data s' = data s /\
  zoomedFeature (hooks s') = {| feature := Some f; type := Some ty; progress := 0 |} /\
  viewLevel (hooks s') = viewLevel (hooks s) /\
  animationFrameRef (refs s') = animationFrameRef (refs s) /\
  zoomCleanup s' = zoomCleanup s /\
  frames (browser s') = frames (browser s).
Proof.
  intro G. cbv zeta. unfold runDwellElapsed.
  change (currentHoveredRef (refs (takeTimeout id s))) with (currentHoveredRef (refs s)).
  rewrite G. repeat split.
Qed.

Lemma animate_effect (id : nat) (captured : option FeatureType) (s : State) :
  let s' := runAnimate captured (takeFrame id s) in
  let raw := rawProgress (clock (browser s)) (zoomStartTimeRef (refs s)) in
  let rest := filter (fun f => negb (Nat.eqb (frameId f) id)) (frames (browser s)) in
  data s' = data s /\
  feature (zoomedFeature (hooks s')) = feature (zoomedFeature (hooks s)) /\
  type (zoomedFeature (hooks s')) = type (zoomedFeature (hooks s)) /\
  progress (zoomedFeature (hooks s')) = easing raw /\
  timeouts (browser s') = timeouts (browser s) /\
  zoomCleanup s' = zoomCleanup s /\
  if (raw <? 1)%Q
  then viewLevel (hooks s') = viewLevel (hooks s) /\
       animationFrameRef (refs s') = Some (nextHandle (browser s)) /\
       frames (browser s')
       = (rest ++ [{| frameId := nextHandle (browser s);
                      frameCallback := animate captured |}])%list
  else viewLevel (hooks s')
       = match captured with
         | Some t => levelOf t
         | None => viewLevel (hooks s)
         end /\
       animationFrameRef (refs s') = animationFrameRef (refs s) /\
       frames (browser s') = rest.
Proof.
  cbv zeta. unfold runAnimate, takeFrame, cancelAnimationFrame, requestAnimationFrame,
    Date_now.
  cbn [withBrowser browser refs clock].
  destruct (rawProgress (clock (browser s)) (zoomStartTimeRef (refs s)) <? 1)%Q;
    [|destruct captured]; repeat split.
Qed.

Lemma find_frame (id : nat) (l : list Frame) (fr : Frame) :
  find (fun f => Nat.eqb (frameId f) id) l = Some fr -> In fr l /\ frameId fr = id.
Proof.
  intro H. apply find_some in H as [Hin E]. split; [exact Hin | now apply Nat.eqb_eq].
Qed.

(** A frame of the zoom animation runs. *)
Lemma ZoomInvariant_animate (s : State) (id : nat) (fr : Frame) captured :
  ZoomInvariant s -> pendingFrame id s = Some fr ->
  frameCallback fr = animate captured ->
  ZoomInvariant (runAnimate captured (takeFrame id s)).
Proof.
  intros [Id Il It Iz Ity If Ih Izm] P Cb.
  apply find_frame in P as [Hin <-].
  pose proof If as If0. rewrite Forall_forall in If0. specialize (If0 fr Hin).
  unfold animateOK in If0. rewrite Cb in If0. destruct If0 as (Er & Ec & Ect & Cn).
  assert (Na : existsb isAnimate
                 (filter (fun f => negb (Nat.eqb (frameId f) (frameId fr)))
                         (frames (browser s))) = false).
  { rewrite Er in If. eapply cancel_removes_animate, If. }
  assert (Pending : existsb isAnimate (frames (browser s)) = true).
  { apply existsb_exists. exists fr. split; [exact Hin|]. unfold isAnimate. now rewrite Cb. }
  destruct (animate_effect (frameId fr) captured s) as (Ed & Ef & Et & _ & Eto & Ecl & R).
  cbv zeta in R. unfold ZoomInvariant. rewrite Ed, Eto, Ecl.
  destruct (rawProgress (clock (browser s)) (zoomStartTimeRef (refs s)) <? 1)%Q.
  - destruct R as (El & -> & ->).
    constructor; rewrite ?Ef, ?Et, ?El; auto.
    apply Forall_app. split; [apply no_animate_OK, Na|].
    constructor; [|constructor]. unfold animateOK. cbn. auto.
  - destruct R as (El & -> & ->).
    destruct captured as [t|]; [|now destruct Cn].
    assert (Kt : t = hoverType (data s)) by (apply Iz; congruence).
    constructor; rewrite ?Ef, ?Et, ?El; auto.
    + rewrite Kt. unfold hoverType. destruct (isCountry (data s)); discriminate.
    + apply no_animate_OK, Na.
    + intros C N. destruct (Ih C N) as [_ Fn]. apply Ity in Fn. congruence.
    + intros C A. congruence.
Qed.

Lemma zoomEffect_noop (before s : State) :
  feature (zoomedFeature (hooks s)) = feature (zoomedFeature (hooks before)) ->
  type (zoomedFeature (hooks s)) = type (zoomedFeature (hooks before)) ->
  zoomEffect before s = s.
Proof.
  intros Ef Et. unfold zoomEffect. now rewrite Ef, Et, sameFeature_refl, sameType_refl.
Qed.

Lemma Forall_filter_keep {A : Type} (P : A -> Prop) (p : A -> bool) (l : list A) :
  Forall P l -> Forall P (filter p l).
Proof.
  intro H. apply Forall_forall. intros a Ha. apply filter_In in Ha as [Ha _].
  rewrite Forall_forall in H. auto.
Qed.

Lemma clearTimeout_pending (ref : option nat) (s : State) (P : Timeout -> Prop) :
  Forall P (timeouts (browser s)) ->
  Forall P (timeouts (browser (clearTimeout ref s))) /\
  (timeouts (browser (clearTimeout ref s)) <> [] -> timeouts (browser s) <> []).
Proof.
  intro H. destruct ref as [r|]; [|split; auto]. cbn. split.
  - now apply Forall_filter_keep.
  - intros N E. rewrite E in N. now apply N.
Qed.

(** Every step keeps the invariant. *)
Lemma ZoomInvariant_step (h : History) (s : State) (e : Event) :
  HoverInvariant h s -> ZoomInvariant s -> enabled s e = true ->
  ZoomInvariant (step s e).
Proof.
  intros HI ZI En. pose proof ZI as [Id Il It Iz Ity If Ih Izm].
  unfold step. destruct e as [f ty| | |id|id|ms]; cbn [handle enabled] in *.
  - (* MouseEnter *)
    destruct (hoverable_kind s f ty ZI En) as [K Hc].
    apply ZoomInvariant_untouched;
      [exact ZI | apply hoverStart_untouched | apply hoverStart_frames
      | rewrite hoverStart_timeouts, (hover_timeouts_cleared h s HI);
        repeat constructor; exact K
      | intros C _; now apply Hc].
  - (* MouseLeave *)
    apply ZoomInvariant_untouched;
      [exact ZI | apply hoverEnd_untouched | apply hoverEnd_frames
      | rewrite hoverEnd_timeouts, (hover_timeouts_cleared h s HI); constructor
      | rewrite hoverEnd_timeouts, (hover_timeouts_cleared h s HI);
        intros _ N; now destruct N].
  - (* ClickReset *)
    destruct (reset_effect s) as (Ed & Ez & El & Er & Ec).
    destruct (clearTimeout_pending (hoverTimeoutRef (refs s)) s _ It) as [Ft Fn].
    apply ZoomInvariant_zoomEffect;
      rewrite ?Ed, ?Ez, ?El, ?Er, ?Ec, ?reset_timeouts; cbn [feature type].
    + exact Id.
    + destruct (isCountry (data s)); discriminate.
    + exact Ft.
    + discriminate.
    + split; reflexivity.
    + intros C _. rewrite C. auto.
    + eapply framesFrom_OK; [apply reset_frames | exact If].
    + intros C _. now rewrite C.
    + intros _ _ N. now destruct N.
  - (* TimeoutFires *)
    destruct (pendingTimeout id s) as [t|] eqn:P; [|discriminate].
    destruct (pending_is_latest h s id t HI P) as (Et & <- & _).
    assert (Kt : capturedType t = hoverType (data s)).
    { rewrite Et in It. now inversion It. }
    assert (Hot : isCountry (data s) = true ->
                  viewLevel (hooks s) = Location.country /\
                  feature (zoomedFeature (hooks s)) = None).
    { intro C. apply Ih; [exact C|]. rewrite Et. discriminate. }
    unfold capturedType in Kt.
    destruct (callback t) as [f ty|f ty].
    + destruct (debounceElapsed_effect (timeoutId t) f ty s) as (Rt & _).
      apply ZoomInvariant_untouched;
        [exact ZI | apply debounceElapsed_untouched | apply debounceElapsed_frames
        | rewrite Rt, Et, filter_same_id; repeat constructor; exact Kt
        | intros C _; now apply Hot].
    + destruct (dwellElapsed_effect (timeoutId t) f ty s) as (Rt & _).
      destruct (sameFeature (fst (currentHoveredRef (refs s))) (Some f)) eqn:G.
      * destruct (trigger_effect (timeoutId t) f ty s G) as (Ed & Ez & El & Er & Ec & Efr).
        apply ZoomInvariant_zoomEffect;
          rewrite ?Ed, ?Ez, ?El, ?Er, ?Ec, ?Efr, ?Rt, ?Et, ?filter_same_id;
          cbn [feature type].
        -- exact Id.
        -- exact Il.
        -- constructor.
        -- intros ty' [= <-]. exact Kt.
        -- split; discriminate.
        -- intros _ N. now destruct N.
        -- exact If.
        -- intros C _. now apply Hot.
        -- intros _ C _. now apply Hot.
      * apply ZoomInvariant_untouched;
          [exact ZI | apply dwellElapsed_ignored, G | apply dwellElapsed_frames
          | rewrite Rt, Et, filter_same_id; constructor
          | rewrite Rt, Et, filter_same_id; intros _ N; now destruct N].
  - (* FrameRuns *)
    destruct (pendingFrame id s) as [fr|] eqn:P; [|discriminate].
    destruct (frameCallback fr) as [captured|] eqn:Cb.
    + pose proof (ZoomInvariant_animate s id fr captured ZI P Cb) as ZA.
      destruct (animate_effect id captured s) as (_ & Ef & Et & _).
      rewrite zoomEffect_noop; assumption.
    + destruct (frame_effect id animateHover s) as (Rt & _). cbv zeta in Rt.
      apply ZoomInvariant_untouched;
        [exact ZI | apply animateHover_untouched | apply animateHover_frames
        | rewrite Rt; exact It | rewrite Rt; exact Ih].
  - (* TimePasses *)
    apply ZoomInvariant_untouched;
      [exact ZI | apply advance_untouched | intros fr Hin; left; exact Hin
      | exact It | exact Ih].
Qed.

Lemma ZoomInvariant_reaches loc g d now (h : History) (s : State) :
  reaches (mounted loc g d now) h s -> ZoomInvariant s.
Proof.
  induction 1 as [|h s e R IH En].
  - apply ZoomInvariant_mounted.
  - eapply ZoomInvariant_step; [eapply HoverInvariant_reaches|..]; eassumption.
Qed.

(** C6.  When a frame of the zoom animation finds raw progress at 1, the
    view level becomes the type of the zoomed feature: ['state'] for a state,
    ['district'] for a district.  The level then goes from country to state or
    from state to district (or is district already); and apart from the reset
    button, no other event changes the view level. *)
Theorem zoom_completion_sets_view_level
  (loc : Location.DetectedLocation) (g d : option GeoJsonData) (now : Z)
  (h : History) (s : State) (e : Event) :
  reaches (mounted loc g d now) h s -> enabled s e = true ->
  if completesZoom s e
  then exists ty,
         type (zoomedFeature (hooks s)) = Some ty /\
         match ty with
         | state => viewLevel (hooks (step s e)) = Location.state
         | district => viewLevel (hooks (step s e)) = Location.district
         end /\
         ((viewLevel (hooks s) = Location.country /\ ty = state) \/
          (viewLevel (hooks s) = Location.state /\ ty = district) \/
          (viewLevel (hooks s) = Location.district /\ ty = district))
  else e = ClickReset \/ viewLevel (hooks (step s e)) = viewLevel (hooks s).
Proof.
  intros R En. pose proof (ZoomInvariant_reaches _ _ _ _ _ _ R) as ZI.
  pose proof ZI as [Id Il It Iz Ity If Ih Izm].
  unfold step. rewrite zoomEffect_hooks.
  destruct e as [f ty| | |id|id|ms]; cbn [completesZoom handle enabled] in *.
  - right. apply hoverStart_untouched.
  - right. apply hoverEnd_untouched.
  - left. reflexivity.
  - right. destruct (pendingTimeout id s) as [[i due_t [f ty|f ty]]|]; cbn [callback].
    + apply debounceElapsed_untouched.
    + unfold runDwellElapsed.
      change (currentHoveredRef (refs (takeTimeout id s)))
        with (currentHoveredRef (refs s)).
      destruct (sameFeature _ _); reflexivity.
    + reflexivity.
  - destruct (pendingFrame id s) as [fr|] eqn:P; [|discriminate].
    destruct fr as [i [captured|]]; cbn [frameCallback].
    + destruct (animate_effect id captured s) as (_ & _ & _ & _ & _ & _ & Rr).
      cbv zeta in Rr. unfold Date_now.
      destruct (rawProgress (clock (browser s)) (zoomStartTimeRef (refs s)) <? 1)%Q;
        cbn [negb]; destruct Rr as (El & _ & _).
      * right. exact El.
      * apply find_frame in P as [Hin _].
        pose proof If as If0. rewrite Forall_forall in If0. specialize (If0 _ Hin).
        unfold animateOK in If0. cbn [frameCallback] in If0.
        destruct If0 as (_ & _ & Ect & Cn).
        destruct captured as [ty|]; [|now destruct Cn].
        exists ty. split; [congruence|]. split; [destruct ty; exact El|].
        assert (Kt : ty = hoverType (data s)) by (apply Iz; congruence).
        assert (Pending : existsb isAnimate (frames (browser s)) = true).
        { apply existsb_exists. eexists. split; [exact Hin | reflexivity]. }
        unfold hoverType in Kt. destruct (isCountry (data s)) eqn:C.
        -- left. split; [now apply Izm | exact Kt].
        -- right. destruct (viewLevel (hooks s)); [now destruct Il | auto | auto].
    + right. apply animateHover_untouched.
  - right. reflexivity.
Qed.

(** ** The start time of the zoom *)

(** A zoom triggered while [zoomStartTimeRef] is 0 records the time of the
    trigger. *)
Lemma zoom_start_recorded (s : State) (e : Event) f ty :
  triggersZoom s e = Some (f, ty) ->
  feature (zoomedFeature (hooks s)) = None ->
  zoomStartTimeRef (refs s) = 0 ->
  zoomStartTimeRef (refs (step s e)) = clock (browser s).
Proof.
  intros Tr Fn Z0. destruct e as [| | |id| |]; try discriminate.
  cbn [triggersZoom] in Tr. unfold step. cbn [handle].
  destruct (pendingTimeout id s) as [[i due_t [f' ty'|f' ty']]|]; try discriminate.
  cbn [callback] in *.
  destruct (sameFeature (fst (currentHoveredRef (refs s))) (Some f')) eqn:G;
    [|discriminate].
  unfold zoomEffect, runDwellElapsed.
  change (currentHoveredRef (refs (takeTimeout id s))) with (currentHoveredRef (refs s)).
  rewrite G, Fn. cbn [sameFeature andb].
  unfold takeTimeout, clearTimeout, cancelAnimationFrame, requestAnimationFrame, Date_now.
  cbn.
  destruct (zoomCleanup s), (animationFrameRef (refs s)); cbn; rewrite ?Z0; reflexivity.
Qed.

(** X24.  The start time of a zoom is recorded only when none is recorded:
    a zoom triggered while [zoomStartTimeRef] is not 0 keeps the start time
    of the zoom before, and its animation is timed from there. *)
Lemma zoom_start_kept (s : State) (e : Event) f ty :
  triggersZoom s e = Some (f, ty) ->
  zoomStartTimeRef (refs s) <> 0 ->
  zoomStartTimeRef (refs (step s e)) = zoomStartTimeRef (refs s).
Proof.
  intros Tr Z0. destruct e as [| | |id| |]; try discriminate.
  cbn [triggersZoom] in Tr. unfold step. cbn [handle].
  destruct (pendingTimeout id s) as [[i due_t [f' ty'|f' ty']]|]; try discriminate.
  cbn [callback] in *.
  destruct (sameFeature (fst (currentHoveredRef (refs s))) (Some f')) eqn:G;
    [|discriminate].
  apply Z.eqb_neq in Z0.
  unfold zoomEffect, runDwellElapsed.
  change (currentHoveredRef (refs (takeTimeout id s))) with (currentHoveredRef (refs s)).
  rewrite G.
  unfold takeTimeout, clearTimeout, cancelAnimationFrame, requestAnimationFrame, Date_now.
  cbn.
  destruct (sameFeature _ _ && sameType _ _); [reflexivity|].
  destruct (zoomCleanup s), (animationFrameRef (refs s)); cbn; rewrite ?Z0; reflexivity.
Qed.

End ViewLevelFacts.

Module SessionFacts.
Import Num MapVisualization InteractiveMap Invariants Session.
Local Open Scope Z_scope.

Ltac run_session :=
  repeat (apply reaches_step; [|vm_compute; reflexivity]); apply reaches_start.

Lemma reaches_s4 : reaches s0 h4 s4.
Proof. unfold h4, s4, s3, s2, s1. run_session. Qed.

Lemma reaches_s11 : reaches s0 h11 s11.
Proof.
  unfold h11, h4, s11, s10, s9, s8, s7, s6, s5, s4, s3, s2, s1. cbn [app]. run_session.
Qed.

Lemma reaches_s13 : reaches s0 h13 s13.
Proof. unfold h13, s13, s12. cbn [app]. do 2 (apply reaches_step; [|vm_compute; reflexivity]).
  apply reaches_s11.
Qed.

Lemma reaches_s15 : reaches s0 h15 s15.
Proof. unfold h15, s15, s14. cbn [app]. do 2 (apply reaches_step; [|vm_compute; reflexivity]).
  apply reaches_s13.
Qed.

Example session_zooms_on_kachchh :
  clock (browser s4) = 3040 /\
  triggersZoom s4 (TimeoutFires 3) = Some (kachchh, district) /\
  zoomStartTimeRef (refs s5) = 3040 /\
  viewLevel (hooks s11) = Location.state /\
  viewLevel (hooks s12) = Location.district.
Proof. vm_compute. auto. Qed.

(** The dwell on Kachchh elapses, 2040 ms after the pointer entered. *)
Lemma hover_zooms_only_after_dwell_witness :
  enabled s4 (TimeoutFires 3) = true /\
  triggersZoom s4 (TimeoutFires 3) = Some (kachchh, district) /\
  zoomedFeature (hooks (step s4 (TimeoutFires 3)))
  = {| feature := Some kachchh; type := Some district; progress := 0 |} /\
  exists t0, lastPointerEvent h4 = Some (t0, MouseEnter kachchh district) /\
             t0 + DEBOUNCE_DELAY + HOVER_DELAY <= clock (browser s4).
Proof.
  assert (En : enabled s4 (TimeoutFires 3) = true) by (vm_compute; reflexivity).
  assert (Tr : triggersZoom s4 (TimeoutFires 3) = Some (kachchh, district))
    by (vm_compute; reflexivity).
  split; [exact En|]. split; [exact Tr|].
  exact (proj1 (HoverFacts.hover_zooms_only_after_dwell _ _ _ _ h4 s4 reaches_s4)
               (TimeoutFires 3) kachchh district En Tr).
Defined.

(** C6 on the session: the frame that runs at 3640, 600 ms after the zoom
    on the district Kachchh started, completes the zoom and takes the view
    level from ['state'] to ['district']. *)
Lemma zoom_completion_sets_view_level_witness :
  enabled s11 (FrameRuns 4) = true /\
  completesZoom s11 (FrameRuns 4) = true /\
  feature (zoomedFeature (hooks s11)) = Some kachchh /\
  type (zoomedFeature (hooks s11)) = Some district /\
  viewLevel (hooks s11) = Location.state /\
  viewLevel (hooks (step s11 (FrameRuns 4))) = Location.district.
Proof.
  assert (En : enabled s11 (FrameRuns 4) = true) by (vm_compute; reflexivity).
  assert (Cz : completesZoom s11 (FrameRuns 4) = true) by (vm_compute; reflexivity).
  assert (Ty : type (zoomedFeature (hooks s11)) = Some district)
    by (vm_compute; reflexivity).
  pose proof (ViewLevelFacts.zoom_completion_sets_view_level
                _ _ _ _ h11 s11 (FrameRuns 4) reaches_s11 En) as H.
  rewrite Cz in H. destruct H as (ty & Et & Lv & _).
  rewrite Ty in Et. injection Et as <-.
  split; [exact En|]. split; [exact Cz|].
  split; [vm_compute; reflexivity|]. split; [exact Ty|].
  split; [vm_compute; reflexivity | exact Lv].
Defined.

(** C3.  The dwell timer of a hover outlives the path it was started on.
    The pointer enters Surat at 3140, while the zoom on Kachchh is animated.
    At 3640 that zoom completes, the view level becomes ['district'] and no
    path carries the hover handlers any more, so that no [mouseleave] follows:
    the pointer has been on Surat for 500 ms.  The dwell timeout is still
    pending; it fires at 5180 and starts a zoom on Surat. *)
Theorem dwell_outlives_unmounted_path :
  reaches s0 h13 s13 /\
  lastPointerEvent h13 = Some (3140, MouseEnter surat district) /\
  clock (browser s11) = 3640 /\
  hoverable s11 surat district = true /\
  viewLevel (hooks s12) = Location.district /\
  clock (browser s12) = 3640 /\
  (forall f ty, hoverable s12 f ty = false) /\
  (forall f ty, hoverable s13 f ty = false) /\
  timeouts (browser s13)
  = [{| timeoutId := 7; due := 5180; callback := dwellElapsed surat district |}] /\
  clock (browser s13) = 5180 /\
  enabled s13 (TimeoutFires 7) = true /\
  triggersZoom s13 (TimeoutFires 7) = Some (surat, district) /\
  zoomedFeature (hooks (step s13 (TimeoutFires 7)))
  = {| feature := Some surat; type := Some district; progress := 0 |}.
Proof.
  split; [exact reaches_s13|].
  assert (H12 : forall f ty, hoverable s12 f ty = false).
  { intros f ty. unfold hoverable. destruct (hasPath f), ty; vm_compute; reflexivity. }
  assert (H13 : forall f ty, hoverable s13 f ty = false).
  { intros f ty. unfold hoverable. destruct (hasPath f), ty; vm_compute; reflexivity. }
  repeat split; try assumption; vm_compute; reflexivity.
Qed.

(** C5.  The zoom on Surat starts at 5180, while Kachchh, zoomed from 3040 on,
    is still the zoomed feature: [zoomStartTimeRef] keeps 3040, and the first
    frame of the new animation, 16 ms later, finds raw progress at 1 and ends
    the animation. *)
Theorem second_zoom_reuses_start_time :
  reaches s0 h15 s15 /\
  clock (browser s13) = 5180 /\
  triggersZoom s13 (TimeoutFires 7) = Some (surat, district) /\
  progress (zoomedFeature (hooks s14)) = 0%Q /\
  zoomStartTimeRef (refs s14) = 3040 /\
  clock (browser s15) = 5196 /\
  enabled s15 (FrameRuns 8) = true /\
  completesZoom s15 (FrameRuns 8) = true /\
  (rawProgress (Date_now s15) (zoomStartTimeRef (refs s15)) == 1)%Q /\
  (progress (zoomedFeature (hooks s16)) == 1)%Q.
Proof.
  split; [exact reaches_s15|]. vm_compute. repeat split; discriminate.
Qed.

End SessionFacts.

Module BoxFacts.
Import Num MapVisualization Boxes ProjectionFacts BoundsFacts.

(** The extremes of the positions of [features] as [calculateBounds] keeps
    them. *)
Lemma calculateBounds_extremes (features : list GeoJsonFeature) (b : Bounds) :
  calculateBounds features = Some b ->
  is_min (minLon b) (map fst (allPositions features)) /\
  is_max (maxLon b) (map fst (allPositions features)) /\
  is_min (minLat b) (map snd (allPositions features)) /\
  is_max (maxLat b) (map snd (allPositions features)).
Proof.
  unfold calculateBounds. cbv zeta. rewrite features_positions.
  pose proof (tracks_fold (allPositions features) [] initial eq_refl) as T.
  cbn [app] in T.
  destruct (allPositions features) as [|p ps] eqn:E.
  - cbn. discriminate.
  - cbn [tracks] in T. destruct T as (a & b' & c & d & -> & Ha & Hb & Hc & Hd).
    cbn. intros [= <-]. cbn. auto.
Qed.

Lemma positions_member (f : GeoJsonFeature) (features : list GeoJsonFeature) :
  In f features -> incl (allPositions [f]) (allPositions features).
Proof.
  intros Hin p Hp. unfold allPositions in *. cbn [flat_map] in Hp.
  rewrite app_nil_r in Hp. apply in_flat_map. exists f. split; assumption.
Qed.



End BoxFacts.

Module TextFacts.
Import Text TextWords.
Local Open Scope string_scope.

Lemma lowerChar_idempotent (c : ascii) : lowerChar (lowerChar c) = lowerChar c.
Proof. destruct c as [[] [] [] [] [] [] [] []]; reflexivity. Qed.

Lemma lowerChar_whitespace (c : ascii) : isWhitespace (lowerChar c) = isWhitespace c.
Proof. destruct c as [[] [] [] [] [] [] [] []]; reflexivity. Qed.

Lemma lowerChar_fixes_whitespace (c : ascii) :
  isWhitespace c = true -> lowerChar c = c.
Proof. destruct c as [[] [] [] [] [] [] [] []]; intro H; try reflexivity; discriminate H. Qed.

Lemma toLowerCase_idempotent (s : string) : toLowerCase (toLowerCase s) = toLowerCase s.
Proof.
  induction s as [|c r IH]; [reflexivity|].
  cbn [toLowerCase]. now rewrite lowerChar_idempotent, IH.
Qed.

Lemma toLowerCase_trimStart (s : string) :
  toLowerCase (trimStart s) = trimStart (toLowerCase s).
Proof.
  induction s as [|c r IH]; [reflexivity|].
  cbn [trimStart toLowerCase]. rewrite lowerChar_whitespace.
  destruct (isWhitespace c); [exact IH | reflexivity].
Qed.

Lemma toLowerCase_trimEnd (s : string) :
  toLowerCase (trimEnd s) = trimEnd (toLowerCase s).
Proof.
  induction s as [|c r IH]; [reflexivity|].
  cbn [trimEnd toLowerCase]. rewrite <- IH, lowerChar_whitespace.
  destruct (trimEnd r); cbn [toLowerCase]; [destruct (isWhitespace c)|]; reflexivity.
Qed.

Lemma toLowerCase_collapseFrom (b : bool) (s : string) :
  toLowerCase (collapseFrom b s) = collapseFrom b (toLowerCase s).
Proof.
  revert b. induction s as [|c r IH]; intro b; [reflexivity|].
  cbn [collapseFrom toLowerCase]. rewrite lowerChar_whitespace.
  destruct (isWhitespace c); [destruct b|]; cbn [toLowerCase]; now rewrite IH.
Qed.

(** A normalized name is in lower case. *)
Lemma toLowerCase_normalizeLocationName (s : string) :
  toLowerCase (normalizeLocationName s) = normalizeLocationName s.
Proof.
  unfold normalizeLocationName, collapseWhitespace, trim.
  now rewrite toLowerCase_collapseFrom, toLowerCase_trimEnd, toLowerCase_trimStart,
    toLowerCase_idempotent.
Qed.

Lemma trimStart_startsClean (s : string) : startsClean (trimStart s).
Proof.
  induction s as [|c r IH]; [exact I|].
  cbn [trimStart]. destruct (isWhitespace c) eqn:W; [exact IH | exact W].
Qed.

Lemma trimEnd_startsClean (s : string) : startsClean s -> startsClean (trimEnd s).
Proof.
  destruct s as [|c r]; [trivial|]. cbn [startsClean trimEnd]. intro W.
  destruct (trimEnd r); [rewrite W|]; exact W.
Qed.

Lemma collapse_startsClean (s : string) :
  startsClean s -> startsClean (collapseFrom false s).
Proof.
  destruct s as [|c r]; [trivial|]. cbn [startsClean collapseFrom]. intro W.
  rewrite W. exact W.
Qed.

Lemma trimStart_clean (s : string) : startsClean s -> trimStart s = s.
Proof.
  destruct s as [|c r]; [trivial|]. cbn [startsClean trimStart]. now intros ->.
Qed.

Lemma trimEnd_idempotent (s : string) : trimEnd (trimEnd s) = trimEnd s.
Proof.
  induction s as [|c r IH]; [reflexivity|].
  cbn [trimEnd]. destruct (trimEnd r) as [|c' r'] eqn:E.
  - destruct (isWhitespace c) eqn:W; [reflexivity|]. cbn [trimEnd]. now rewrite W.
  - cbn [trimEnd] in *. now rewrite IH.
Qed.

Lemma collapse_empty (s : string) : collapseFrom true s = "" -> trimEnd s = "".
Proof.
  induction s as [|c r IH]; [reflexivity|].
  cbn [collapseFrom trimEnd]. destruct (isWhitespace c) eqn:W; [|discriminate].
  intro H. now rewrite (IH H).
Qed.

Lemma collapseFrom_whitespace (b : bool) (c : ascii) (s : string) :
  isWhitespace c = true ->
  collapseFrom b (String c s)
  = if b then collapseFrom true s else String " " (collapseFrom true s).
Proof. intro W. cbn [collapseFrom]. now rewrite W. Qed.

Lemma collapseFrom_letter (b : bool) (c : ascii) (s : string) :
  isWhitespace c = false ->
  collapseFrom b (String c s) = String c (collapseFrom false s).
Proof. intro W. cbn [collapseFrom]. now rewrite W. Qed.

Lemma trimEnd_cons (c : ascii) (r : string) :
  trimEnd (String c r)
  = match trimEnd r with
    | EmptyString => if isWhitespace c then EmptyString else String c EmptyString
    | r' => String c r'
    end.
Proof. reflexivity. Qed.

Lemma trimEnd_collapseFrom (b : bool) (s : string) :
  trimEnd (collapseFrom b s) = collapseFrom b (trimEnd s).
Proof.
  revert b. induction s as [|c r IH]; intro b; [reflexivity|].
  rewrite (trimEnd_cons c r).
  destruct (isWhitespace c) eqn:W.
  - rewrite (collapseFrom_whitespace b c r W).
    destruct b.
    + rewrite IH. destruct (trimEnd r) as [|c' r'] eqn:E; [reflexivity|].
      now rewrite (collapseFrom_whitespace true c _ W).
    + rewrite trimEnd_cons, IH.
      destruct (trimEnd r) as [|c' r'] eqn:E; [reflexivity|].
      rewrite (collapseFrom_whitespace false c _ W).
      destruct (collapseFrom true (String c' r')) as [|c2 r2] eqn:C; [|reflexivity].
      apply collapse_empty in C. rewrite <- E, trimEnd_idempotent, E in C. discriminate C.
  - rewrite (collapseFrom_letter b c r W), trimEnd_cons, IH.
    destruct (trimEnd r) as [|c' r'] eqn:E.
    + rewrite (collapseFrom_letter b c _ W). cbn [collapseFrom]. now rewrite W.
    + rewrite (collapseFrom_letter b c _ W).
      destruct (collapseFrom false (String c' r')); [now rewrite W | reflexivity].
Qed.

Lemma collapseFrom_idempotent (s : string) :
  forall b b', (b' = true -> b = true) ->
  collapseFrom b' (collapseFrom b s) = collapseFrom b s.
Proof.
  induction s as [|c r IH]; intros b b' Hb; [reflexivity|].
  cbn [collapseFrom]. destruct (isWhitespace c) eqn:W.
  - destruct b.
    + apply IH, Hb.
    + destruct b'; [discriminate (Hb eq_refl)|].
      cbn [collapseFrom]. change (isWhitespace " ") with true. cbv iota.
      now rewrite (IH true true).
  - cbn [collapseFrom]. rewrite W. rewrite (IH false false); [reflexivity | discriminate].
Qed.

(** X7.  [normalizeLocationName] is idempotent: a normalized name is its
    own normal form. *)
Theorem normalizeLocationName_idempotent (name : string) :
  normalizeLocationName (normalizeLocationName name) = normalizeLocationName name.
Proof.
  unfold normalizeLocationName at 1.
  rewrite toLowerCase_normalizeLocationName.
  unfold normalizeLocationName, collapseWhitespace, trim.
  set (v := trimEnd (trimStart (toLowerCase name))).
  assert (Cv : startsClean v) by apply trimEnd_startsClean, trimStart_startsClean.
  rewrite (trimStart_clean _ (collapse_startsClean _ Cv)).
  rewrite trimEnd_collapseFrom. unfold v at 1. rewrite trimEnd_idempotent. fold v.
  apply collapseFrom_idempotent. discriminate.
Qed.

End TextFacts.

Module DetectFacts.
Import Text Location GeoJson DetectLocation DetectLocationFacts DetectLocationWords.
Local Open Scope string_scope.

Lemma Map_has_keys {V : Type} (m : StringMap V) (key : string) :
  Map_has m key = existsb (String.eqb key) (map fst m).
Proof.
  unfold Map_has. induction m as [|[k v] m IH]; [reflexivity|].
  cbn. rewrite IH, (String.eqb_sym k key). reflexivity.
Qed.

Lemma existsb_snoc {A : Type} (p : A -> bool) (l : list A) (x : A) :
  existsb p (l ++ [x]) = existsb p l || p x.
Proof. rewrite existsb_app. cbn. now rewrite orb_false_r. Qed.

Lemma firstOccurrences_seen (seen seen' : list string) (found : list DetectedLocation) :
  (forall k, existsb (String.eqb k) seen = existsb (String.eqb k) seen') ->
  firstOccurrences seen found = firstOccurrences seen' found.
Proof.
  revert seen seen'. induction found as [|loc rest IH]; intros seen seen' H; [reflexivity|].
  cbn [firstOccurrences]. rewrite (H (locationKey loc)).
  destruct (existsb _ seen'); [apply IH, H|].
  f_equal. apply IH. intro k. cbn. now rewrite H.
Qed.

Lemma uniqueLocations_fold (found : list DetectedLocation)
  (m : StringMap DetectedLocation) :
  Map_values (fold_left (fun m loc =>
                           let key := locationKey loc in
                           if negb (Map_has m key) then Map_set m key loc else m)
                        found m)
  = (Map_values m ++ firstOccurrences (map fst m) found)%list.
Proof.
  revert m. induction found as [|loc rest IH]; intro m.
  - cbn. now rewrite app_nil_r.
  - cbn [fold_left firstOccurrences]. rewrite IH. rewrite <- Map_has_keys.
    destruct (Map_has m (locationKey loc)) eqn:E; cbn [negb]; [reflexivity|].
    rewrite Map_set_fresh by exact E. unfold Map_values.
    rewrite !map_app. cbn [map fst snd]. rewrite <- app_assoc. cbn [app].
    do 2 f_equal. apply firstOccurrences_seen. intro k.
    rewrite existsb_snoc. cbn. now rewrite orb_comm.
Qed.

Lemma firstOccurrences_subset (found : list DetectedLocation) :
  forall seen loc, In loc (firstOccurrences seen found) -> In loc found.
Proof.
  induction found as [|x rest IH]; intros seen loc H; [destruct H|].
  cbn [firstOccurrences] in H. destruct (existsb _ seen).
  - right. eapply IH, H.
  - destruct H as [<-|H]; [left; reflexivity | right; eapply IH, H].
Qed.

Lemma firstOccurrences_covers (found : list DetectedLocation) :
  forall seen loc, In loc found ->
    existsb (String.eqb (locationKey loc)) seen = true \/
    exists kept, In kept (firstOccurrences seen found) /\
                 locationKey kept = locationKey loc.
Proof.
  induction found as [|x rest IH]; intros seen loc H; [destruct H|].
  cbn [firstOccurrences]. destruct H as [->|H].
  - destruct (existsb _ seen) eqn:E; [left; reflexivity|].
    right. exists loc. split; [left|]; reflexivity.
  - destruct (existsb (String.eqb (locationKey x)) seen) eqn:E.
    + apply IH, H.
    + destruct (IH (locationKey x :: seen) loc H) as [S|(kept & K1 & K2)].
      * cbn [existsb] in S. apply orb_true_iff in S as [S|S].
        -- apply String.eqb_eq in S. right. exists x. split; [left; reflexivity|].
           symmetry. exact S.
        -- left. exact S.
      * right. exists kept. split; [right; exact K1 | exact K2].
Qed.

Lemma firstOccurrences_head (found : list DetectedLocation) :
  hd_error (firstOccurrences [] found) = hd_error found.
Proof. destruct found; reflexivity. Qed.

Lemma uniqueLocations_keeps_first (found : list DetectedLocation) :
  uniqueLocations found = firstOccurrences [] found /\
  (forall loc, In loc (uniqueLocations found) -> In loc found) /\
  (forall loc, In loc found ->
     exists kept, In kept (uniqueLocations found) /\ sameTypeAndName kept loc).
Proof.
  assert (E : uniqueLocations found = firstOccurrences [] found).
  { unfold uniqueLocations. now rewrite uniqueLocations_fold. }
  rewrite E. split; [reflexivity|]. split.
  - intros loc. apply firstOccurrences_subset.
  - intros loc H. destruct (firstOccurrences_covers found [] loc H) as [S|(kept & K1 & K2)].
    + discriminate S.
    + exists kept. split; [exact K1 | apply locationKey_sound, K2].
Qed.

(** X8.  The deduplication keeps, of the locations found, the first one of
    each type and normalized name, in the order in which they were found: no
    location is invented, and every location found has its type and
    normalized name among those kept. *)
Theorem uniqueLocations_first_occurrences (found : list DetectedLocation) :
  uniqueLocations found = firstOccurrences [] found /\
  (forall loc, In loc (uniqueLocations found) -> In loc found) /\
  (forall loc, In loc found ->
     exists kept, In kept (uniqueLocations found) /\ sameTypeAndName kept loc).
Proof. exact (uniqueLocations_keeps_first found). Qed.

(** ** The locations found, part by part *)

Lemma fold_push {A B : Type} (p : A -> bool) (f : A -> B) (l : list A) (acc : list B) :
  fold_left (fun acc x => if p x then (acc ++ [f x])%list else acc) l acc
  = (acc ++ map f (filter p l))%list.
Proof.
  revert acc. induction l as [|x l IH]; intro acc; cbn [fold_left filter].
  - now rewrite app_nil_r.
  - rewrite IH. destruct (p x); [|reflexivity].
    cbn [map]. now rewrite <- app_assoc.
Qed.

Lemma detectWord_fold (output : OutputFile) (text : string) (words : list string) :
  forall acc, incl words (splitWhitespace text) ->
  exists ws,
    fold_left (detectWord output (toLowerCase text)) words acc = (acc ++ ws)%list /\
    forall w1 loc w2, ws = (w1 ++ loc :: w2)%list ->
                      foundByWord output text (acc ++ w1) loc.
Proof.
  induction words as [|word words IH]; intros acc Inc.
  - exists []. split; [now rewrite app_nil_r|]. intros [|? ?] ? ? H; discriminate H.
  - cbn [fold_left].
    assert (Inc' : incl words (splitWhitespace text))
      by (intros x Hx; apply Inc; right; exact Hx).
    assert (Same : forall ws,
              (exists ws', fold_left (detectWord output (toLowerCase text)) words acc
                           = (acc ++ ws')%list /\
                 forall w1 loc w2, ws' = (w1 ++ loc :: w2)%list ->
                                   foundByWord output text (acc ++ w1) loc) -> 
              ws = acc ->
              exists ws', fold_left (detectWord output (toLowerCase text)) words ws
                          = (acc ++ ws')%list /\
                 forall w1 loc w2, ws' = (w1 ++ loc :: w2)%list ->
                                   foundByWord output text (acc ++ w1) loc).
    { intros ws H ->. exact H. }
    unfold detectWord at 2.
    destruct (2 <? String.length word)%nat eqn:Len; [|apply Same; [apply IH, Inc' | reflexivity]].
    destruct (findDistrictInGeoJson output word) as [foundName|] eqn:F;
      [|apply Same; [apply IH, Inc' | reflexivity]].
    destruct (existsb _ acc) eqn:Dup; [apply Same; [apply IH, Inc' | reflexivity]|].
    match goal with
    | |- context [fold_left _ words (acc ++ [?l])%list] => set (loc := l)
    end.
    destruct (IH (acc ++ [loc])%list Inc') as (ws & E & Hws).
    exists (loc :: ws). split; [rewrite E, <- app_assoc; reflexivity|].
    intros [|x w1] l w2 Hsplit.
    + cbn [app] in Hsplit. injection Hsplit as <- _. rewrite app_nil_r.
      unfold foundByWord. split; [reflexivity|]. split; [reflexivity|]. split.
      * exists word. split; [apply Inc; left; reflexivity|].
        split; [apply Nat.ltb_lt, Len | exact F].
      * intros l Hl Tl Eq.
        assert (T : existsb
                      (fun l0 => Level_eqb (type l0) district &&
                                 String.eqb (normalizeLocationName (name l0))
                                            (normalizeLocationName foundName)) acc = true).
        { apply existsb_exists. exists l. split; [exact Hl|].
          rewrite Tl. cbn [Level_eqb andb]. apply String.eqb_eq. exact Eq. }
        congruence.
    + cbn [app] in Hsplit. injection Hsplit as <- ->.
      specialize (Hws w1 l w2 eq_refl). rewrite <- app_assoc in Hws. exact Hws.
Qed.

Lemma detectState_fold (text : string) (sts : list string) :
  forall acc,
    NoDup (map normalizeLocationName sts) ->
    (forall l, In l acc -> type l = state ->
               ~ In (normalizeLocationName (name l)) (map normalizeLocationName sts)) ->
    fold_left (detectState (toLowerCase text)) sts acc
    = (acc ++ map (fun st => {| type := state; name := st; stateName := None |})
                  (filter (names text) sts))%list.
Proof.
  induction sts as [|st sts IH]; intros acc Nd Hacc.
  - cbn. now rewrite app_nil_r.
  - cbn [fold_left filter]. inversion Nd as [|? ? Hnotin Nd']; subst.
    unfold detectState at 2. fold (names text st).
    destruct (names text st) eqn:N.
    + assert (Fresh : existsb
                        (fun l => Level_eqb (type l) state &&
                                  String.eqb (normalizeLocationName (name l))
                                             (normalizeLocationName st)) acc = false).
      { destruct (existsb _ acc) eqn:E; [|reflexivity]. exfalso.
        apply existsb_exists in E as (l & Hl & T).
        apply andb_true_iff in T as [T1 T2]. apply String.eqb_eq in T2.
        apply (Hacc l Hl).
        - destruct (type l); [discriminate | reflexivity | discriminate].
        - left. symmetry. exact T2. }
      rewrite Fresh. cbn [negb]. rewrite IH.
      * cbn [map]. now rewrite <- app_assoc.
      * exact Nd'.
      * intros l Hl Tl Hin. apply in_app_or in Hl as [Hl|[<-|[]]].
        -- apply (Hacc l Hl Tl). right. exact Hin.
        -- cbn [name] in Hin. exact (Hnotin Hin).
    + apply IH; [exact Nd'|].
      intros l Hl Tl Hin. apply (Hacc l Hl Tl). right. exact Hin.
Qed.

Lemma states_distinct : NoDup (map normalizeLocationName INDIAN_STATES).
Proof.
  assert (E : nodup string_dec (map normalizeLocationName INDIAN_STATES)
              = map normalizeLocationName INDIAN_STATES) by (vm_compute; reflexivity).
  rewrite <- E. apply NoDup_nodup.
Qed.

Lemma detect_unfold (output : OutputFile) (text : string) :
  detect output text
  = fold_left (detectState (toLowerCase text)) INDIAN_STATES
      (fold_left (detectWord output (toLowerCase text)) (splitWhitespace text)
         (fold_left (fun found ds =>
                       if names text (fst ds)
                       then (found ++ [{| type := district; name := fst ds;
                                          stateName := Some (snd ds) |}])%list
                       else found)
                    MAJOR_DISTRICTS (countryPart text))).
Proof. reflexivity. Qed.

Lemma major_fold (text : string) (acc : list DetectedLocation) :
  fold_left (fun found ds =>
               if names text (fst ds)
               then (found ++ [{| type := district; name := fst ds;
                                  stateName := Some (snd ds) |}])%list
               else found)
            MAJOR_DISTRICTS acc
  = (acc ++ majorPart text)%list.
Proof.
  exact (fold_push (fun ds => names text (fst ds))
           (fun ds => {| type := district; name := fst ds;
                         stateName := Some (snd ds) |})
           MAJOR_DISTRICTS acc).
Qed.

(** What the country part holds. *)
Lemma countryPart_cases (text : string) :
  (countryPart text = [{| type := country; name := "India"; stateName := None |}] /\
   names text "India" = true /\ existsb (names text) INDIAN_STATES = false) \/
  (countryPart text = [] /\
   names text "India" && negb (existsb (names text) INDIAN_STATES) = false).
Proof.
  unfold countryPart.
  generalize (names text "India"), (existsb (names text) INDIAN_STATES).
  intros [] []; cbn; auto.
Qed.

Lemma countryPart_type (text : string) (x : DetectedLocation) :
  In x (countryPart text) -> type x = country.
Proof.
  destruct (countryPart_cases text) as [(-> & _)|(-> & _)]; [|intros []].
  intros [<-|[]]. reflexivity.
Qed.

Lemma majorPart_In (text : string) (x : DetectedLocation) :
  In x (majorPart text) <->
  exists d st, In (d, st) MAJOR_DISTRICTS /\ names text d = true /\
               x = {| type := district; name := d; stateName := Some st |}.
Proof.
  unfold majorPart. rewrite in_map_iff. split.
  - intros ([d st] & <- & Hin). apply filter_In in Hin as [Hin N].
    exists d, st. auto.
  - intros (d & st & Hin & N & ->). exists (d, st). split; [reflexivity|].
    apply filter_In. auto.
Qed.

Lemma statePart_In (text : string) (x : DetectedLocation) :
  In x (statePart text) <->
  exists st, In st INDIAN_STATES /\ names text st = true /\
             x = {| type := state; name := st; stateName := None |}.
Proof.
  unfold statePart. rewrite in_map_iff. split.
  - intros (st & <- & Hin). apply filter_In in Hin as [Hin N]. exists st. auto.
  - intros (st & Hin & N & ->). exists st. split; [reflexivity|].
    apply filter_In. auto.
Qed.

Lemma no_states_before (output : OutputFile) (text : string) (ws : list DetectedLocation) :
  (forall w1 loc w2, ws = (w1 ++ loc :: w2)%list ->
      foundByWord output text ((countryPart text ++ majorPart text) ++ w1) loc) ->
  forall x, In x ((countryPart text ++ majorPart text) ++ ws)%list -> type x <> state.
Proof.
  intros Hws x Hx Tx.
  apply in_app_or in Hx as [Hx|Hx]; [apply in_app_or in Hx as [Hx|Hx]|].
  - apply countryPart_type in Hx. congruence.
  - apply majorPart_In in Hx as (d & st & _ & _ & ->). discriminate Tx.
  - apply in_split in Hx as (w1 & w2 & ->).
    destruct (Hws w1 x w2 eq_refl) as (Td & _). congruence.
Qed.

Lemma detect_parts_words (output : OutputFile) (text : string) :
  exists ws,
    detect output text
    = ((countryPart text ++ majorPart text) ++ ws ++ statePart text)%list /\
    (forall w1 loc w2, ws = (w1 ++ loc :: w2)%list ->
       foundByWord output text ((countryPart text ++ majorPart text) ++ w1) loc) /\
    fold_left (detectWord output (toLowerCase text)) (splitWhitespace text)
              (countryPart text ++ majorPart text)%list
    = ((countryPart text ++ majorPart text) ++ ws)%list.
Proof.
  destruct (detectWord_fold output text (splitWhitespace text)
              (countryPart text ++ majorPart text)%list (incl_refl _))
    as (ws & E & Hws).
  exists ws. split; [|split; [exact Hws | exact E]].
  rewrite detect_unfold, major_fold, E.
  rewrite detectState_fold.
  - unfold statePart. symmetry. apply app_assoc.
  - exact states_distinct.
  - intros x Hx Tx. exfalso. exact (no_states_before output text ws Hws x Hx Tx).
Qed.

Lemma detect_parts (output : OutputFile) (text : string) :
  exists ws,
    detect output text
    = ((countryPart text ++ majorPart text) ++ ws ++ statePart text)%list /\
    forall w1 loc w2, ws = (w1 ++ loc :: w2)%list ->
      foundByWord output text ((countryPart text ++ majorPart text) ++ w1) loc.
Proof.
  destruct (detect_parts_words output text) as (ws & E & Hws & _).
  exists ws. split; assumption.
Qed.

Lemma POST_text (text : string) (output : OutputFile) :
  text <> "" ->
  status (POST (TextBody text) output) = 200%nat /\
  locations (POST (TextBody text) output) = uniqueLocations (detect output text) /\
  location (POST (TextBody text) output) = hd_error (detect output text).
Proof.
  intro H. unfold POST.
  destruct (String.eqb text "") eqn:E; [apply String.eqb_eq in E; contradiction|].
  cbv beta iota zeta delta [status locations location].
  split; [reflexivity|]. split; [reflexivity|].
  destruct (uniqueLocations_keeps_first (detect output text)) as (E1 & _).
  rewrite E1. generalize (detect output text). intros [|x l]; reflexivity.
Qed.

Lemma existsb_false_all {A : Type} (p : A -> bool) (l : list A) :
  existsb p l = false -> forall x, In x l -> p x = false.
Proof.
  intros H x Hx. destruct (p x) eqn:E; [|reflexivity].
  assert (existsb p l = true) by (apply existsb_exists; eauto). congruence.
Qed.

Lemma detect_justified (output : OutputFile) (text : string) (loc : DetectedLocation) :
  In loc (detect output text) -> justified output text loc.
Proof.
  destruct (detect_parts output text) as (ws & -> & Hws). intro H.
  apply in_app_or in H as [H|H]; [apply in_app_or in H as [H|H]|
                                  apply in_app_or in H as [H|H]].
  - destruct (countryPart_cases text) as [(E & N & S)|(E & _)]; rewrite E in H;
      [|destruct H].
    destruct H as [<-|[]]. unfold justified. cbn [type].
    split; [reflexivity|]. split; [exact N|]. exact (existsb_false_all _ _ S).
  - apply majorPart_In in H as (d & st & Hin & N & ->).
    unfold justified. cbn [type name stateName]. left. exists st. auto.
  - apply in_split in H as (w1 & w2 & ->).
    destruct (Hws w1 loc w2 eq_refl) as (T & S & W & _).
    unfold justified. rewrite T. right. auto.
  - apply statePart_In in H as (st & Hin & N & ->).
    unfold justified. cbn [type name stateName]. auto.
Qed.

(** X9.  Every location of an answer is justified by the text: India is
    reported only when the text names India and no state of the table; a
    state only when it is a state of the table that the text names; a
    district only when it is a major district that the text names, reported
    with the state of the table, or the [dtname] that [output.geojson] holds
    for a word of more than two characters. *)
Theorem POST_locations_justified (text : string) (output : OutputFile)
  (loc : DetectedLocation) :
  text <> "" -> In loc (locations (POST (TextBody text) output)) ->
  justified output text loc.
Proof.
  intros H Hin. destruct (POST_text text output H) as (_ & E & _).
  rewrite E in Hin.
  apply detect_justified.
  apply (proj1 (proj2 (uniqueLocations_keeps_first _))), Hin.
Qed.

Lemma POST_locations_justified_witness :
  justified None "Rainfall in Gujarat"
            {| type := state; name := "Gujarat"; stateName := None |}.
Proof.
  apply (POST_locations_justified "Rainfall in Gujarat" None).
  - discriminate.
  - vm_compute. left. reflexivity.
Defined.

Lemma NoDup_map_injective {A B : Type} (f : A -> B) (l : list A) (a b : A) :
  NoDup (map f l) -> In a l -> In b l -> f a = f b -> a = b.
Proof.
  induction l as [|x l IH]; intros Nd Ha Hb E; [destruct Ha|].
  cbn [map] in Nd. inversion Nd as [|? ? Hnotin Nd']; subst.
  destruct Ha as [->|Ha], Hb as [->|Hb].
  - reflexivity.
  - exfalso. apply Hnotin. rewrite E. apply in_map, Hb.
  - exfalso. apply Hnotin. rewrite <- E. apply in_map, Ha.
  - apply IH; assumption.
Qed.

Lemma majors_distinct :
  NoDup (map (fun ds => normalizeLocationName (fst ds)) MAJOR_DISTRICTS).
Proof.
  assert (E : nodup string_dec
                (map (fun ds => normalizeLocationName (fst ds)) MAJOR_DISTRICTS)
              = map (fun ds => normalizeLocationName (fst ds)) MAJOR_DISTRICTS)
    by (vm_compute; reflexivity).
  rewrite <- E. apply NoDup_nodup.
Qed.

(** A location found is kept when every location found under its key is
    that same location. *)
Lemma uniqueLocations_keeps (found : list DetectedLocation) (loc : DetectedLocation) :
  In loc found ->
  (forall other, In other found -> sameTypeAndName other loc -> other = loc) ->
  In loc (uniqueLocations found).
Proof.
  intros Hin Same.
  destruct (uniqueLocations_keeps_first found) as (_ & Sub & Cov).
  destruct (Cov loc Hin) as (kept & K & S).
  rewrite <- (Same kept (Sub kept K) S). exact K.
Qed.

Lemma detect_complete (output : OutputFile) (text : string) :
  (names text "India" = true -> existsb (names text) INDIAN_STATES = false ->
   In {| type := country; name := "India"; stateName := None |}
      (uniqueLocations (detect output text))) /\
  (forall d st, In (d, st) MAJOR_DISTRICTS -> names text d = true ->
     In {| type := district; name := d; stateName := Some st |}
        (uniqueLocations (detect output text))) /\
  (forall st, In st INDIAN_STATES -> names text st = true ->
     In {| type := state; name := st; stateName := None |}
        (uniqueLocations (detect output text))).
Proof.
  destruct (detect_parts output text) as (ws & E & Hws). rewrite E.
  split; [|split].
  - intros N S. apply uniqueLocations_keeps.
    + apply in_or_app. left. apply in_or_app. left.
      destruct (countryPart_cases text) as [(-> & _)|(_ & F)]; [left; reflexivity|].
      rewrite N, S in F. discriminate F.
    + intros other Hin [T _]. cbn [type] in T. rewrite <- E in Hin.
      apply detect_justified in Hin. unfold justified in Hin. rewrite T in Hin.
      apply Hin.
  - intros d st Hin N. 
    assert (Hmaj : In {| type := district; name := d; stateName := Some st |}
                      (majorPart text)).
    { apply majorPart_In. exists d, st. auto. }
    apply uniqueLocations_keeps.
    + apply in_or_app. left. apply in_or_app. right. exact Hmaj.
    + intros other Ho [T Nm]. cbn [type name] in T, Nm.
      apply in_app_or in Ho as [Ho|Ho]; [apply in_app_or in Ho as [Ho|Ho]|
                                         apply in_app_or in Ho as [Ho|Ho]].
      * apply countryPart_type in Ho. congruence.
      * apply majorPart_In in Ho as (d' & st' & Hin' & N' & ->). cbn [name] in Nm.
        assert (Eq : (d', st') = (d, st)).
        { apply (NoDup_map_injective (fun ds => normalizeLocationName (fst ds))
                   MAJOR_DISTRICTS); [exact majors_distinct | assumption..]. }
        injection Eq as -> ->. reflexivity.
      * exfalso. apply in_split in Ho as (w1 & w2 & ->).
        destruct (Hws w1 other w2 eq_refl) as (_ & _ & _ & Fresh).
        apply (Fresh {| type := district; name := d; stateName := Some st |}).
        -- apply in_or_app. left. apply in_or_app. right. exact Hmaj.
        -- reflexivity.
        -- cbn [name]. symmetry. exact Nm.
      * apply statePart_In in Ho as (st' & _ & _ & ->). discriminate T.
  - intros st Hin N. apply uniqueLocations_keeps.
    + apply in_or_app. right. apply in_or_app. right.
      apply statePart_In. exists st. auto.
    + intros other Ho [T Nm]. cbn [type name] in T, Nm. rewrite <- E in Ho.
      apply detect_justified in Ho. unfold justified in Ho. rewrite T in Ho.
      destruct Ho as (S & Hin' & N'). destruct other as [ty nm sn].
      cbn [type name stateName] in *. subst ty sn. f_equal.
      apply (NoDup_map_injective normalizeLocationName INDIAN_STATES);
        [exact states_distinct | assumption..].
Qed.

(** X10.  Every state of the table and every major district that the text
    names is reported, the district with the state the table gives; India is
    reported when the text names India and no state. *)
Theorem POST_reports_named_places (text : string) (output : OutputFile) :
  text <> "" ->
  (names text "India" = true -> existsb (names text) INDIAN_STATES = false ->
   In {| type := country; name := "India"; stateName := None |}
      (locations (POST (TextBody text) output))) /\
  (forall d st, In (d, st) MAJOR_DISTRICTS -> names text d = true ->
     In {| type := district; name := d; stateName := Some st |}
        (locations (POST (TextBody text) output))) /\
  (forall st, In st INDIAN_STATES -> names text st = true ->
     In {| type := state; name := st; stateName := None |}
        (locations (POST (TextBody text) output))).
Proof.
  intro H. destruct (POST_text text output H) as (_ & E & _). rewrite E.
  apply detect_complete.
Qed.

Lemma POST_reports_named_places_witness :
  In {| type := district; name := "Surat"; stateName := Some "Gujarat" |}
     (locations (POST (TextBody "Wells of Surat in Gujarat") None)) /\
  In {| type := state; name := "Gujarat"; stateName := None |}
     (locations (POST (TextBody "Wells of Surat in Gujarat") None)).
Proof.
  assert (H : "Wells of Surat in Gujarat" <> "") by discriminate.
  split.
  - apply (proj1 (proj2 (POST_reports_named_places _ None H)) "Surat" "Gujarat").
    + vm_compute. tauto.
    + vm_compute. reflexivity.
  - apply (proj2 (proj2 (POST_reports_named_places _ None H)) "Gujarat").
    + vm_compute. tauto.
    + vm_compute. reflexivity.
Defined.

Lemma hd_map_filter {A B : Type} (p : A -> bool) (f : A -> B) (l : list A) :
  hd_error (map f (filter p l)) = option_map f (find p l).
Proof.
  induction l as [|x l IH]; [reflexivity|].
  cbn [filter find]. destruct (p x); [reflexivity | exact IH].
Qed.

Lemma filter_nil_find {A : Type} (p : A -> bool) (l : list A) :
  filter p l = [] -> forall x, In x l -> p x = false.
Proof.
  intros H x Hx. destruct (p x) eqn:E; [|reflexivity].
  assert (In x (filter p l)) by (apply filter_In; auto).
  rewrite H in *. contradiction.
Qed.

(** A word that [output.geojson] knows leaves a district among the
    locations found. *)
Lemma detectWord_finds (output : OutputFile) (nt : string) (words : list string) :
  forall acc word found,
    In word words -> (2 < String.length word)%nat ->
    findDistrictInGeoJson output word = Some found ->
    exists loc, In loc (fold_left (detectWord output nt) words acc) /\
                type loc = district.
Proof.
  assert (Keeps : forall ws acc loc,
            In loc acc -> In loc (fold_left (detectWord output nt) ws acc)).
  { induction ws as [|w ws IH]; intros acc loc H; [exact H|].
    cbn [fold_left]. apply IH. unfold detectWord.
    destruct (2 <? String.length w)%nat; [|exact H].
    destruct (findDistrictInGeoJson output w); [|exact H].
    destruct (existsb _ acc); [exact H|]. apply in_or_app. left. exact H. }
  induction words as [|w words IH]; intros acc word found Hin Len F; [destruct Hin|].
  cbn [fold_left]. destruct Hin as [->|Hin]; [|eapply IH; eassumption].
  unfold detectWord at 2. apply Nat.ltb_lt in Len. rewrite Len, F.
  destruct (existsb _ acc) eqn:Dup.
  - apply existsb_exists in Dup as (l & Hl & T).
    apply andb_true_iff in T as [T _].
    exists l. split; [apply Keeps, Hl|].
    destruct (type l); [discriminate | discriminate | reflexivity].
  - eexists. split; [apply Keeps, in_or_app; right; left; reflexivity | reflexivity].
Qed.

Lemma majorPart_type (text : string) (x : DetectedLocation) :
  In x (majorPart text) -> type x = district.
Proof. intro H. apply majorPart_In in H as (d & st & _ & _ & ->). reflexivity. Qed.

(** The head of the locations found is a state only when no country and no
    district was found. *)
Lemma head_is_state (cp mp ws sp : list DetectedLocation) (loc : DetectedLocation) :
  (forall x, In x cp -> type x = country) ->
  (forall x, In x mp -> type x = district) ->
  (forall x, In x ws -> type x = district) ->
  hd_error ((cp ++ mp) ++ ws ++ sp)%list = Some loc -> type loc = state ->
  cp = [] /\ mp = [] /\ ws = [] /\ hd_error sp = Some loc.
Proof.
  intros Hc Hm Hw Hd T.
  destruct cp as [|c cp].
  - destruct mp as [|m mp].
    + destruct ws as [|w ws]; [auto|].
      cbn in Hd. injection Hd as <-.
      specialize (Hw w (or_introl eq_refl)). congruence.
    + cbn in Hd. injection Hd as <-.
      specialize (Hm m (or_introl eq_refl)). congruence.
  - cbn in Hd. injection Hd as <-.
    specialize (Hc c (or_introl eq_refl)). congruence.
Qed.

Lemma words_unknown (output : OutputFile) (nt : string) (words : list string)
  (acc ws : list DetectedLocation) :
  fold_left (detectWord output nt) words acc = (acc ++ ws)%list ->
  acc = [] -> ws = [] ->
  forall word, In word words -> (2 < String.length word)%nat ->
               findDistrictInGeoJson output word = None.
Proof.
  intros E -> -> word Hin Len.
  destruct (findDistrictInGeoJson output word) as [found|] eqn:F; [|reflexivity].
  destruct (detectWord_finds output nt words [] word found Hin Len F) as (l & Hl & _).
  rewrite E in Hl. destruct Hl.
Qed.

Lemma statePart_unfold (text : string) :
  statePart text
  = map (fun st => {| type := state; name := st; stateName := None |})
        (filter (names text) INDIAN_STATES).
Proof. reflexivity. Qed.

Lemma majorPart_unfold (text : string) :
  majorPart text
  = map (fun ds => {| type := district; name := fst ds; stateName := Some (snd ds) |})
        (filter (fun ds => names text (fst ds)) MAJOR_DISTRICTS).
Proof. reflexivity. Qed.

Lemma head_of_states (p : string -> bool) (sts : list string) (loc : DetectedLocation) :
  hd_error (map (fun st => {| type := state; name := st; stateName := None |})
                (filter p sts)) = Some loc ->
  find p sts = Some (name loc).
Proof.
  rewrite hd_map_filter. destruct (find p sts) as [st|]; [|discriminate].
  cbn [option_map]. intros [= <-]. reflexivity.
Qed.

(** X11.  The primary location follows the order of detection, not the
    order of the text: India when the text names India and no state;
    otherwise the first major district of the table that the text names; a
    state only when the text names no major district and no word of more than
    two characters is a district of [output.geojson], and then the first
    state of the table that the text names. *)
Theorem POST_primary_location (text : string) (output : OutputFile) :
  text <> "" ->
  (names text "India" = true -> existsb (names text) INDIAN_STATES = false ->
   location (POST (TextBody text) output)
   = Some {| type := country; name := "India"; stateName := None |}) /\
  (forall d st,
     names text "India" && negb (existsb (names text) INDIAN_STATES) = false ->
     find (fun ds => names text (fst ds)) MAJOR_DISTRICTS = Some (d, st) ->
     location (POST (TextBody text) output)
     = Some {| type := district; name := d; stateName := Some st |}) /\
  (forall loc,
     location (POST (TextBody text) output) = Some loc -> type loc = state ->
     find (names text) INDIAN_STATES = Some (name loc) /\
     (forall d st, In (d, st) MAJOR_DISTRICTS -> names text d = false) /\
     (forall word, In word (splitWhitespace text) -> (2 < String.length word)%nat ->
                   findDistrictInGeoJson output word = None)).
Proof.
  intro H. destruct (POST_text text output H) as (_ & _ & E). rewrite E.
  split; [|split].
  - intros N S. destruct (detect_parts output text) as (ws & -> & _).
    destruct (countryPart_cases text) as [(-> & _)|(_ & F)]; [reflexivity|].
    rewrite N, S in F. discriminate F.
  - intros d st C F. destruct (detect_parts output text) as (ws & -> & _).
    destruct (countryPart_cases text) as [(_ & N & S)|(-> & _)].
    + rewrite N, S in C. discriminate C.
    + cbn [app].
      assert (Hd : hd_error (majorPart text)
                   = Some {| type := district; name := d; stateName := Some st |}).
      { unfold majorPart. rewrite hd_map_filter, F. reflexivity. }
      destruct (majorPart text) as [|x l]; [discriminate Hd | exact Hd].
  - intros loc Hd T.
    destruct (detect_parts_words output text) as (ws & P & Hws & Ew). rewrite P in Hd.
    assert (Tw : forall x, In x ws -> type x = district).
    { intros x Hx. apply in_split in Hx as (w1 & w2 & Es).
      exact (proj1 (Hws w1 x w2 Es)). }
    destruct (head_is_state _ _ _ _ loc (countryPart_type text)
                (majorPart_type text) Tw Hd T) as (Ec & Em & Ews & Hs).
    split; [|split].
    + rewrite statePart_unfold in Hs. apply head_of_states, Hs.
    + intros d st Hin. rewrite majorPart_unfold in Em.
      apply map_eq_nil in Em.
      exact (filter_nil_find (fun ds => names text (fst ds)) MAJOR_DISTRICTS Em
               (d, st) Hin).
    + apply (words_unknown output (toLowerCase text) (splitWhitespace text) _ _ Ew);
        [rewrite Ec, Em; reflexivity | exact Ews].
Qed.

Lemma POST_primary_location_witness :
  location (POST (TextBody "Wells of Pune and Surat") None)
  = Some {| type := district; name := "Surat"; stateName := Some "Gujarat" |}.
Proof.
  assert (H : "Wells of Pune and Surat" <> "") by discriminate.
  apply (proj1 (proj2 (POST_primary_location _ None H)) "Surat" "Gujarat").
  - vm_compute. reflexivity.
  - vm_compute. reflexivity.
Defined.

(** The answer has status 200 exactly when the body holds a text that is
    not empty, and status 500 exactly when the body cannot be read; every
    other answer has no location at all. *)
Lemma POST_status (body : Body) (output : OutputFile) :
  (status (POST body output) = 200%nat <->
   exists text, body = TextBody text /\ text <> "") /\
  (status (POST body output) = 500%nat <-> body = InvalidBody) /\
  (status (POST body output) <> 200%nat ->
   status (POST body output) = 400%nat \/ status (POST body output) = 500%nat) /\
  (status (POST body output) <> 200%nat ->
   location (POST body output) = None /\ locations (POST body output) = []).
Proof.
  destruct body as [| |text].
  - cbv beta iota delta [POST status location locations].
    repeat split; try discriminate; auto.
    intros (text & E & _). discriminate E.
  - cbv beta iota delta [POST status location locations].
    repeat split; try discriminate; auto.
    intros (text & E & _). discriminate E.
  - destruct (string_dec text "") as [->|N].
    + cbv beta iota delta [POST status location locations]. cbn [String.eqb].
      repeat split; try discriminate; auto.
      intros (text & E & Ne). injection E as <-. contradiction.
    + destruct (POST_text text output N) as (S & _ & _).
      rewrite S. repeat split; try discriminate; try contradiction.
      exists text. auto.
Qed.

End DetectFacts.

Module GeoJsonRouteCases.
Import Num Text GeoJson GeoJsonRoute GeoJsonRouteWords GeoJsonRouteFacts.
Local Open Scope string_scope.
Local Open Scope Q_scope.

Lemma matchingCollection_features (nameOf : Feature -> string) (normalized : string)
  (body : Json) (doc : Document) :
  matchingCollection nameOf normalized body = Some doc ->
  exists f fs, doc = FeatureCollection (f :: fs).
Proof.
  unfold matchingCollection.
  destruct body as [|[[[fs|]]|]]; try discriminate.
  destruct (filter _ fs) as [|f l]; [discriminate|].
  intros [= <-]. eauto.
Qed.

Lemma districtsOfState_features (doc : Document) (output : FileRead) (ds : Document) :
  districtsOfState doc output = Some ds -> exists f fs, ds = FeatureCollection (f :: fs).
Proof.
  unfold districtsOfState.
  destruct output as [[|[[[[|d l]|]]|]]|]; try discriminate.
  destruct (features doc); [|discriminate].
  destruct (filter _ (d :: l)) as [|f l']; [discriminate|].
  intros [= <-]. eauto.
Qed.

Ltac split_GET :=
  repeat match goal with
         | |- context [match ?o with _ => _ end] =>
           lazymatch o with
           | GET _ _ => fail
           | _ => destruct o eqn:?
           end
         end.

(** The answers of [GET] to a request that is not the one for all states. *)
Lemma GET_cases (request : Request) (env : Environment) :
  wantsAllStates request = false ->
  (truthy (state request) = None /\ truthy (district request) = None /\
   GET request env = errorResponse 400 "State or district name is required") \/
  ((truthy (state request) <> None \/ truthy (district request) <> None) /\
   (GET request env = errorResponse 500 "Internal server error" \/
    GET request env = errorResponse 404 "Location outline not found" \/
    exists doc, 
      GET request env
      = {| status := 200; geoJson := Some doc;
           districtsGeoJson :=
             match truthy (state request), truthy (district request) with
             | Some _, None => districtsOfState doc (outputGeojson env)
             | _, _ => None
             end;
           error := None |})).
Proof.
  intro W. unfold GET. fold (wantsAllStates request). rewrite W.
  destruct (truthy (state request)) as [s|], (truthy (district request)) as [d|];
    cbv beta iota zeta.
  4: { left. auto. }
  all: right; split; [first [left; discriminate | right; discriminate]|].
  all: split_GET; subst; auto; right; right; eexists; reflexivity.
Qed.

Lemma GET_all_states (request : Request) (env : Environment) :
  wantsAllStates request = true ->
  GET request env = errorResponse 500 "Failed to load India map data" \/
  exists doc, GET request env
              = {| status := 200; geoJson := doc; districtsGeoJson := None;
                   error := None |}.
Proof.
  intro W. unfold GET. fold (wantsAllStates request). rewrite W.
  destruct (fetchStates env) as [| |[|doc]]; eauto.
Qed.

(** X13.  The answers of [GET] by status: 200 exactly when there is no
    error message; 400 exactly when the request is not the one for all states
    and names neither a state nor a district; otherwise 404 or 500; an
    answer with an error carries no outline and no districts, and an answer
    without one, to a request for a state or a district, carries an
    outline. *)
Theorem GET_statuses (request : Request) (env : Environment) :
  (status (GET request env) = 200%nat <-> error (GET request env) = None) /\
  (status (GET request env) = 400%nat <->
   wantsAllStates request = false /\
   truthy (state request) = None /\ truthy (district request) = None) /\
  (status (GET request env) <> 200%nat ->
   (status (GET request env) = 400%nat \/ status (GET request env) = 404%nat \/
    status (GET request env) = 500%nat) /\
   geoJson (GET request env) = None /\ districtsGeoJson (GET request env) = None) /\
  (status (GET request env) = 200%nat -> wantsAllStates request = false ->
   geoJson (GET request env) <> None).
Proof.
  destruct (wantsAllStates request) eqn:W.
  - destruct (GET_all_states request env W) as [-> | (doc & ->)];
      cbn [errorResponse status error geoJson districtsGeoJson];
      repeat split; try discriminate; try tauto; intros [? ?]; discriminate.
  - destruct (GET_cases request env W)
      as [(S & D & ->) | (N & [-> | [-> | (doc & ->)]])];
      cbn [errorResponse status error geoJson districtsGeoJson];
      repeat split; try discriminate; try tauto;
      intros (_ & S & D); destruct N as [N|N]; contradiction.
Qed.

(** X14.  Districts come only with the outline of a state: an answer that
    carries [districtsGeoJson] has status 200 and an outline, answers a
    request that names a state and no district, and the collection is not
    empty. *)
Theorem GET_districts_only_with_state (request : Request) (env : Environment) :
  match districtsGeoJson (GET request env) with
  | None => True
  | Some ds =>
    status (GET request env) = 200%nat /\
    wantsAllStates request = false /\
    truthy (state request) <> None /\ truthy (district request) = None /\
    geoJson (GET request env) <> None /\
    exists f fs, ds = FeatureCollection (f :: fs)
  end.
Proof.
  destruct (wantsAllStates request) eqn:W.
  - destruct (GET_all_states request env W) as [-> | (doc & ->)]; exact I.
  - destruct (GET_cases request env W)
      as [(S & D & ->) | (N & [-> | [-> | (doc & ->)]])]; try exact I.
    cbn [status geoJson districtsGeoJson].
    destruct (truthy (state request)) as [s|], (truthy (district request)) as [d|];
      try exact I.
    destruct (districtsOfState doc (outputGeojson env)) as [ds|] eqn:E; [|exact I].
    repeat split; try discriminate.
    eapply districtsOfState_features, E.
Qed.

(** X15.  A request for a district that has no file of its own is answered
    from [output.geojson]: the outline holds, in the order of the file, every
    feature whose name ([dtname], else [NAME_2], else [DISTRICT], else
    [District]) has the normalized form of the name asked for, with no
    districts beside it; when there is none and no state is named, the answer
    is 404. *)
Theorem GET_district_lookup (request : Request) (env : Environment) (d : string)
  (out : list Feature) :
  wantsAllStates request = false ->
  truthy (district request) = Some d ->
  localDistrict env d = None ->
  outputGeojson env = Some (Value (Some {| features := Some out |})) ->
  match filter (fun feature =>
                  String.eqb (normalizeLocationName (districtFeatureName feature))
                             (normalizeLocationName d)) out with
  | [] =>
    truthy (state request) = None ->
    GET request env = errorResponse 404 "Location outline not found"
  | matching =>
    GET request env
    = {| status := 200; geoJson := Some (FeatureCollection matching);
         districtsGeoJson := None; error := None |}
  end.
Proof.
  intros W D L O. unfold GET. fold (wantsAllStates request).
  rewrite W, D. 
  destruct (truthy (state request)) as [s|]; cbv beta iota zeta;
    rewrite L, O; cbv beta iota zeta; unfold matchingCollection;
    destruct (filter _ out) as [|f fs]; try reflexivity.
  discriminate.
Qed.

Lemma GET_district_lookup_witness :
  let surat := {| properties := [("dtname", "Surat")]; geometry := None |} in
  let pune := {| properties := [("NAME_2", "Pune")]; geometry := None |} in
  GET {| state := None; district := Some " SURAT "; allstates := None |}
      {| fetchStates := FetchFails; localState := fun _ => None;
         localDistrict := fun _ => None;
         outputGeojson := Some (Value (Some {| features := Some [pune; surat] |})) |}
  = {| status := 200; geoJson := Some (FeatureCollection [surat]);
       districtsGeoJson := None; error := None |}.
Proof.
  intros surat pune.
  apply (GET_district_lookup
           {| state := None; district := Some " SURAT "; allstates := None |}
           {| fetchStates := FetchFails; localState := fun _ => None;
              localDistrict := fun _ => None;
              outputGeojson := Some (Value (Some {| features := Some [pune; surat] |})) |}
           " SURAT " [pune; surat]); reflexivity.
Defined.

End GeoJsonRouteCases.

Module PointInPolygonFacts.
Import Num Text GeoJson GeoJsonRoute GeoJsonRouteFacts.
Local Open Scope Q_scope.

Lemma ltb_compat (a a' b b' : Q) : a == a' -> b == b' -> (a <? b) = (a' <? b').
Proof.
  intros Ha Hb. destruct (a' <? b') eqn:E.
  - apply ltb_lt. apply ltb_lt in E. lra.
  - apply ltb_ge. apply ltb_ge in E. lra.
Qed.

(** The test of an edge between two vertices of the same latitude fails. *)
Lemma intersect_level (x y xi xj yi : Q) (ti tj : list Q) :
  intersect x y (xi :: yi :: ti) (xj :: yi :: tj) = false.
Proof.
  unfold intersect. destruct (yi >? y); reflexivity.
Qed.

(** The test of a vertical edge at longitude [x0]. *)
Lemma intersect_vertical (x y x0 yi yj : Q) (ti tj : list Q) :
  intersect x y (x0 :: yi :: ti) (x0 :: yj :: tj)
  = negb (Bool.eqb (yi >? y) (yj >? y)) && (x <? x0).
Proof.
  unfold intersect. f_equal. apply ltb_compat; [reflexivity|].
  unfold Qdiv. ring.
Qed.



(** ** Closed rings *)

Lemma intersect_same (x y : Q) (v : Position) : intersect x y v v = false.
Proof.
  unfold intersect. destruct v as [|xi [|yi t]]; try reflexivity.
  destruct (yi >? y); reflexivity.
Qed.

Lemma edgeCrossesRay_closed (point : Q * Q) (v0 : Position) (rest : Ring) (i : nat) :
  (0 < i < S (List.length rest))%nat ->
  edgeCrossesRay point ((v0 :: rest) ++ [v0]) i = edgeCrossesRay point (v0 :: rest) i.
Proof.
  intros [H0 Hn]. unfold edgeCrossesRay.
  destruct i as [|i]; [lia|]. cbn [Nat.eqb Nat.sub]. rewrite Nat.sub_0_r.
  rewrite !app_nth1 by (cbn [List.length]; lia). reflexivity.
Qed.

Lemma nth_closing (v0 : Position) (rest : Ring) :
  nth (S (List.length rest)) ((v0 :: rest) ++ [v0]) [] = v0.
Proof.
  rewrite (app_nth2 (v0 :: rest) [v0] []) by (cbn [List.length]; lia).
  cbn [List.length]. rewrite Nat.sub_diag. reflexivity.
Qed.

Lemma nth_last_closed (v0 : Position) (rest : Ring) :
  nth (List.length rest) ((v0 :: rest) ++ [v0]) [] = nth (List.length rest) (v0 :: rest) [].
Proof. apply app_nth1. cbn [List.length]. lia. Qed.

Lemma edgeCrossesRay_closing (point : Q * Q) (v0 : Position) (rest : Ring) :
  edgeCrossesRay point ((v0 :: rest) ++ [v0]) (S (List.length rest))
  = edgeCrossesRay point (v0 :: rest) 0.
Proof.
  unfold edgeCrossesRay. cbn [Nat.eqb Nat.sub List.length]. rewrite !Nat.sub_0_r.
  rewrite nth_closing, nth_last_closed. reflexivity.
Qed.

Lemma edgeCrossesRay_first_closed (point : Q * Q) (v0 : Position) (rest : Ring) :
  edgeCrossesRay point ((v0 :: rest) ++ [v0]) 0 = false.
Proof.
  unfold edgeCrossesRay. cbn [Nat.eqb]. rewrite length_app. cbn [List.length].
  replace (S (List.length rest) + 1 - 1)%nat with (S (List.length rest)) by lia.
  rewrite nth_closing. cbn [nth app]. apply intersect_same.
Qed.

(** X17.  A ring gives the same answer with or without its closing vertex,
    the repetition of the first vertex that GeoJSON asks for at the end. *)
Theorem isPointInPolygon_closing_vertex (point : Q * Q) (v0 : Position) (rest : Ring) :
  isPointInPolygon point ((v0 :: rest) ++ [v0]) = isPointInPolygon point (v0 :: rest).
Proof.
  rewrite !isPointInPolygon_evenOdd. unfold evenOddInside.
  rewrite length_app. cbn [List.length]. rewrite Nat.add_1_r.
  rewrite (seq_S (S (List.length rest)) 0). cbn [Nat.add].
  rewrite filter_app, length_app.
  change (seq 0 (S (List.length rest))) with (0%nat :: seq 1 (List.length rest)).
  cbn [filter]. rewrite edgeCrossesRay_first_closed, edgeCrossesRay_closing.
  rewrite (filter_ext_in (edgeCrossesRay point ((v0 :: rest) ++ [v0]))
                         (edgeCrossesRay point (v0 :: rest))
                         (seq 1 (List.length rest))).
  - destruct (edgeCrossesRay point (v0 :: rest) 0); cbn [List.length];
      [rewrite Nat.add_1_r | rewrite Nat.add_0_r]; reflexivity.
  - intros i Hi. apply in_seq in Hi. apply edgeCrossesRay_closed. lia.
Qed.

End PointInPolygonFacts.

Module RangeFacts.
Import Num MapVisualization InteractiveMap Invariants MapInvariants.
Import ZoomAnimationFacts HoverFacts.
Local Open Scope Z_scope.

Lemma easing_range (p : Q) : (0 <= p <= 1 -> 0 <= easing p <= 1)%Q.
Proof.
  intros [P0 P1].
  destruct (Qlt_le_dec p 0.5) as [H|H].
  - rewrite easing_first_half by exact H.
    pose proof (cube_monotone 0 p (Qle_refl 0) P0).
    assert (Hh : (p <= 0.5)%Q) by lra.
    pose proof (cube_monotone p 0.5 P0 Hh). lra.
  - rewrite easing_second_half by exact H. rewrite cube, half.
    assert (H0 : (0 <= -2 * p + 2)%Q) by lra.
    assert (H1 : (-2 * p + 2 <= 1)%Q) by lra.
    pose proof (cube_monotone 0 (-2 * p + 2) (Qle_refl 0) H0).
    pose proof (cube_monotone (-2 * p + 2) 1 H0 H1). lra.
Qed.

Lemma fraction_range (elapsed total : Z) :
  0 <= elapsed -> 0 < total ->
  (0 <= Math_min (inject_Z elapsed / inject_Z total) 1 <= 1)%Q.
Proof.
  intros He Ht. split; [|apply Math_min_le_r].
  assert (P : (0 <= inject_Z elapsed / inject_Z total)%Q).
  { apply Qle_shift_div_l.
    - change 0%Q with (inject_Z 0). rewrite <- Zlt_Qlt. exact Ht.
    - rewrite Qmult_0_l. change 0%Q with (inject_Z 0). rewrite <- Zle_Qle. exact He. }
  destruct (Math_min_cases (inject_Z elapsed / inject_Z total) 1) as [-> | ->];
    [exact P | lra].
Qed.

Lemma rawProgress_range (now start : Z) :
  start <= now -> (0 <= rawProgress now start <= 1)%Q.
Proof. intro H. unfold rawProgress. apply fraction_range; unfold duration; lia. Qed.

Lemma RangeInvariant_mounted loc g d now :
  0 <= now -> RangeInvariant (mounted loc g d now).
Proof. intro H. constructor; cbn; try lia; split; discriminate. Qed.

Lemma RangeInvariant_zoomEffect (before s : State) :
  RangeInvariant s -> RangeInvariant (zoomEffect before s).
Proof.
  intros [C Z H P HP].
  constructor; rewrite ?zoomEffect_hooks, ?zoomEffect_clock; try assumption.
  - unfold zoomEffect, requestAnimationFrame, cancelAnimationFrame.
    split_tests; cbn; try assumption; try lia.
    all: unfold Date_now; cbn; lia.
  - unfold zoomEffect, requestAnimationFrame, cancelAnimationFrame.
    split_tests; cbn; assumption.
Qed.

Lemma RangeInvariant_handle (s : State) (e : Event) :
  RangeInvariant s -> enabled s e = true -> RangeInvariant (handle e s).
Proof.
  intros [C Z H P HP] En.
  destruct e as [f ty| | |id|id|ms]; cbn [handle enabled] in *.
  - constructor; run_handlers; assumption.
  - constructor; run_handlers; try assumption; split; discriminate.
  - constructor; run_handlers; try assumption; try lia; split; discriminate.
  - destruct (pendingTimeout id s) as [[i due_t [f ty|f ty]]|]; cbn [callback].
    + constructor; run_handlers; try assumption; try lia; split; discriminate.
    + constructor; run_handlers; try assumption; try lia; split; discriminate.
    + constructor; assumption.
  - destruct (pendingFrame id s) as [[i [ty|]]|]; cbn [frameCallback].
    + pose proof (easing_range _ (rawProgress_range _ _ Z)) as E.
      unfold runAnimate, Date_now.
      change (clock (browser (takeFrame id s))) with (clock (browser s)).
      change (zoomStartTimeRef (refs (takeFrame id s))) with (zoomStartTimeRef (refs s)).
      destruct (rawProgress (clock (browser s)) (zoomStartTimeRef (refs s)) <? 1)%Q;
        [|destruct ty];
        constructor; cbn; try assumption;
        destruct (takeFrame id s); cbn; assumption.
    + assert (E : (0 <= Math_min (inject_Z (clock (browser s) - hoverStartTimeRef (refs s))
                                  / inject_Z HOVER_DELAY) 1 <= 1)%Q)
        by (apply fraction_range; unfold HOVER_DELAY; lia).
      unfold runAnimateHover, Date_now.
      change (clock (browser (takeFrame id s))) with (clock (browser s)).
      change (hoverStartTimeRef (refs (takeFrame id s))) with (hoverStartTimeRef (refs s)).
      destruct (Math_min _ 1 <? 1)%Q;
        constructor; cbn; try assumption;
        destruct (takeFrame id s); cbn; assumption.
    + constructor; assumption.
  - apply Z.leb_le in En. constructor; cbn; try assumption; lia.
Qed.

Lemma RangeInvariant_reaches loc g d now (h : History) (s : State) :
  0 <= now -> reaches (mounted loc g d now) h s -> RangeInvariant s.
Proof.
  intro N. induction 1 as [|h s e R IH En].
  - apply RangeInvariant_mounted, N.
  - unfold step. apply RangeInvariant_zoomEffect, RangeInvariant_handle; assumption.
Qed.


End RangeFacts.

Module CleanupFacts.
Import Num MapVisualization InteractiveMap Invariants MapCleanup.
Import HoverFacts ViewLevelFacts.
Local Open Scope Z_scope.

(** ** Lists of frames *)

Lemma hoverFrames_app (l l' : list Frame) :
  hoverFrames (l ++ l') = (hoverFrames l ++ hoverFrames l')%list.
Proof. apply filter_app. Qed.

Lemma hoverFrames_filter (p : Frame -> bool) (l : list Frame) :
  hoverFrames l = [] -> hoverFrames (filter p l) = [].
Proof.
  unfold hoverFrames. induction l as [|fr l IH]; [reflexivity|].
  cbn [filter]. destruct (negb (isAnimate fr)) eqn:A; [discriminate|].
  intro H. destruct (p fr); cbn [filter]; rewrite ?A; apply IH, H.
Qed.

Lemma hoverFrames_filter_Forall (P : Frame -> Prop) (p : Frame -> bool) (l : list Frame) :
  Forall P (hoverFrames l) -> Forall P (hoverFrames (filter p l)).
Proof.
  unfold hoverFrames. induction l as [|fr l IH]; intro H; [constructor|].
  cbn [filter] in *. destruct (negb (isAnimate fr)) eqn:A.
  - inversion H; subst. destruct (p fr); cbn [filter]; rewrite ?A; auto.
  - destruct (p fr); cbn [filter]; rewrite ?A; auto.
Qed.

(** Cancelling the frame of a ref that holds every hover frame leaves no
    hover frame. *)
Lemma hoverFrames_cancelled (ref : option nat) (l : list Frame) :
  Forall (fun fr => ref = Some (frameId fr)) (hoverFrames l) ->
  hoverFrames (match ref with
               | Some id => filter (fun f => negb (Nat.eqb (frameId f) id)) l
               | None => l
               end) = [].
Proof.
  unfold hoverFrames. induction l as [|fr l IH]; intro H.
  - destruct ref; reflexivity.
  - cbn [filter] in H. destruct (negb (isAnimate fr)) eqn:A.
    + inversion H as [|? ? Hr Hl]; subst. cbn [filter].
      rewrite Nat.eqb_refl. cbn [negb]. apply (IH Hl).
    + specialize (IH H). destruct ref as [id|].
      * cbn [filter]. destruct (negb (frameId fr =? id)%nat); [cbn [filter]; rewrite A|];
          exact IH.
      * cbn [filter]. rewrite A. exact IH.
Qed.

Lemma frames_cancel (ref : option nat) (s : State) :
  frames (browser (cancelAnimationFrame ref s))
  = match ref with
    | Some id => filter (fun f => negb (Nat.eqb (frameId f) id)) (frames (browser s))
    | None => frames (browser s)
    end.
Proof. destruct ref; reflexivity. Qed.

(** ** The handlers, seen from the frames of the hover animation *)

Lemma hoverStart_hover (f : GeoJsonFeature) (ty : FeatureType) (s : State) :
  frames (browser (handleFeatureHoverStart f ty s))
  = frames (browser (cancelAnimationFrame (hoverAnimationRef (refs s)) s)) /\
  hoverAnimationRef (refs (handleFeatureHoverStart f ty s)) = hoverAnimationRef (refs s).
Proof. run_handlers; split; congruence. Qed.

Lemma hoverEnd_hover (s : State) :
  frames (browser (handleFeatureHoverEnd s))
  = frames (browser (cancelAnimationFrame (hoverAnimationRef (refs s)) s)) /\
  hoverAnimationRef (refs (handleFeatureHoverEnd s)) = hoverAnimationRef (refs s).
Proof. run_handlers; split; congruence. Qed.

Lemma reset_hover (s : State) :
  frames (browser (handleReset s))
  = frames (browser (cancelAnimationFrame (hoverAnimationRef (refs s)) s)) /\
  hoverAnimationRef (refs (handleReset s)) = hoverAnimationRef (refs s).
Proof. run_handlers; split; congruence. Qed.

Lemma debounceElapsed_hover (id : nat) (f : GeoJsonFeature) (ty : FeatureType) (s : State) :
  let s' := runDebounceElapsed f ty (takeTimeout id s) in
  frames (browser s')
  = (frames (browser s)
     ++ [{| frameId := nextHandle (browser s); frameCallback := animateHover |}])%list /\
  hoverAnimationRef (refs s') = Some (nextHandle (browser s)).
Proof. split; reflexivity. Qed.

Lemma dwellElapsed_hover (id : nat) (f : GeoJsonFeature) (ty : FeatureType) (s : State) :
  let s' := runDwellElapsed f ty (takeTimeout id s) in
  frames (browser s') = frames (browser s) /\
  hoverAnimationRef (refs s') = hoverAnimationRef (refs s).
Proof. cbv zeta. run_handlers; split; congruence. Qed.

Lemma animate_hover (id : nat) (captured : option FeatureType) (s : State) :
  let s' := runAnimate captured (takeFrame id s) in
  let rest := filter (fun f => negb (Nat.eqb (frameId f) id)) (frames (browser s)) in
  hoverFrames (frames (browser s')) = hoverFrames rest /\
  hoverAnimationRef (refs s') = hoverAnimationRef (refs s) /\
  timeouts (browser s') = timeouts (browser s).
Proof.
  cbv zeta. unfold runAnimate.
  destruct (_ <? 1)%Q; [|destruct captured]; cbn; repeat split.
  rewrite hoverFrames_app. cbn. now rewrite app_nil_r.
Qed.

Lemma animateHover_hover (id : nat) (s : State) :
  let s' := runAnimateHover (takeFrame id s) in
  let rest := filter (fun f => negb (Nat.eqb (frameId f) id)) (frames (browser s)) in
  timeouts (browser s') = timeouts (browser s) /\
  ((frames (browser s')
    = (rest ++ [{| frameId := nextHandle (browser s);
                   frameCallback := animateHover |}])%list /\
    hoverAnimationRef (refs s') = Some (nextHandle (browser s))) \/
   (frames (browser s') = rest /\
    hoverAnimationRef (refs s') = hoverAnimationRef (refs s))).
Proof.
  cbv zeta. unfold runAnimateHover.
  destruct (_ <? 1)%Q; cbn; split; auto.
Qed.

Lemma zoomEffect_hoverAnimationRef (before s : State) :
  hoverAnimationRef (refs (zoomEffect before s)) = hoverAnimationRef (refs s).
Proof.
  unfold zoomEffect, requestAnimationFrame, cancelAnimationFrame. split_tests; reflexivity.
Qed.

Lemma hoverFrames_afterCleanup (s : State) (P : Frame -> Prop) :
  Forall P (hoverFrames (frames (browser s))) ->
  Forall P (hoverFrames (framesAfterCleanup s)).
Proof.
  unfold framesAfterCleanup. destruct (zoomCleanup s); [|auto].
  rewrite frames_cancel. destruct (animationFrameRef (refs s)); [|auto].
  apply hoverFrames_filter_Forall.
Qed.

Lemma zoomEffect_hoverFrames (before s : State) (P : Frame -> Prop) :
  Forall P (hoverFrames (frames (browser s))) ->
  Forall P (hoverFrames (frames (browser (zoomEffect before s)))).
Proof.
  intro H. pose proof (zoomEffect_frames before s) as Z. cbv zeta in Z.
  destruct Z as [(_ & _ & _ & ->) | [(_ & _ & n & _ & _ & ->) | (_ & ->)]].
  - exact H.
  - rewrite hoverFrames_app. cbn [hoverFrames filter isAnimate frameCallback negb].
    rewrite app_nil_r. apply hoverFrames_afterCleanup, H.
  - apply hoverFrames_afterCleanup, H.
Qed.

Lemma Forall_nil_iff {A : Type} (P : A -> Prop) (l : list A) :
  l = [] -> Forall P l.
Proof. intros ->. constructor. Qed.

Lemma hoverFrames_nil_Forall (l : list Frame) :
  hoverFrames l = [] <-> Forall (fun _ => False) (hoverFrames l).
Proof.
  split; [apply Forall_nil_iff|].
  destruct (hoverFrames l); [reflexivity | intro H; inversion H; contradiction].
Qed.

Lemma HoverFramesInvariant_zoomEffect (before s : State) :
  HoverFramesInvariant s -> HoverFramesInvariant (zoomEffect before s).
Proof.
  intros [R D]. constructor.
  - rewrite zoomEffect_hoverAnimationRef. apply zoomEffect_hoverFrames, R.
  - rewrite zoomEffect_timeouts. intro E.
    apply hoverFrames_nil_Forall, zoomEffect_hoverFrames, hoverFrames_nil_Forall, D, E.
Qed.

Lemma HoverFramesInvariant_mounted loc g d now :
  HoverFramesInvariant (mounted loc g d now).
Proof. constructor; [constructor | reflexivity]. Qed.

Lemma hover_cancelled (s : State) :
  HoverFramesInvariant s ->
  hoverFrames (frames (browser (cancelAnimationFrame (hoverAnimationRef (refs s)) s))) = [].
Proof. intros [R _]. rewrite frames_cancel. apply hoverFrames_cancelled, R. Qed.

Lemma hoverFrames_In (l : list Frame) (fr : Frame) :
  In fr l -> frameCallback fr = animateHover -> In fr (hoverFrames l).
Proof.
  intros Hin C. apply filter_In. split; [exact Hin|].
  unfold isAnimate. now rewrite C.
Qed.

Lemma HoverFramesInvariant_handle (h : History) (s : State) (e : Event) :
  HoverInvariant h s -> HoverFramesInvariant s -> enabled s e = true ->
  HoverFramesInvariant (handle e s).
Proof.
  intros HI Inv En. pose proof Inv as [R D].
  destruct e as [f ty| | |id|id|ms]; cbn [handle].
  - destruct (hoverStart_hover f ty s) as [Ef Er].
    constructor; rewrite Ef, ?Er, (hover_cancelled s Inv); [constructor | reflexivity].
  - destruct (hoverEnd_hover s) as [Ef Er].
    constructor; rewrite Ef, ?Er, (hover_cancelled s Inv); [constructor | reflexivity].
  - destruct (reset_hover s) as [Ef Er].
    constructor; rewrite Ef, ?Er, (hover_cancelled s Inv); [constructor | reflexivity].
  - cbn [enabled] in En.
    destruct (pendingTimeout id s) as [t|] eqn:P; [|discriminate].
    destruct (pending_is_latest h s id t HI P) as (Et & <- & _).
    destruct (callback t) as [f ty|f ty] eqn:C.
    + destruct (debounceElapsed_hover (timeoutId t) f ty s) as [Ef Er].
      destruct (debounceElapsed_effect (timeoutId t) f ty s) as (Tt & _).
      cbv zeta in Ef, Er, Tt.
      assert (N : hoverFrames (frames (browser s)) = []).
      { apply D. rewrite Et. cbn. unfold isDebounce. now rewrite C. }
      constructor.
      * rewrite Ef, Er, hoverFrames_app, N. cbn. repeat constructor.
      * rewrite Tt, Et, filter_same_id. cbn. discriminate.
    + destruct (dwellElapsed_hover (timeoutId t) f ty s) as [Ef Er].
      destruct (dwellElapsed_effect (timeoutId t) f ty s) as (Tt & _).
      cbv zeta in Ef, Er, Tt.
      constructor.
      * rewrite Ef, Er. exact R.
      * rewrite Tt, Et, filter_same_id. cbn. discriminate.
  - cbn [enabled] in En.
    destruct (pendingFrame id s) as [fr|] eqn:P; [|discriminate].
    apply find_frame in P as [Hin Eid].
    destruct (frameCallback fr) as [captured|] eqn:C.
    + destruct (animate_hover id captured s) as (Ef & Er & Tt). cbv zeta in Ef, Er, Tt.
      constructor.
      * rewrite Ef, Er. apply hoverFrames_filter_Forall, R.
      * rewrite Ef, Tt. intro E. apply hoverFrames_filter, D, E.
    + pose proof (hoverFrames_In _ _ Hin C) as Hh.
      assert (Ref : hoverAnimationRef (refs s) = Some id).
      { rewrite Forall_forall in R. rewrite (R fr Hh), Eid. reflexivity. }
      assert (Rest : hoverFrames (filter (fun f => negb (Nat.eqb (frameId f) id))
                                         (frames (browser s))) = []).
      { pose proof (hoverFrames_cancelled _ _ R) as K. rewrite Ref in K. exact K. }
      destruct (animateHover_hover id s) as (Tt & [[Ef Er]|[Ef Er]]);
        cbv zeta in Ef, Er, Tt.
      * constructor.
        -- rewrite Ef, Er, hoverFrames_app, Rest. cbn. repeat constructor.
        -- rewrite Tt. intro E. specialize (D E). rewrite D in Hh. destruct Hh.
      * constructor.
        -- rewrite Ef, Rest. constructor.
        -- rewrite Ef. intros _. exact Rest.
  - constructor; [exact R | exact D].
Qed.

Lemma HoverFramesInvariant_reaches loc g d now (h : History) (s : State) :
  reaches (mounted loc g d now) h s -> HoverFramesInvariant s.
Proof.
  induction 1 as [|h s e R IH En].
  - apply HoverFramesInvariant_mounted.
  - unfold step. apply HoverFramesInvariant_zoomEffect.
    eapply HoverFramesInvariant_handle; [eapply HoverInvariant_reaches|..]; eassumption.
Qed.

(** ** Unmounting *)

Lemma unmount_timeouts (s : State) :
  timeouts (browser (unmount s))
  = timeouts (browser (clearTimeout (debounceTimeoutRef (refs s))
                         (clearTimeout (hoverTimeoutRef (refs s)) s))).
Proof.
  unfold unmount. run_handlers; congruence.
Qed.

Lemma unmount_frames (s : State) (fr : Frame) :
  In fr (frames (browser (unmount s))) ->
  In fr (frames (browser s)) /\
  animationFrameRef (refs s) <> Some (frameId fr) /\
  hoverAnimationRef (refs s) <> Some (frameId fr).
Proof.
  unfold unmount. run_handlers; intro H;
    repeat match goal with
           | H : In _ (filter _ _) |- _ =>
             apply filter_In in H as [H ?]
           end;
    repeat match goal with
           | H : negb (Nat.eqb _ _) = true |- _ =>
             apply negb_true_iff, Nat.eqb_neq in H
           end;
    repeat split; try assumption; try discriminate; congruence.
Qed.

Lemma timeouts_cleared (h : History) (s : State) :
  HoverInvariant h s ->
  timeouts (browser (clearTimeout (debounceTimeoutRef (refs s))
                       (clearTimeout (hoverTimeoutRef (refs s)) s))) = [].
Proof.
  intros (_ & _ & T).
  destruct (timeouts (browser s)) as [|t [|t' l]] eqn:E; [| |destruct T].
  - unfold clearTimeout.
    destruct (debounceTimeoutRef (refs s)), (hoverTimeoutRef (refs s)); cbn;
      rewrite ?E; reflexivity.
  - destruct T as [_ T]. unfold clearTimeout.
    destruct (callback t) as [f ty|f ty].
    + destruct T as (-> & _). destruct (hoverTimeoutRef (refs s)) as [r|]; cbn;
        rewrite E; cbn; [destruct (Nat.eqb (timeoutId t) r); cbn|];
        rewrite ?Nat.eqb_refl; reflexivity.
    + destruct T as (-> & _). destruct (debounceTimeoutRef (refs s)); cbn;
        rewrite E; cbn; rewrite Nat.eqb_refl; reflexivity.
Qed.

(** X20.  Unmounting the map leaves nothing of it pending: no timeout of
    the hover and no frame of the hover or zoom animation will run after
    it. *)
Theorem unmount_leaves_nothing_pending
  (loc : Location.DetectedLocation) (g d : option GeoJsonData) (now : Z)
  (h : History) (s : State) :
  reaches (mounted loc g d now) h s ->
  timeouts (browser (unmount s)) = [] /\ frames (browser (unmount s)) = [].
Proof.
  intro R.
  pose proof (HoverInvariant_reaches _ _ _ _ _ _ R) as HI.
  pose proof (HoverFramesInvariant_reaches _ _ _ _ _ _ R) as [HR _].
  pose proof (ZoomInvariant_reaches _ _ _ _ _ _ R) as ZI.
  split.
  - rewrite unmount_timeouts. apply (timeouts_cleared h s HI).
  - destruct (frames (browser (unmount s))) as [|fr l] eqn:E; [reflexivity|].
    exfalso.
    destruct (unmount_frames s fr) as (Hin & Na & Nh); [rewrite E; left; reflexivity|].
    destruct (frameCallback fr) as [captured|] eqn:C.
    + pose proof (inv_frames _ _ _ _ _ _ ZI) as F.
      rewrite Forall_forall in F. specialize (F fr Hin).
      unfold animateOK in F. rewrite C in F. destruct F as (Ra & _). contradiction.
    + rewrite Forall_forall in HR.
      apply Nh, HR, hoverFrames_In; assumption.
Qed.

(** ** The reset button *)

Lemma handle_data (e : Event) (s : State) : data (handle e s) = data s.
Proof.
  destruct e as [f ty| | |id|id|ms]; cbn [handle].
  - run_handlers; reflexivity.
  - run_handlers; reflexivity.
  - run_handlers; reflexivity.
  - destruct (pendingTimeout id s) as [[i due_t [f ty|f ty]]|]; cbn [callback];
      [reflexivity | run_handlers; reflexivity | reflexivity].
  - destruct (pendingFrame id s) as [[i [ty|]]|]; cbn [frameCallback];
      [run_handlers; reflexivity | run_handlers; reflexivity | reflexivity].
  - reflexivity.
Qed.

Lemma reaches_data (s0 : State) (h : History) (s : State) :
  reaches s0 h s -> data s = data s0.
Proof.
  induction 1 as [|h s e R IH En]; [reflexivity|].
  unfold step. now rewrite zoomEffect_data, handle_data.
Qed.

Lemma no_frames (l : list Frame) :
  hoverFrames l = [] -> existsb isAnimate l = false -> l = [].
Proof.
  destruct l as [|fr l]; [reflexivity|]. unfold hoverFrames. cbn [filter existsb].
  destruct (isAnimate fr); cbn; discriminate.
Qed.

Lemma reset_start_time (s : State) :
  zoomStartTimeRef (refs (step s ClickReset)) = 0.
Proof.
  unfold step. cbn [handle].
  unfold zoomEffect, requestAnimationFrame, cancelAnimationFrame.
  assert (F : feature (zoomedFeature (hooks (handleReset s))) = None)
    by (run_handlers; reflexivity).
  assert (Z : zoomStartTimeRef (refs (handleReset s)) = 0)
    by (run_handlers; reflexivity).
  destruct (_ && _); [exact Z|].
  cbv zeta.
  destruct (zoomCleanup (handleReset s)), (animationFrameRef (refs (handleReset s)));
    cbn; rewrite ?F; reflexivity.
Qed.

(** X21.  The reset button brings the map back to its base view and stops
    every animation: no feature is zoomed or hovered, both progress values
    are 0, the view level is that of the location (country for the map of
    India, state otherwise), the start time of the zoom is forgotten, no
    animation frame and no dwell timeout is pending, and the map is drawn in
    the box of the base features. *)
Theorem reset_returns_to_base
  (loc : Location.DetectedLocation) (g d : option GeoJsonData) (now : Z)
  (h : History) (s : State) :
  reaches (mounted loc g d now) h s ->
  zoomedFeature (hooks (step s ClickReset))
  = {| feature := None; type := None; progress := 0 |} /\
  hoveredFeature (hooks (step s ClickReset)) = None /\
  hoverProgress (hooks (step s ClickReset)) = 0%Q /\
  viewLevel (hooks (step s ClickReset))
  = match Location.type loc with
    | Location.country => Location.country
    | _ => Location.state
    end /\
  zoomStartTimeRef (refs (step s ClickReset)) = 0 /\
  frames (browser (step s ClickReset)) = [] /\
  Forall (fun t => isDebounce t = true) (timeouts (browser (step s ClickReset))) /\
  bounds (step s ClickReset) = calculateBounds (baseFeatures (step s ClickReset)).
Proof.
  intro R.
  pose proof (HoverInvariant_reaches _ _ _ _ _ _ R) as HI.
  pose proof (HoverFramesInvariant_reaches _ _ _ _ _ _ R) as HF.
  pose proof (ZoomInvariant_reaches _ _ _ _ _ _ R) as ZI.
  pose proof (reaches_data _ _ _ R) as Ed.
  assert (Hk : hooks (step s ClickReset) = hooks (handleReset s))
    by (unfold step; apply zoomEffect_hooks).
  assert (Zf : zoomedFeature (hooks (step s ClickReset))
               = {| feature := None; type := None; progress := 0 |})
    by (rewrite Hk; run_handlers; reflexivity).
  split; [exact Zf|].
  split; [rewrite Hk; run_handlers; reflexivity|].
  split; [rewrite Hk; run_handlers; reflexivity|].
  split.
  { rewrite Hk. destruct (reset_effect s) as (_ & _ & -> & _).
    rewrite Ed. unfold isCountry. cbn [data location mounted].
    destruct (Location.type loc); reflexivity. }
  split; [apply reset_start_time|].
  split.
  { apply no_frames.
    - unfold step. cbn [handle].
      apply hoverFrames_nil_Forall, zoomEffect_hoverFrames, hoverFrames_nil_Forall.
      destruct (reset_hover s) as [-> _]. apply hover_cancelled, HF.
    - pose proof (ZoomInvariant_step h s ClickReset HI ZI eq_refl) as ZI'.
      pose proof (inv_frames _ _ _ _ _ _ ZI') as F.
      rewrite Zf in F. cbn [type] in F.
      destruct (existsb isAnimate (frames (browser (step s ClickReset)))) eqn:E;
        [|reflexivity].
      apply animate_pending in E as (fr & captured & Hin & C).
      rewrite Forall_forall in F. specialize (F fr Hin).
      unfold animateOK in F. rewrite C in F. destruct F as (_ & _ & -> & N).
      contradiction. }
  split.
  { unfold step. cbn [handle]. rewrite zoomEffect_timeouts, reset_timeouts.
    destruct HI as (_ & _ & T).
    destruct (timeouts (browser s)) as [|t [|t' l]] eqn:Et; [| |destruct T].
    - unfold clearTimeout. destruct (hoverTimeoutRef (refs s)); cbn; rewrite ?Et;
        constructor.
    - destruct T as [_ T]. unfold timeoutOfLatestHover in T. unfold clearTimeout.
      destruct (hoverTimeoutRef (refs s)) as [r|] eqn:Er;
        cbn [timeouts browser withBrowser]; rewrite Et.
      + cbn [filter]. destruct (negb (timeoutId t =? r)%nat) eqn:Ne; [|constructor].
        constructor; [|constructor]. unfold isDebounce.
        destruct (callback t); [reflexivity|].
        destruct T as (T & _). injection T as T'.
        rewrite T', Nat.eqb_refl in Ne. discriminate Ne.
      + constructor; [|constructor]. unfold isDebounce.
        destruct (callback t); [reflexivity|].
        destruct T as (T & _). discriminate T. }
  unfold bounds. rewrite Zf. reflexivity.
Qed.

End CleanupFacts.

Module ZoomBoundsFacts.
Import Num MapVisualization InteractiveMap Invariants MapCleanup.
Import ZoomAnimationFacts HoverFacts ViewLevelFacts CleanupFacts.
Local Open Scope Z_scope.

(** X23.  On the map of India the zoom is not interpolated: once a state is
    zoomed there are no base features left, so the map is drawn in the box of
    the state as soon as the progress is positive, and it is not drawn at all
    while the progress is still 0. *)
Theorem country_zoom_jumps_to_state
  (loc : Location.DetectedLocation) (g d : option GeoJsonData) (now : Z)
  (h : History) (s : State) (f : GeoJsonFeature) :
  reaches (mounted loc g d now) h s ->
  Location.type loc = Location.country ->
  feature (zoomedFeature (hooks s)) = Some f ->
  baseFeatures s = [] /\
  bounds s = (if (0 <? progress (zoomedFeature (hooks s)))%Q
              then calculateBounds [f] else None) /\
  ((0 <? progress (zoomedFeature (hooks s)))%Q = false -> mapRendered s = false).
Proof.
  intros R T F.
  pose proof (reaches_data _ _ _ R) as Ed.
  assert (G : geoJson (data s) = None).
  { rewrite Ed. cbn [data geoJson mounted]. rewrite T. reflexivity. }
  assert (B : baseFeatures s = []).
  { unfold baseFeatures, isIndiaView. rewrite F, G.
    destruct (allStatesGeoJson (data s)), (viewLevel (hooks s)); reflexivity. }
  assert (E : bounds s = (if (0 <? progress (zoomedFeature (hooks s)))%Q
                          then calculateBounds [f] else None)).
  { unfold bounds. rewrite F, B.
    change (calculateBounds []) with (@None Bounds).
    destruct (0 <? progress (zoomedFeature (hooks s)))%Q; [|reflexivity].
    destruct (calculateBounds [f]); reflexivity. }
  split; [exact B|]. split; [exact E|].
  intro P. unfold mapRendered. rewrite E, P, G.
  destruct (allStatesGeoJson (data s)); reflexivity.
Qed.

End ZoomBoundsFacts.

Module MapSessionFacts.
Import Num MapVisualization InteractiveMap Invariants Session CountrySession MapCleanup.
Import SessionFacts.
Local Open Scope Z_scope.

Lemma reaches_india5 : reaches india0 indiaHistory5 india5.
Proof. unfold indiaHistory5, india5, india4, india3, india2, india1. run_session. Qed.


(** X20 on the session, while a zoom frame, a hover frame and a dwell
    timeout are pending. *)
Lemma unmount_leaves_nothing_pending_witness :
  List.length (timeouts (browser s11)) = 1%nat /\
  List.length (frames (browser s11)) = 2%nat /\
  timeouts (browser (unmount s11)) = [] /\ frames (browser (unmount s11)) = [].
Proof.
  split; [vm_compute; reflexivity|]. split; [vm_compute; reflexivity|].
  exact (CleanupFacts.unmount_leaves_nothing_pending _ _ _ _ h11 s11 reaches_s11).
Defined.

(** X21 on the session: the reset button pressed while the zoom on Kachchh
    is animated and the pointer dwells on Surat. *)
Lemma reset_returns_to_base_witness :
  zoomedFeature (hooks (step s11 ClickReset))
  = {| feature := None; type := None; progress := 0 |} /\
  hoveredFeature (hooks (step s11 ClickReset)) = None /\
  hoverProgress (hooks (step s11 ClickReset)) = 0%Q /\
  viewLevel (hooks (step s11 ClickReset)) = Location.state /\
  zoomStartTimeRef (refs (step s11 ClickReset)) = 0 /\
  frames (browser (step s11 ClickReset)) = [] /\
  Forall (fun t => isDebounce t = true) (timeouts (browser (step s11 ClickReset))) /\
  bounds (step s11 ClickReset) = calculateBounds (baseFeatures (step s11 ClickReset)).
Proof.
  exact (CleanupFacts.reset_returns_to_base _ _ _ _ h11 s11 reaches_s11).
Defined.

(** X23 on the map of India: Gujarat is zoomed, and until the first frame
    nothing is drawn. *)
Lemma country_zoom_jumps_to_state_witness :
  baseFeatures india5 = [] /\
  bounds india5 = (if (0 <? progress (zoomedFeature (hooks india5)))%Q
                   then calculateBounds [gujarat] else None) /\
  ((0 <? progress (zoomedFeature (hooks india5)))%Q = false ->
   mapRendered india5 = false).
Proof.
  apply (ZoomBoundsFacts.country_zoom_jumps_to_state
           {| Location.type := Location.country; Location.name := "India";
              Location.stateName := None |}
           (Some [gujarat]) None 1000 indiaHistory5 india5 gujarat reaches_india5).
  - reflexivity.
  - vm_compute. reflexivity.
Defined.

(** X24 on the session, when the dwell on Surat elapses while Kachchh is
    still zoomed. *)
Lemma zoom_start_kept_witness :
  triggersZoom s13 (TimeoutFires 7) = Some (surat, district) /\
  zoomStartTimeRef (refs s13) = 3040 /\
  zoomStartTimeRef (refs (step s13 (TimeoutFires 7))) = zoomStartTimeRef (refs s13).
Proof.
  split; [vm_compute; reflexivity|]. split; [vm_compute; reflexivity|].
  refine (ViewLevelFacts.zoom_start_kept s13 (TimeoutFires 7) surat district _ _).
  - vm_compute. reflexivity.
  - vm_compute. discriminate.
Defined.

End MapSessionFacts.

Module BlankMapFacts.
Import Num MapVisualization InteractiveMap Invariants MapRendering.
Import HoverFacts ViewLevelFacts.
Local Open Scope string_scope.
Local Open Scope Z_scope.

Lemma Blank_mounted (loc : Location.DetectedLocation) (g d : option GeoJsonData)
  (now : Z) :
  Location.type loc = Location.district -> Location.name loc <> EmptyString ->
  Blank (mounted loc g d now).
Proof.
  intros T N. apply String.eqb_neq in N.
  constructor; cbn; rewrite ?T; cbn; rewrite ?N; reflexivity.
Qed.

Lemma Blank_not_hoverable (s : State) (f : GeoJsonFeature) (ty : FeatureType) :
  Blank s -> hoverable s f ty = false.
Proof.
  intros [L A Z T H Ts Fs]. unfold hoverable, isIndiaView.
  rewrite A, L. destruct ty; cbn; rewrite ?andb_false_r; reflexivity.
Qed.

Lemma Blank_step (s : State) (e : Event) :
  Blank s -> enabled s e = true -> e <> ClickReset -> Blank (step s e).
Proof.
  intros B En Nr. pose proof B as [L A Z T H Ts Fs].
  destruct e as [f ty| | |id|id|ms]; cbn [enabled] in En.
  - rewrite (Blank_not_hoverable s f ty B) in En. discriminate En.
  - unfold step. rewrite zoomEffect_noop.
    + cbn [handle]. constructor; run_handlers; rewrite ?Ts, ?Fs; cbn; congruence.
    + cbn [handle]. run_handlers; congruence.
    + cbn [handle]. run_handlers; congruence.
  - contradiction.
  - unfold pendingTimeout in En. rewrite Ts in En. discriminate En.
  - unfold pendingFrame in En. rewrite Fs in En. discriminate En.
  - unfold step. rewrite zoomEffect_noop; [|reflexivity..].
    cbn [handle]. constructor; assumption.
Qed.

Lemma Blank_reaches (s0 : State) (h : History) (s : State) :
  Blank s0 -> reaches s0 h s ->
  Forall (fun event => snd event <> ClickReset) h -> Blank s.
Proof.
  intros B R. induction R as [|h s e R IH En]; intro F; [exact B|].
  inversion F as [|? ? Ne F']; subst. cbn [snd] in Ne.
  apply Blank_step; auto.
Qed.

(** X25.  The map of a district stays blank: mounted at view level
    ['district'] with nothing zoomed, it draws no path, no feature takes the
    pointer and the reset button is not shown; and as long as the reset
    button is not pressed it stays so, whatever happens. *)
Theorem district_map_stays_blank
  (loc : Location.DetectedLocation) (g d : option GeoJsonData) (now : Z)
  (h : History) (s : State) :
  Location.type loc = Location.district -> Location.name loc <> EmptyString ->
  reaches (mounted loc g d now) h s ->
  Forall (fun event => snd event <> ClickReset) h ->
  viewLevel (hooks s) = Location.district /\
  drawnFeatures s = [] /\
  (forall f ty, hoverable s f ty = false) /\
  showReset s = false.
Proof.
  intros T N R F.
  pose proof (Blank_reaches _ _ _ (Blank_mounted loc g d now T N) R F) as B.
  pose proof B as [L A Z Ty H Ts Fs].
  split; [exact L|]. split; [|split].
  - unfold drawnFeatures, isIndiaView. rewrite A, L, Z. reflexivity.
  - intros f ty. apply Blank_not_hoverable, B.
  - unfold showReset. rewrite Z, H. reflexivity.
Qed.

Lemma district_map_stays_blank_witness :
  let s := step (step suratMap MouseLeave) (TimePasses 5000) in
  viewLevel (hooks s) = Location.district /\
  drawnFeatures s = [] /\
  (forall f ty, hoverable s f ty = false) /\
  showReset s = false.
Proof.
  apply (district_map_stays_blank
           {| Location.type := Location.district; Location.name := "Surat";
              Location.stateName := Some "Gujarat" |}
           (Some [Session.surat]) None 1000 suratHistory).
  - reflexivity.
  - discriminate.
  - unfold suratHistory.
    apply (reaches_step suratMap [(clock (browser suratMap), MouseLeave)]
             (step suratMap MouseLeave) (TimePasses 5000)); [|reflexivity].
    apply (reaches_step suratMap [] suratMap MouseLeave); [|reflexivity].
    apply reaches_start.
  - repeat constructor; discriminate.
Defined.

End BlankMapFacts.

Module DebouncedCallbackFacts.
Import DebouncedCallback.
Local Open Scope Z_scope.

Section HookFacts.
Variable A : Type.
Variable delay : Z.

Lemma Debounced_initial (now : Z) : Debounced A delay [] (initial A now).
Proof. split; [intros id H; discriminate H | exact I]. Qed.

Lemma cleared (h : History A) (s : State A) :
  Debounced A delay h s -> pending (clearTimeout A s) = [].
Proof.
  intros (_ & P). unfold clearTimeout.
  destruct (timeoutRef s) as [id|] eqn:Er.
  - cbn [pending]. destruct (pending s) as [|t [|t' l]]; [reflexivity | | destruct P].
    destruct P as (Ht & _). injection Ht as ->. cbn. rewrite Nat.eqb_refl. reflexivity.
  - destruct (pending s) as [|t [|t' l]]; [reflexivity | | destruct P].
    destruct P as (Ht & _). discriminate Ht.
Qed.

Lemma Debounced_step (h : History A) (s : State A) (e : Event A) :
  Debounced A delay h s -> enabled A s e = true ->
  Debounced A delay ((clock s, e) :: h) (step A delay s e).
Proof.
  intros D En. pose proof D as (R & P).
  destruct e as [a|id|ms]; cbn [step].
  - unfold debouncedFn. cbv zeta. 
    assert (Ec : clock (clearTimeout A s) = clock s)
      by (unfold clearTimeout; destruct (timeoutRef s); reflexivity).
    assert (En' : nextHandle (clearTimeout A s) = nextHandle s)
      by (unfold clearTimeout; destruct (timeoutRef s); reflexivity).
    split; cbn [timeoutRef nextHandle pending]; rewrite ?(cleared h s D), ?En', ?Ec.
    + intros id [= <-]. lia.
    + cbn. split; [reflexivity|]. eexists. split; reflexivity.
  - cbn [enabled] in En. unfold fire.
    destruct (find _ (pending s)) as [t|] eqn:F; [|discriminate En].
    split; cbn [timeoutRef nextHandle pending]; [exact R|].
    destruct (pending s) as [|t1 [|t2 l]]; [exact I| |destruct P].
    cbn [find] in F. destruct (Nat.eqb (timerId t1) id) eqn:E; [|discriminate F].
    cbn [filter]. rewrite E. exact I.
  - split; cbn [timeoutRef nextHandle pending advance]; [exact R|].
    destruct (pending s) as [|t1 [|t2 l]]; [exact I| |destruct P].
    exact P.
Qed.

Lemma Debounced_reaches (now : Z) (h : History A) (s : State A) :
  reaches A delay (initial A now) h s -> Debounced A delay h s.
Proof.
  induction 1 as [|h s e R IH En]; [apply Debounced_initial|].
  apply Debounced_step; assumption.
Qed.

(** X26.  The debounced function calls back once for the latest call only:
    at most one timeout is pending; when it fires, the callback gets the
    argument of the latest call, which was made at least [delay] before, and
    nothing is left pending; and nothing is left pending after unmounting. *)
Theorem debounced_calls_back_for_latest_call (now : Z) (h : History A) (s : State A) :
  reaches A delay (initial A now) h s ->
  (List.length (pending s) <= 1)%nat /\
  (forall id, enabled A s (Fires id) = true ->
     exists t0 a,
       lastCall A h = Some (t0, a) /\ t0 + delay <= clock s /\
       called (step A delay s (Fires id)) = (clock s, a) :: called s /\
       pending (step A delay s (Fires id)) = []) /\
  (forall e, match e with Fires _ => False | _ => True end ->
     called (step A delay s e) = called s) /\
  pending (unmount A s) = [].
Proof.
  intro R. pose proof (Debounced_reaches now h s R) as D. pose proof D as (Rf & P).
  split; [|split; [|split]].
  - destruct (pending s) as [|t1 [|t2 l]]; cbn; [lia | lia | destruct P].
  - intros id En. cbn [enabled step] in *. unfold fire.
    destruct (pending s) as [|t1 [|t2 l]]; [discriminate En| |destruct P].
    cbn [find] in *. destruct (Nat.eqb (timerId t1) id) eqn:E; [|discriminate En].
    apply Z.leb_le in En. destruct P as (_ & t0 & L & Du).
    exists t0, (args t1). cbn [called pending filter]. rewrite E. cbn [negb].
    repeat split; [exact L | lia].
  - intros [a|id|ms] H; [|destruct H|]; cbn [step].
    + unfold debouncedFn, clearTimeout. destruct (timeoutRef s); reflexivity.
    + reflexivity.
  - apply (cleared h s D).
Qed.

End HookFacts.

End DebouncedCallbackFacts.

Module TypingSessionFacts.
Import DebouncedCallback TypingSession.
Local Open Scope string_scope.
Local Open Scope Z_scope.

Lemma reaches_typing4 : reaches string 300 typing0 typingHistory typing4.
Proof.
  unfold typingHistory.
  apply (reaches_step string 300 typing0 _ typing3 (Passes 300)); [|reflexivity].
  apply (reaches_step string 300 typing0 _ typing2 (Call "Surat")); [|reflexivity].
  apply (reaches_step string 300 typing0 _ typing1 (Passes 100)); [|reflexivity].
  apply (reaches_step string 300 typing0 [] typing0 (Call "Su")); [|reflexivity].
  apply reaches_start.
Qed.

(** X26 on the input of the page: "Su" then "Surat" typed within 100 ms;
    only the timeout of "Surat" is pending, and it calls back with "Surat". *)
Lemma debounced_calls_back_for_latest_call_witness :
  enabled string typing4 (Fires 2) = true /\
  called (step string 300 typing4 (Fires 2)) = [(400, "Surat")] /\
  ((List.length (pending typing4) <= 1)%nat /\
   (forall id, enabled string typing4 (Fires id) = true ->
      exists t0 a,
        lastCall string typingHistory = Some (t0, a) /\ t0 + 300 <= clock typing4 /\
        called (step string 300 typing4 (Fires id)) = (clock typing4, a) :: called typing4 /\
        pending (step string 300 typing4 (Fires id)) = []) /\
   (forall e, match e with Fires _ => False | _ => True end ->
      called (step string 300 typing4 e) = called typing4) /\
   pending (unmount string typing4) = []).
Proof.
  split; [reflexivity|]. split; [reflexivity|].
  exact (DebouncedCallbackFacts.debounced_calls_back_for_latest_call
           string 300 0 typingHistory typing4 reaches_typing4).
Defined.

End TypingSessionFacts.

Module ChatMessageFacts.
Import Text Location ChatPage ChatMessageView ChatPageFacts.
Local Open Scope string_scope.

Lemma isBlank_empty (text : string) : isBlank text = false -> text <> "".
Proof. intros H ->. discriminate H. Qed.

Lemma MapVisualization_head (found : list DetectedLocation) :
  match hd_error found, Some found with
  | None, None => []
  | location, locations => MapVisualization location locations
  end = found.
Proof. destruct found; reflexivity. Qed.

(** X27.  An answered question shows one map for each location detected in
    it, in the order of detection, and none when nothing is detected: the
    assistant message that [sendMessage] appends carries the locations of
    [/api/detect-location], and [ChatMessage] renders an [InteractiveMap] for
    each of them, without a map of its own for the primary location. *)
Theorem answer_shows_detected_locations
  (messageText : option string) (w : World) (st : State)
  (output : DetectLocation.OutputFile) (answer : ApiResponse) :
  let text := textToSend messageText st in
  let found := DetectLocation.POST (DetectLocation.TextBody text) output in
  isBlank text = false -> isLoading st = false ->
  query w = QueryAnswer answer ->
  detect w = detectOutcome found ->
  exists earlier message,
    messages (fst (sendMessage messageText w st)) = (earlier ++ [message])%list /\
    role message = assistant /\ content message = response answer /\
    ChatMessage_maps message = DetectLocation.locations found.
Proof.
  intros text found B L Q D.
  destruct (DetectFacts.POST_text text output (isBlank_empty text B)) as (S & El & Eh).
  fold found in S, El, Eh.
  assert (Hd : DetectLocation.location found
               = hd_error (DetectLocation.locations found)).
  { rewrite Eh, El.
    destruct (DetectFacts.uniqueLocations_keeps_first (DetectLocation.detect output text))
      as (-> & _).
    destruct (DetectLocation.detect output text); reflexivity. }
  unfold detectOutcome in D. rewrite S in D. cbn [Nat.leb Nat.ltb andb] in D.
  unfold sendMessage. fold text. rewrite trim_blank, B, L, Q, D. cbn [orb].
  eexists. eexists. split; [cbn [fst messages setIsLoading setMessages]; reflexivity|].
  cbn [role content ChatMessage_maps locationInfo locations].
  split; [reflexivity|]. split; [reflexivity|].
  rewrite Hd. apply MapVisualization_head.
Qed.

End ChatMessageFacts.

Module ChatSessionFacts.
Import Text Location ChatPage ChatMessageView.
Local Open Scope string_scope.

(** X27 on a question about Surat in Gujarat: the answer shows the map of
    the district and the map of the state. *)
Lemma answer_shows_detected_locations_witness :
  let w := {| now := 1000; query := QueryAnswer {| response := "Levels are stable.";
                                                   response_data := None;
                                                   response_chart := None;
                                                   chart_type := None |};
              later := 2000;
              detect := detectOutcome
                          (DetectLocation.POST
                             (DetectLocation.TextBody "Wells of Surat in Gujarat") None) |} in
  DetectLocation.locations
    (DetectLocation.POST (DetectLocation.TextBody "Wells of Surat in Gujarat") None)
  = [ {| type := district; name := "Surat"; stateName := Some "Gujarat" |};
      {| type := state; name := "Gujarat"; stateName := None |} ] /\
  exists earlier message,
    messages (fst (sendMessage (Some "Wells of Surat in Gujarat") w emptyChat))
    = (earlier ++ [message])%list /\
    role message = assistant /\ content message = "Levels are stable." /\
    ChatMessage_maps message
    = DetectLocation.locations
        (DetectLocation.POST (DetectLocation.TextBody "Wells of Surat in Gujarat") None).
Proof.
  intro w.
  split; [vm_compute; reflexivity|].
  refine (ChatMessageFacts.answer_shows_detected_locations
            (Some "Wells of Surat in Gujarat") w emptyChat None
            {| response := "Levels are stable."; response_data := None;
               response_chart := None; chart_type := None |} _ _ _ _);
    reflexivity.
Defined.

End ChatSessionFacts.

Module MapLabelFacts.
Import GeoJson MapLabels GeoJsonRoute.
Local Open Scope string_scope.

Lemma firstTruthy_cons (c : option string) (rest : list (option string)) :
  firstTruthy (c :: rest)
  = match c with
    | Some (String a v) => String a v
    | _ => firstTruthy rest
    end.
Proof. destruct c as [[|a v]|]; reflexivity. Qed.

Lemma orElse_nonempty (candidates : list (option string)) (last : string) :
  last <> "" -> orElse candidates last <> "".
Proof.
  intro H. unfold orElse.
  destruct (firstTruthy candidates); [exact H | discriminate].
Qed.

(** X28.  The labels of the map are never empty: a state is labelled with
    its [NAME_1] when it has one, and with the name of the location when it
    has none of [NAME_1], [ST_NM] and [STATE]; a district is labelled with
    its [dtname] when it has one; and a district without a [District]
    property that the route can name carries that same name on the map. *)
Theorem labels_are_never_empty (props : list (string * string))
  (fallbackName : option string) :
  getStateName props fallbackName <> "" /\
  getDistrictName props <> "" /\
  (forall a v, property "NAME_1" props = Some (String a v) ->
     getStateName props fallbackName = String a v) /\
  (property "NAME_1" props = None -> property "ST_NM" props = None ->
   property "STATE" props = None ->
   forall a v, fallbackName = Some (String a v) ->
     getStateName props fallbackName = String a v) /\
  (forall a v, property "dtname" props = Some (String a v) ->
     getDistrictName props = String a v) /\
  (property "District" props = None ->
   forall feature, properties feature = props ->
     districtFeatureName feature <> "" ->
     getDistrictName props = districtFeatureName feature).
Proof.
  split; [apply orElse_nonempty; discriminate|].
  split; [apply orElse_nonempty; discriminate|].
  split; [|split; [|split]].
  - intros a v H. unfold getStateName, orElse. now rewrite firstTruthy_cons, H.
  - intros H1 H2 H3 a v ->. unfold getStateName, orElse.
    rewrite !firstTruthy_cons, H1, H2, H3. reflexivity.
  - intros a v H. unfold getDistrictName, orElse. now rewrite firstTruthy_cons, H.
  - intros Hd feature <- N. unfold getDistrictName, districtFeatureName, orElse in *.
    rewrite !firstTruthy_cons in *. rewrite Hd in *.
    destruct (property "dtname" (properties feature)) as [[|a v]|];
      try reflexivity;
      destruct (property "NAME_2" (properties feature)) as [[|a2 v2]|];
      try reflexivity;
      destruct (property "DISTRICT" (properties feature)) as [[|a3 v3]|];
      try reflexivity; cbn in N; contradiction.
Qed.

End MapLabelFacts.

Module EasingFacts.
Import Num MapVisualization InteractiveMap ZoomAnimationFacts RangeFacts.

(** X29.  The easing of the zoom is a ramp from 0 to 1: it maps 0 to 0,
    one half to one half and 1 to 1, it never decreases on [[0, 1]], and it
    stays within [[0, 1]] there. *)
Theorem easing_is_a_ramp (p q : Q) :
  0 <= p -> p <= q -> q <= 1 ->
  easing 0 == 0 /\ easing 0.5 == 0.5 /\ easing 1 == 1 /\
  0 <= easing p /\ easing p <= easing q /\ easing q <= 1.
Proof.
  intros P0 Pq Q1.
  split; [vm_compute; reflexivity|].
  split; [vm_compute; reflexivity|].
  split; [vm_compute; reflexivity|].
  assert (Rp : 0 <= p <= 1) by lra.
  assert (Rq : 0 <= q <= 1) by lra.
  pose proof (easing_range p Rp) as [Lp _].
  pose proof (easing_range q Rq) as [_ Uq].
  pose proof (easing_monotone p q P0 Pq Q1).
  auto.
Qed.

Lemma easing_is_a_ramp_witness :
  easing 0 == 0 /\ easing 0.5 == 0.5 /\ easing 1 == 1 /\
  0 <= easing 0.25 /\ easing 0.25 <= easing 0.75 /\ easing 0.75 <= 1.
Proof.
  apply (easing_is_a_ramp 0.25 0.75); discriminate.
Defined.

End EasingFacts.

Module LoadGeoJsonFacts.
Import GeoJson GeoJsonRoute GeoJsonRouteWords Location LoadGeoJson GeoJsonRouteCases.
Local Open Scope string_scope.

Lemma GET_answer (request : Request) (env : Environment) : Answer request env.
Proof.
  destruct (wantsAllStates request) eqn:W.
  - destruct (GET_all_states request env W) as [E | (doc & E)].
    + eapply answer_error; [exact E | reflexivity].
    + eapply answer_data; [exact E | congruence].
  - destruct (GET_cases request env W)
      as [(_ & _ & E) | (_ & [E | [E | (doc & E)]])].
    + eapply answer_error; [exact E | reflexivity].
    + eapply answer_error; [exact E | reflexivity].
    + eapply answer_error; [exact E | reflexivity].
    + eapply answer_data; [exact E | intros _; discriminate].
Qed.

Lemma firstRequest_not_all (location : DetectedLocation) :
  type location <> country -> wantsAllStates (fst (firstRequest location)) = false.
Proof.
  intro T. unfold firstRequest.
  destruct (type location); [contradiction| |]; cbn [Level_eqb andb].
  - reflexivity.
  - destruct (negb (String.eqb (name location) "")); reflexivity.
Qed.

(** X30.  A map loaded from the route: the load always ends; it sends one
    request, and a second one only for the state of a district whose own
    request failed; it ends without error exactly when a request was
    answered with status 200, and then a location that is not a country has
    an outline; otherwise the error is ["Failed to load map data"], never
    the message of the route, and the collections are left as they were. *)
Theorem loadGeoJson_served_by_route
  (location : DetectedLocation) (env : Environment) (st : Loaded) :
  let result := loadGeoJson (served env) location st in
  loading (fst result) = false /\
  viewLevel (fst result) = snd (firstRequest location) /\
  (snd result = [fst (firstRequest location)] \/
   exists c s,
     type location = district /\ stateName location = Some (String c s) /\
     status (GET (fst (firstRequest location)) env) <> 200%nat /\
     snd result = [fst (firstRequest location); stateRequest (String c s)]) /\
  (error (fst result) = None <->
   exists request, In request (snd result) /\ status (GET request env) = 200%nat) /\
  (error (fst result) = None -> type location <> country ->
   geoJson (fst result) <> None) /\
  (error (fst result) <> None ->
   error (fst result) = Some "Failed to load map data" /\
   geoJson (fst result) = geoJson st /\
   districtsGeoJson (fst result) = districtsGeoJson st /\
   allStatesGeoJson (fst result) = allStatesGeoJson st).
Proof.
  cbv zeta. unfold loadGeoJson, served.
  pose proof (firstRequest_not_all location) as NA.
  destruct (firstRequest location) as [request level]. cbn [fst snd] in *.
  destruct (GET_answer request env) as [code c m E O | doc districts E D].
  - (* the first request fails *)
    rewrite E, O. cbn [negb].
    assert (S1 : status (errorResponse code (String c m)) <> 200%nat).
    { intro S. unfold ok in O. cbn [status errorResponse] in *. rewrite S in O.
      discriminate O. }
    destruct (type location) eqn:T.
    1, 2: cbn [fst snd failed loading viewLevel error geoJson districtsGeoJson
               allStatesGeoJson];
      (split; [reflexivity|]); (split; [reflexivity|]); (split; [left; reflexivity|]);
      (split; [split; [discriminate|]|split; [discriminate|auto]]);
      intros (r & [<- | []] & S); rewrite E in S; contradiction.
    destruct (stateName location) as [[|c' s]|] eqn:Sn.
    1, 3: cbn [fst snd failed loading viewLevel error geoJson districtsGeoJson
               allStatesGeoJson];
      (split; [reflexivity|]); (split; [reflexivity|]); (split; [left; reflexivity|]);
      (split; [split; [discriminate|]|split; [discriminate|auto]]);
      intros (r & [<- | []] & S); rewrite E in S; contradiction.
    (* the request for the state of the district *)
    destruct (GET_answer (stateRequest (String c' s)) env)
      as [code2 c2 m2 E2 O2 | doc districts E2 D2].
    + rewrite E2, O2.
      assert (S2 : status (errorResponse code2 (String c2 m2)) <> 200%nat).
      { intro S. unfold ok in O2. cbn [status errorResponse] in *. rewrite S in O2.
        discriminate O2. }
      cbn [fst snd failed loading viewLevel error geoJson districtsGeoJson
           allStatesGeoJson].
      split; [reflexivity|]. split; [reflexivity|].
      split; [right; exists c', s; auto|].
      split; [split; [discriminate|]|split; [discriminate|auto]].
      intros (r & [<- | [<- | []]] & S); [rewrite E in S | rewrite E2 in S];
        contradiction.
    + rewrite E2. destruct doc as [doc|]; [|exfalso; apply D2; reflexivity].
      cbn [ok status Nat.leb Nat.ltb andb GeoJsonRoute.geoJson
           GeoJsonRoute.districtsGeoJson fst snd loading viewLevel error geoJson
           districtsGeoJson allStatesGeoJson].
      split; [reflexivity|]. split; [reflexivity|].
      split; [right; exists c', s; auto|].
      split; [split; [|reflexivity]|split; [discriminate|intro H; now destruct H]].
      intros _. exists (stateRequest (String c' s)).
      split; [right; left; reflexivity | rewrite E2; reflexivity].
  - (* the first request is answered *)
    rewrite E.
    cbn [ok status Nat.leb Nat.ltb andb negb GeoJsonRoute.error GeoJsonRoute.geoJson
         GeoJsonRoute.districtsGeoJson].
    destruct (type location) eqn:T;
      cbn [Level_eqb fst snd loading viewLevel error geoJson districtsGeoJson
           allStatesGeoJson];
      (split; [reflexivity|]); (split; [reflexivity|]); (split; [left; reflexivity|]);
      (split; [split; [|reflexivity]|]).
    all: try (intros _; exists request; split; [left; reflexivity|];
              rewrite E; reflexivity).
    all: split; [|intro H; now destruct H].
    + intros _ H. now destruct H.
    + intros _ _. apply D, NA. discriminate.
    + intros _ _. apply D, NA. discriminate.
Qed.

End LoadGeoJsonFacts.

Module LocationBadgeFacts.
Import Text Location ChatPage ChatMessageView LocationBadge ChatPageFacts.
Local Open Scope string_scope.

(** X12.  While typing, the pin shows the primary location of the text as
    it is: for a text that is not blank, [detectLocation] sends the text
    once, the route accepts it, and [detectedLocation] becomes the first
    location the route found, or none, whatever it was before; a district
    found without a state is shown with ["undefined"] for the state. *)
Theorem typing_shows_primary_location
  (text : string) (output : DetectLocation.OutputFile)
  (previous : option DetectedLocation) :
  isBlank text = false ->
  let answer := DetectLocation.POST (DetectLocation.TextBody text) output in
  let result := detectLocation text (detectOutcome answer) previous in
  snd result = [PostDetectLocation "/api/detect-location" text] /\
  DetectLocation.status answer = 200%nat /\
  fst result = hd_error (DetectLocation.locations answer) /\
  (DetectLocation.locations answer = [] -> badge (fst result) = None) /\
  (forall loc, fst result = Some loc -> type loc = district -> stateName loc = None ->
     badge (fst result) = Some (name loc ++ ", undefined")).
Proof.
  intros B answer result.
  destruct (DetectFacts.POST_text text output (ChatMessageFacts.isBlank_empty text B))
    as (S & El & Eh).
  fold answer in S, El, Eh.
  assert (Hd : DetectLocation.location answer
               = hd_error (DetectLocation.locations answer)).
  { rewrite Eh, El.
    destruct (DetectFacts.uniqueLocations_keeps_first (DetectLocation.detect output text))
      as (-> & _).
    destruct (DetectLocation.detect output text); reflexivity. }
  assert (R : result = (DetectLocation.location answer,
                        [PostDetectLocation "/api/detect-location" text])).
  { unfold result, detectLocation, detectOutcome.
    rewrite trim_blank, B, S. reflexivity. }
  rewrite R. cbn [fst snd].
  split; [reflexivity|]. split; [exact S|]. split; [exact Hd|]. split.
  - intro E. rewrite Hd, E. reflexivity.
  - intros loc -> T N. cbn [badge]. rewrite T, N. reflexivity.
Qed.

(** X12 on "Wells of Thane", with Thane in [output.geojson]. *)
Lemma typing_shows_primary_location_witness :
  let answer := DetectLocation.POST (DetectLocation.TextBody "Wells of Thane") thaneFile in
  let result := detectLocation "Wells of Thane" (detectOutcome answer)
                               (Some {| type := state; name := "Goa"; stateName := None |}) in
  badge (fst result) = Some "Thane, undefined" /\
  snd result = [PostDetectLocation "/api/detect-location" "Wells of Thane"] /\
  DetectLocation.status answer = 200%nat /\
  fst result = hd_error (DetectLocation.locations answer) /\
  (DetectLocation.locations answer = [] -> badge (fst result) = None) /\
  (forall loc, fst result = Some loc -> type loc = district -> stateName loc = None ->
     badge (fst result) = Some (name loc ++ ", undefined")).
Proof.
  intros answer result.
  split; [vm_compute; reflexivity|].
  apply (typing_shows_primary_location "Wells of Thane" thaneFile). reflexivity.
Defined.

End LocationBadgeFacts.

(* ================================================================== *)
(** * Properties of the functions in binary64 *)
(* ================================================================== *)

Module Binary64Facts.
Import PrimFloat SpecFloat FloatOps FloatAxioms Binary64.
Local Open Scope float_scope.

(** ** The order of the numbers *)

Lemma SFcompare_key (x y : spec_float) :
  SFcompare x y
  = match key x, key y with
    | Some a, Some b => Some (lexCompare a b)
    | _, _ => None
    end.
Proof.
  destruct x as [sx|sx| |sx mx ex], y as [sy|sy| |sy my ey];
    try destruct sx; try destruct sy; try reflexivity.
  cbn [SFcompare key lexCompare]. cbn [Z.compare].
  rewrite Z.compare_opp, (Z.compare_antisym ex ey).
  destruct (Z.compare ex ey); reflexivity.
Qed.

Lemma lexCompare_Lt (a b : Z * Z * Z) : lexCompare a b = Lt <-> before a b.
Proof.
  destruct a as [[a1 a2] a3], b as [[b1 b2] b3]. unfold lexCompare, before.
  destruct (Z.compare_spec a1 b1), (Z.compare_spec a2 b2), (Z.compare_spec a3 b3);
    split; intro L; try discriminate; try reflexivity; lia.
Qed.

Lemma lexCompare_Eq (a b : Z * Z * Z) : lexCompare a b = Eq <-> a = b.
Proof.
  destruct a as [[a1 a2] a3], b as [[b1 b2] b3]. unfold lexCompare.
  destruct (Z.compare_spec a1 b1), (Z.compare_spec a2 b2), (Z.compare_spec a3 b3);
    split; intro L; try discriminate; try reflexivity; try congruence;
    injection L; lia.
Qed.

Lemma lexCompare_Gt (a b : Z * Z * Z) : lexCompare a b = Gt <-> before b a.
Proof.
  destruct a as [[a1 a2] a3], b as [[b1 b2] b3]. unfold lexCompare, before.
  destruct (Z.compare_spec a1 b1), (Z.compare_spec a2 b2), (Z.compare_spec a3 b3);
    split; intro L; try discriminate; try reflexivity; lia.
Qed.

Lemma before_trans (a b c : Z * Z * Z) : before a b -> before b c -> before a c.
Proof.
  destruct a as [[a1 a2] a3], b as [[b1 b2] b3], c as [[c1 c2] c3].
  unfold before. lia.
Qed.

Lemma before_irrefl (a : Z * Z * Z) : ~ before a a.
Proof. destruct a as [[a1 a2] a3]. unfold before. lia. Qed.

Lemma before_total (a b : Z * Z * Z) : before a b \/ a = b \/ before b a.
Proof.
  destruct a as [[a1 a2] a3], b as [[b1 b2] b3]. unfold before.
  destruct (Z.lt_total a1 b1) as [|[|]], (Z.lt_total a2 b2) as [|[|]],
           (Z.lt_total a3 b3) as [|[|]]; subst; auto; lia.
Qed.

(** [x < y], [x <= y] and [x === y] through the keys. *)
Lemma ltb_before (x y : float) :
  (x <? y) = true <->
  exists a b, key (Prim2SF x) = Some a /\ key (Prim2SF y) = Some b /\ before a b.
Proof.
  rewrite ltb_spec. unfold SFltb. rewrite SFcompare_key.
  destruct (key (Prim2SF x)) as [a|], (key (Prim2SF y)) as [b|];
    try (split; [discriminate | intros (? & ? & ? & ? & _); discriminate]).
  split.
  - intro H. exists a, b. repeat split. apply lexCompare_Lt.
    destruct (lexCompare a b); [discriminate | reflexivity | discriminate].
  - intros (a' & b' & [= <-] & [= <-] & H). apply lexCompare_Lt in H. now rewrite H.
Qed.

Lemma leb_before (x y : float) :
  (x <=? y) = true <->
  exists a b, key (Prim2SF x) = Some a /\ key (Prim2SF y) = Some b /\
              (before a b \/ a = b).
Proof.
  rewrite leb_spec. unfold SFleb. rewrite SFcompare_key.
  destruct (key (Prim2SF x)) as [a|], (key (Prim2SF y)) as [b|];
    try (split; [discriminate | intros (? & ? & ? & ? & _); discriminate]).
  split.
  - intro H. exists a, b. repeat split.
    destruct (lexCompare a b) eqn:E; [right | left | discriminate].
    + now apply lexCompare_Eq. 
    + now apply lexCompare_Lt.
  - intros (a' & b' & [= <-] & [= <-] & [H|H]).
    + apply lexCompare_Lt in H. now rewrite H.
    + apply lexCompare_Eq in H. now rewrite H.
Qed.

Lemma eqb_key (x y : float) :
  (x =? y) = true <->
  exists a, key (Prim2SF x) = Some a /\ key (Prim2SF y) = Some a.
Proof.
  rewrite eqb_spec. unfold SFeqb. rewrite SFcompare_key.
  destruct (key (Prim2SF x)) as [a|], (key (Prim2SF y)) as [b|];
    try (split; [discriminate | intros (? & ? & ?); discriminate]).
  split.
  - intro H. exists a. split; [reflexivity|]. f_equal. symmetry. apply lexCompare_Eq.
    destruct (lexCompare a b); [reflexivity | discriminate | discriminate].
  - intros (a' & Ea & Eb). assert (E : a = b) by congruence.
    apply lexCompare_Eq in E. now rewrite E.
Qed.

(** A number that is not [NaN] has a key. *)
Lemma is_nan_key (x : float) :
  is_nan x = false <-> exists a, key (Prim2SF x) = Some a.
Proof.
  unfold is_nan. rewrite negb_false_iff, eqb_key.
  split; [intros (a & H & _); eauto | intros (a & H); eauto].
Qed.

Lemma is_finite_key (x : float) :
  is_finite x = true <->
  exists a, key (Prim2SF x) = Some a /\ before (-2, 0, 0)%Z a /\ before a (2, 0, 0)%Z.
Proof.
  unfold is_finite, is_infinity. rewrite negb_true_iff, orb_false_iff.
  rewrite is_nan_key.
  assert (I : (abs x =? infinity) = true <->
              Prim2SF x = S754_infinity true \/ Prim2SF x = S754_infinity false).
  { rewrite eqb_spec, abs_spec. change (Prim2SF infinity) with (S754_infinity false).
    destruct (Prim2SF x) as [s|s| |s m e]; cbn; try destruct s; cbn;
      split; auto; try discriminate; intros [H|H]; discriminate. }
  split.
  - intros ((a & K) & N). exists a. split; [exact K|].
    destruct (Prim2SF x) as [s|s| |s m e]; try discriminate.
    + injection K as <-. cbn. lia.
    + exfalso. assert (T : (abs x =? infinity) = true) by (apply I; destruct s; auto).
      congruence.
    + destruct s; injection K as <-; cbn; lia.
  - intros (a & K & L & U). split; [eauto|].
    destruct (abs x =? infinity); [|reflexivity].
    destruct (proj1 I eq_refl) as [A|A]; rewrite A in K; injection K as <-;
      cbn in L, U; lia.
Qed.

Lemma ltb_trans (x y z : float) :
  (x <? y) = true -> (y <? z) = true -> (x <? z) = true.
Proof.
  rewrite !ltb_before. intros (a & b & Ka & Kb & H1) (b' & c & Kb' & Kc & H2).
  assert (b' = b) by congruence. subst b'.
  exists a, c. repeat split; try assumption. eapply before_trans; eassumption.
Qed.

Lemma ltb_irrefl (x : float) : (x <? x) = false.
Proof.
  destruct (x <? x) eqn:E; [|reflexivity].
  apply ltb_before in E as (a & b & Ka & Kb & H).
  assert (b = a) by congruence. subst b. destruct (before_irrefl a H).
Qed.

Lemma leb_refl (x : float) : is_nan x = false -> (x <=? x) = true.
Proof.
  intro N. apply is_nan_key in N as (a & K). apply leb_before.
  exists a, a. auto.
Qed.

Lemma leb_trans (x y z : float) :
  (x <=? y) = true -> (y <=? z) = true -> (x <=? z) = true.
Proof.
  rewrite !leb_before. intros (a & b & Ka & Kb & H1) (b' & c & Kb' & Kc & H2).
  assert (b' = b) by congruence. subst b'.
  exists a, c. repeat split; try assumption.
  destruct H1 as [H1| ->], H2 as [H2| ->]; auto.
  left. eapply before_trans; eassumption.
Qed.

Lemma ltb_leb (x y : float) : (x <? y) = true -> (x <=? y) = true.
Proof.
  rewrite ltb_before, leb_before. intros (a & b & Ka & Kb & H). exists a, b. auto.
Qed.

(** Of two numbers neither of which is [NaN], one is less than the other or
    they are equal. *)
Lemma not_ltb_leb (x y : float) :
  is_nan x = false -> is_nan y = false -> (x <? y) = false -> (y <=? x) = true.
Proof.
  intros Nx Ny L. apply is_nan_key in Nx as (a & Ka). apply is_nan_key in Ny as (b & Kb).
  apply leb_before. exists b, a. repeat split; try assumption.
  destruct (before_total a b) as [H|[H|H]]; auto.
  assert (T : (x <? y) = true) by (apply ltb_before; exists a, b; auto).
  congruence.
Qed.

Lemma is_finite_not_nan (x : float) : is_finite x = true -> is_nan x = false.
Proof.
  intro F. apply is_finite_key in F as (a & K & _). apply is_nan_key. eauto.
Qed.

Lemma finite_below_infinity (x : float) : is_finite x = true -> (x <? infinity) = true.
Proof.
  intro F. apply is_finite_key in F as (a & K & _ & U). apply ltb_before.
  exists a, (2, 0, 0)%Z. auto.
Qed.

Lemma finite_above_neg_infinity (x : float) :
  is_finite x = true -> (neg_infinity <? x) = true.
Proof.
  intro F. apply is_finite_key in F as (a & K & L & _). apply ltb_before.
  exists (-2, 0, 0)%Z, a. auto.
Qed.

Lemma finite_not_infinity (x : float) : is_finite x = true -> (x =? infinity) = false.
Proof.
  intro F. apply is_finite_key in F as (a & K & _ & U).
  destruct (x =? infinity) eqn:E; [|reflexivity].
  apply eqb_key in E as (a' & K1 & K2).
  change (key (Prim2SF infinity)) with (Some (2, 0, 0)%Z) in K2.
  assert (a = (2, 0, 0)%Z) by congruence. subst a. cbn in U. lia.
Qed.

End Binary64Facts.

Module Bounds64Facts.
Import PrimFloat Binary64 MapVisualization64 Binary64Facts.
Local Open Scope float_scope.

(** Induction on nested coordinates. *)
Lemma coords64_nested_ind (P : coords -> Prop) :
  (forall lon lat, P (Position lon lat)) ->
  (forall cs, Forall P cs -> P (Nested cs)) ->
  forall c, P c.
Proof.
  intros HP HN.
  fix IH 1. intros [lon lat|cs].
  - apply HP.
  - apply HN. induction cs as [|c cs IHcs]; constructor; [apply IH | exact IHcs].
Qed.

Lemma traverse64_positions (c : coords) :
  forall e, traverse c e = fold_left visitPosition (positions c) e.
Proof.
  induction c as [lon lat|cs IH] using coords64_nested_ind; intro e.
  - reflexivity.
  - cbn [traverse positions]. revert e.
    induction IH as [|c cs Hc _ IHcs]; intro e; [reflexivity|].
    cbn [fold_left flat_map]. rewrite fold_left_app, <- Hc. apply IHcs.
Qed.

Lemma features64_positions (features : list GeoJsonFeature) :
  forall e,
    fold_left (fun acc f => traverse (coordinates f) acc) features e
    = fold_left visitPosition (allPositions features) e.
Proof.
  induction features as [|f fs IH]; intro e; [reflexivity|].
  unfold allPositions in *. cbn [fold_left flat_map].
  rewrite fold_left_app, <- traverse64_positions. apply IH.
Qed.

(** The least of the numbers met, after one more number. *)
Lemma is_min64_snoc (m x : float) (l : list float) :
  is_nan m = false -> is_nan x = false ->
  is_min m l -> is_min (if x <? m then x else m) (l ++ [x]).
Proof.
  intros Nm Nx [Hin Hle]. destruct (x <? m) eqn:E.
  - split.
    + apply in_or_app. right. left. reflexivity.
    + intros y Hy. apply in_app_or in Hy as [Hy|[<-|[]]].
      * apply (leb_trans x m y); [apply ltb_leb, E | apply Hle, Hy].
      * apply leb_refl, Nx.
  - split.
    + apply in_or_app. left. exact Hin.
    + intros y Hy. apply in_app_or in Hy as [Hy|[<-|[]]]; [auto|].
      apply not_ltb_leb; assumption.
Qed.

Lemma is_max64_snoc (m x : float) (l : list float) :
  is_nan m = false -> is_nan x = false ->
  is_max m l -> is_max (if m <? x then x else m) (l ++ [x]).
Proof.
  intros Nm Nx [Hin Hle]. destruct (m <? x) eqn:E.
  - split.
    + apply in_or_app. right. left. reflexivity.
    + intros y Hy. apply in_app_or in Hy as [Hy|[<-|[]]].
      * apply (leb_trans y m x); [apply Hle, Hy | apply ltb_leb, E].
      * apply leb_refl, Nx.
  - split.
    + apply in_or_app. left. exact Hin.
    + intros y Hy. apply in_app_or in Hy as [Hy|[<-|[]]]; [auto|].
      apply not_ltb_leb; assumption.
Qed.

Lemma is_min64_single (x : float) : is_nan x = false -> is_min x [x].
Proof.
  intro N. split; [left; reflexivity | intros y [<-|[]]; apply leb_refl, N].
Qed.

Lemma is_max64_single (x : float) : is_nan x = false -> is_max x [x].
Proof.
  intro N. split; [left; reflexivity | intros y [<-|[]]; apply leb_refl, N].
Qed.

(** A member of a list of finite numbers is not [NaN]. *)
Lemma member_not_nan (m : float) (l : list float) :
  Forall (fun x => is_finite x = true) l -> In m l -> is_nan m = false.
Proof.
  intros F Hin. apply is_finite_not_nan. rewrite Forall_forall in F. auto.
Qed.

Lemma tracks64_visit (seen : list position) (e : Extremes) (p : position) :
  Forall finitePosition seen -> finitePosition p ->
  tracks seen e -> tracks (seen ++ [p]) (visitPosition e p).
Proof.
  intros Fs [Fx Fy].
  destruct seen as [|q seen]; cbn [tracks app].
  - intros ->. unfold visitPosition, visit, initial.
    cbn [e_minLon e_maxLon e_minLat e_maxLat map].
    rewrite (finite_below_infinity _ Fx), (finite_above_neg_infinity _ Fx),
            (finite_below_infinity _ Fy), (finite_above_neg_infinity _ Fy).
    repeat split; try (left; reflexivity);
      intros y [<-|[]]; apply leb_refl, is_finite_not_nan; assumption.
  - intros (Ha & Hb & Hc & Hd).
    assert (Flon : Forall (fun x => is_finite x = true) (map fst (q :: seen))).
    { apply Forall_map. eapply Forall_impl; [|exact Fs]. intros a [H _]. exact H. }
    assert (Flat : Forall (fun x => is_finite x = true) (map snd (q :: seen))).
    { apply Forall_map. eapply Forall_impl; [|exact Fs]. intros a [_ H]. exact H. }
    unfold visitPosition, visit. cbn [e_minLon e_maxLon e_minLat e_maxLat].
    change (q :: seen ++ [p]) with ((q :: seen) ++ [p]).
    rewrite !map_app. cbn [map].
    pose proof (is_finite_not_nan _ Fx) as Nx.
    pose proof (is_finite_not_nan _ Fy) as Ny.
    split; [|split; [|split]].
    + apply is_min64_snoc; [eapply member_not_nan; [exact Flon|apply Ha] | exact Nx | exact Ha].
    + apply is_max64_snoc; [eapply member_not_nan; [exact Flon|apply Hb] | exact Nx | exact Hb].
    + apply is_min64_snoc; [eapply member_not_nan; [exact Flat|apply Hc] | exact Ny | exact Hc].
    + apply is_max64_snoc; [eapply member_not_nan; [exact Flat|apply Hd] | exact Ny | exact Hd].
Qed.

Lemma tracks64_fold (pts seen : list position) (e : Extremes) :
  Forall finitePosition seen -> Forall finitePosition pts ->
  tracks seen e -> tracks (seen ++ pts) (fold_left visitPosition pts e).
Proof.
  revert seen e. induction pts as [|p pts IH]; intros seen e Fs Fp H.
  - now rewrite app_nil_r.
  - cbn [fold_left]. inversion Fp as [|? ? Fp1 Fp2]; subst.
    replace (seen ++ p :: pts) with ((seen ++ [p]) ++ pts)
      by (rewrite <- app_assoc; reflexivity).
    apply IH; [apply Forall_app; split; [exact Fs | constructor; [exact Fp1 | constructor]]
              | exact Fp2
              | apply tracks64_visit; assumption].
Qed.


End Bounds64Facts.

Module Interpolate64Facts.
Import PrimFloat SpecFloat FloatOps FloatAxioms Binary64 MapVisualization64 Binary64Facts.
Local Open Scope float_scope.

(** A finite number is a zero or has a mantissa and an exponent. *)
Lemma is_finite_cases (x : float) :
  is_finite x = true <->
  (exists s, Prim2SF x = S754_zero s) \/ (exists s m e, Prim2SF x = S754_finite s m e).
Proof.
  rewrite is_finite_key. split.
  - intros (a & K & L & U).
    destruct (Prim2SF x) as [s|s| |s m e]; try discriminate; eauto 6.
    destruct s; injection K as <-; cbn in L, U; lia.
  - intros [(s & ->)|(s & m & e & ->)].
    + eexists. split; [reflexivity|]. cbn. lia.
    + destruct s; eexists; (split; [reflexivity|]); cbn; lia.
Qed.

(** The operands of a finite difference are finite. *)
Lemma finite_difference (y x : float) :
  is_finite (y - x) = true -> is_finite x = true /\ is_finite y = true.
Proof.
  rewrite !is_finite_cases, sub_spec. unfold SF64sub.
  destruct (Prim2SF y) as [sy|sy| |sy my ey], (Prim2SF x) as [sx|sx| |sx mx ex];
    cbn [SFsub]; intros [(s & H)|(s & m & e & H)];
    try discriminate; try (destruct sx, sy; discriminate); eauto 10.
Qed.

(** A finite number times [0] is a zero. *)
Lemma finite_times_zero (d : float) :
  is_finite d = true -> exists s, Prim2SF (d * 0) = S754_zero s.
Proof.
  rewrite is_finite_cases, mul_spec. unfold SF64mul.
  change (Prim2SF 0) with (S754_zero false).
  intros [(s & ->)|(s & m & e & ->)]; cbn [SFmul]; eauto.
Qed.

(** Adding a zero to a finite number gives the number. *)
Lemma finite_plus_zero (x z : float) (s : bool) :
  is_finite x = true -> Prim2SF z = S754_zero s -> (x + z =? x) = true.
Proof.
  intros F Z. rewrite eqb_key, add_spec, Z. unfold SF64add.
  apply is_finite_cases in F as [(sx & ->)|(sx & m & e & ->)]; cbn [SFadd].
  - destruct sx, s; eexists; split; reflexivity.
  - destruct sx; eexists; split; reflexivity.
Qed.

(** One field at progress 0. *)
Lemma field_at_start (a b : float) :
  is_finite (b - a) = true -> (a + (b - a) * 0 =? a) = true.
Proof.
  intro F. destruct (finite_times_zero _ F) as (s & Z).
  apply (finite_plus_zero a _ s); [apply (finite_difference b a F) | exact Z].
Qed.


End Interpolate64Facts.

Module Canvas64Facts.
Import PrimFloat Binary64 MapVisualization64 Binary64Facts Geometry64Examples.
Local Open Scope float_scope.

Lemma pathPoints64_app (p q : list PathCommand) :
  pathPoints (p ++ q) = pathPoints p ++ pathPoints q.
Proof. apply flat_map_app. Qed.

Lemma pathPoints64_drawn (F : nat * position -> PathCommand)
  (g : position -> float * float) :
  (forall i c, pathPoints [F (i, c)] = [g c]) ->
  forall l : list (nat * position), pathPoints (map F l) = map g (map snd l).
Proof.
  intros HF l. induction l as [|[i c] l IH]; [reflexivity|].
  change (map F ((i, c) :: l)) with ([F (i, c)] ++ map F l).
  rewrite pathPoints64_app, HF, IH. reflexivity.
Qed.

(** The path goes through the padded projection of each position, computed
    in binary64. *)
Lemma ringToPath64_points (ring : list position) (b : Bounds) (w h : float) :
  pathPoints (ringToPath ring (Some b) w h) = map (paddedProjection b w h) ring.
Proof.
  unfold ringToPath. cbv zeta.
  rewrite pathPoints64_app. cbn [pathPoints flat_map]. rewrite app_nil_r.
  match goal with
  | |- context [map ?F (combine _ _)] =>
    rewrite (pathPoints64_drawn F (paddedProjection b w h))
  end.
  - rewrite RingToPathFacts.snd_numbered. reflexivity.
  - intros i c. destruct (Nat.eqb i 0); reflexivity.
Qed.

(** [projectPoint] computes the same point, in binary64 too. *)
Lemma projectPoint64_padded (c : position) (b : Bounds) (w h : float) :
  projectPoint c (Some b) w h = Some (paddedProjection b w h c).
Proof. reflexivity. Qed.

(** Without rounding, the projection of a position of the box is on the
    canvas. *)
Lemma exactProjection_on_canvas (bq : MapVisualization.Bounds) (wq hq : Q) (cq : Q * Q) :
  (0 < MapVisualization.width bq)%Q -> (0 < MapVisualization.height bq)%Q ->
  (0 <= wq)%Q -> (0 <= hq)%Q ->
  (MapVisualization.minLon bq <= fst cq <= MapVisualization.maxLon bq)%Q ->
  (MapVisualization.minLat bq <= snd cq <= MapVisualization.maxLat bq)%Q ->
  (0 <= fst (exactProjection bq wq hq cq) <= wq /\
   0 <= snd (exactProjection bq wq hq cq) <= hq)%Q.
Proof.
  intros Hw Hh Pw Ph Hlon Hlat.
  destruct (CanvasFacts.projectPoint_on_canvas bq wq hq cq Hw Hh Pw Ph Hlon Hlat)
    as (x & y & E & Bx & By).
  assert (E' : exactProjection bq wq hq cq = (x, y))
    by exact (f_equal (fun o => match o with Some p => p | None => (x, y) end) E).
  rewrite E'. split; assumption.
Qed.


End Canvas64Facts.

Module Geometry64Checks.
Import PrimFloat Binary64 MapVisualization64 Binary64Facts Geometry64Examples.
Local Open Scope float_scope.

Lemma finite_rectangle (west south east north : float) :
  is_finite west = true -> is_finite south = true ->
  is_finite east = true -> is_finite north = true ->
  Forall finitePosition (allPositions [rectangle west south east north]).
Proof.
  intros W S E N. unfold allPositions, rectangle.
  cbn [flat_map coordinates positions app].
  repeat constructor; assumption.
Qed.







End Geometry64Checks.

Module GeoJsonRoute64Facts.
Import PrimFloat Binary64 Text GeoJson GeoJson64 GeoJsonRoute64.
Local Open Scope string_scope.
Local Open Scope float_scope.

Lemma filter_none {A : Type} (p : A -> bool) (l : list A) :
  (forall a, p a = false) -> filter p l = [].
Proof.
  intro H. induction l as [|a l IH]; [reflexivity|].
  cbn [filter]. now rewrite H.
Qed.

(** ** The centroid *)

Lemma reduce64_sum {A : Type} (f : A -> float) (l : list A) (start : float) :
  fold_left (fun sum a => sum + f a) l start = fold_left add (map f l) start.
Proof.
  revert start. induction l as [|a l IH]; intro start; [reflexivity|].
  cbn [fold_left map]. apply IH.
Qed.

Lemma allCoords64_outerVertices (polygons : list (list Ring)) :
  flat_map (fun polygon : list Ring =>
              match polygon with
              | ring0 :: _ => filter isCoordinatePair ring0
              | [] => []
              end) polygons
  = flat_map (filter isCoordinatePair)
      (flat_map (fun polygon : list Ring =>
                   match polygon with ring0 :: _ => [ring0] | [] => [] end) polygons).
Proof.
  induction polygons as [|[|ring0 rest] polygons IH]; [reflexivity | exact IH |].
  cbn [flat_map app]. f_equal. exact IH.
Qed.

Lemma calculateFeatureCentroid64_mean (feature : Feature) :
  calculateFeatureCentroid feature = centroidOfOuterRings feature.
Proof.
  unfold calculateFeatureCentroid, centroidOfOuterRings, outerVertices, outerRings.
  destruct (geometry feature) as [[[|ring0 rest]|polygons|other]|]; try reflexivity.
  - cbn [flat_map]. rewrite app_nil_r.
    destruct (filter isCoordinatePair ring0) as [|v vs]; [reflexivity|].
    cbv zeta. unfold mean, sum.
    rewrite (reduce64_sum (fun c => at_ c 0)), (reduce64_sum (fun c => at_ c 1)).
    rewrite !length_map. reflexivity.
  - rewrite allCoords64_outerVertices.
    destruct (flat_map (filter isCoordinatePair) _) as [|v vs]; [reflexivity|].
    cbv zeta. unfold mean, sum.
    rewrite (reduce64_sum (fun c => at_ c 0)), (reduce64_sum (fun c => at_ c 1)).
    rewrite !length_map. reflexivity.
Qed.

(** ** The even-odd rule *)

Lemma isPointInPolygon64_evenOdd (point : float * float) (polygon : Ring) :
  isPointInPolygon point polygon = evenOddInside point polygon.
Proof.
  unfold isPointInPolygon, evenOddInside. destruct point as [x y].
  rewrite (GeoJsonRouteFacts.toggle_parity (edgeCrossesRay (x, y) polygon)). reflexivity.
Qed.

Lemma isPointInFeature64_outerRings (point : float * float) (feature : Feature) :
  isPointInFeature point feature
  = existsb (evenOddInside point) (outerRings feature).
Proof.
  unfold isPointInFeature, outerRings.
  destruct (geometry feature) as [[[|ring0 rest]|polygons|other]|]; try reflexivity.
  - cbn [existsb]. rewrite orb_false_r. apply isPointInPolygon64_evenOdd.
  - induction polygons as [|[|ring0 rest] polygons IH]; [reflexivity | exact IH |].
    cbn [existsb flat_map app]. rewrite IH, isPointInPolygon64_evenOdd. reflexivity.
Qed.

Lemma districtFilter64_centroidInsideState (stateFeatures : list Feature) (d : Feature) :
  match calculateFeatureCentroid d with
  | None => false
  | Some districtCentroid => existsb (isPointInFeature districtCentroid) stateFeatures
  end = centroidInsideState stateFeatures d.
Proof.
  unfold centroidInsideState. rewrite calculateFeatureCentroid64_mean.
  destruct (centroidOfOuterRings d) as [c|]; [|reflexivity].
  apply GeoJsonRouteFacts.existsb_agree. intro s. apply isPointInFeature64_outerRings.
Qed.

(** ** The districts of a state *)

Lemma centroidInsideState64_nil (d : Feature) : centroidInsideState [] d = false.
Proof. unfold centroidInsideState. destruct (centroidOfOuterRings d); reflexivity. Qed.

Lemma districtsOfState64_filter (geoJsonData : Document) (out : option Document) :
  districtsOfState geoJsonData (Some (Value out))
  = match filter (centroidInsideState (featuresOf (Some geoJsonData))) (featuresOf out) with
    | [] => None
    | matching => Some (FeatureCollection matching)
    end.
Proof.
  unfold districtsOfState, featuresOf.
  destruct out as [[[[|d ds]|]]|]; try reflexivity.
  destruct geoJsonData as [[stateFeatures|]]; cbn [features].
  - rewrite (filter_ext _ (centroidInsideState stateFeatures)); [reflexivity|].
    intro a. apply districtFilter64_centroidInsideState.
  - rewrite (filter_none (centroidInsideState [])); [reflexivity|].
    apply centroidInsideState64_nil.
Qed.

(** C1.  For a request with [state] set and [district] unset (and not the
    request for all states), when [output.geojson] is readable and a state
    outline is found, [districtsGeoJson] holds exactly the district features
    of [output.geojson], in their order, whose centroid (the mean of the
    vertices of the outer rings) lies inside the outer ring of some feature of
    the state outline by the even-odd rule; it is left out exactly when there
    is no such district. *)
Theorem GET_districts_by_centroid
  (request : Request) (env : Environment) (s : string)
  (out : option Document) (outline : Document) :
  truthy (state request) = Some s ->
  truthy (district request) = None ->
  allstates request <> Some "true" ->
  outputGeojson env = Some (Value out) ->
  status (GET request env) = 200%nat ->
  geoJson (GET request env) = Some outline ->
  let inside := centroidInsideState (featuresOf (Some outline)) in
  districtsGeoJson (GET request env)
  = match filter inside (featuresOf out) with
    | [] => None
    | matching => Some (FeatureCollection matching)
    end /\
  (forall d, In d (featuresOf (districtsGeoJson (GET request env)))
             <-> In d (featuresOf out) /\ inside d = true) /\
  (districtsGeoJson (GET request env) = None
   <-> forall d, In d (featuresOf out) -> inside d = false).
Proof.
  intros Hs Hd Hall Hout Hstatus Hgeo inside.
  assert (E : districtsGeoJson (GET request env)
              = match filter inside (featuresOf out) with
                | [] => None
                | matching => Some (FeatureCollection matching)
                end).
  { assert (Hflag : match allstates request with
                     | Some v => String.eqb v "true"
                     | None => false
                     end = false).
    { destruct (allstates request) as [v|]; [|reflexivity].
      destruct (String.eqb_spec v "true") as [->|_]; congruence. }
    revert Hstatus Hgeo. unfold GET. rewrite Hflag, Hs, Hd, Hout.
    destruct (localState env s) as [[|[ldoc|]]|]; cbv zeta.
    - discriminate.
    - cbn [status geoJson districtsGeoJson]. intros _ [= ->].
      apply districtsOfState64_filter.
    - destruct (match fetchStates env with
                | HttpOk body =>
                  matchingCollection stateFeatureName (normalizeLocationName s) body
                | _ => None
                end) as [rdoc|].
      + cbn [status geoJson districtsGeoJson]. intros _ [= ->].
        apply districtsOfState64_filter.
      + discriminate.
    - destruct (match fetchStates env with
                | HttpOk body =>
                  matchingCollection stateFeatureName (normalizeLocationName s) body
                | _ => None
                end) as [rdoc|].
      + cbn [status geoJson districtsGeoJson]. intros _ [= ->].
        apply districtsOfState64_filter.
      + discriminate. }
  split; [exact E|]. rewrite E. clear E.
  destruct (filter inside (featuresOf out)) as [|m ms] eqn:F.
  - split.
    + intro d. cbn [featuresOf]. split; [intros []|].
      intros [Hin Hd']. assert (Hf : In d (filter inside (featuresOf out)))
        by (apply filter_In; split; assumption).
      rewrite F in Hf. exact Hf.
    + split; [|reflexivity]. intros _ d Hin.
      destruct (inside d) eqn:I; [|reflexivity].
      assert (Hf : In d (filter inside (featuresOf out)))
        by (apply filter_In; split; assumption).
      rewrite F in Hf. destruct Hf.
  - split.
    + intro d. cbn [featuresOf FeatureCollection]. rewrite <- F. apply filter_In.
    + split; [discriminate|]. intro H.
      assert (Hm : In m (filter inside (featuresOf out))) by (rewrite F; left; reflexivity).
      apply filter_In in Hm as [Hin Hm]. rewrite (H m Hin) in Hm. discriminate.
Qed.

(** C1 for the state [Gujarat] read from a local file, with one district
    inside its outline and one outside. *)
Lemma GET_districts_by_centroid_witness :
  let stateOutline :=
    {| properties := [("NAME_1", "Gujarat")];
       geometry := Some (Polygon [[[0; 0]; [4; 0]; [4; 4]; [0; 4]; [0; 0]]]) |} in
  let inner :=
    {| properties := [("dtname", "Inner")];
       geometry := Some (Polygon [[[1; 1]; [2; 1]; [2; 2]; [1; 2]; [1; 1]]]) |} in
  let outer :=
    {| properties := [("dtname", "Outer")];
       geometry := Some (Polygon [[[5; 5]; [6; 5]; [6; 6]; [5; 6]; [5; 5]]]) |} in
  let request := {| state := Some "Gujarat"; district := None; allstates := None |} in
  let env :=
    {| fetchStates := FetchFails;
       localState := fun _ => Some (Value (Some (FeatureCollection [stateOutline])));
       localDistrict := fun _ => None;
       outputGeojson := Some (Value (Some (FeatureCollection [inner; outer]))) |} in
  let out := Some (FeatureCollection [inner; outer]) in
  let inside := centroidInsideState [stateOutline] in
  districtsGeoJson (GET request env) = Some (FeatureCollection [inner]) /\
  (forall d, In d (featuresOf (districtsGeoJson (GET request env)))
             <-> In d (featuresOf out) /\ inside d = true) /\
  (districtsGeoJson (GET request env) = None
   <-> forall d, In d (featuresOf out) -> inside d = false).
Proof.
  intros stateOutline inner outer request env out inside.
  apply (GET_districts_by_centroid request env "Gujarat" out
           (FeatureCollection [stateOutline]));
    first [reflexivity | discriminate].
Defined.

(** C1 fails as stated: the mean of the longitudes 70.1, 70.3, 70.7 and
    70.1 of a triangle is the number 70.3 itself, and the mean of its
    latitudes is 21.375; this point is on the western border of the state,
    which [isPointInPolygon] counts as inside.  The route computes the
    longitude 70.29999999999998 and leaves the district out. *)
Lemma GET_omits_district_on_border :
  status (GET borderRequest borderFiles) = 200%nat /\
  geoJson (GET borderRequest borderFiles) = Some (FeatureCollection [borderState]) /\
  outerVertices borderDistrict = [[70.1; 21]; [70.3; 22.5]; [70.7; 21]; [70.1; 21]] /\
  (exists a b c m,
     exact 70.1 = Some a /\ exact 70.3 = Some b /\ exact 70.7 = Some c /\
     exact 70.3 = Some m /\ ((a + b + c + a) / 4 == m)%Q) /\
  (exists a b m,
     exact 21 = Some a /\ exact 22.5 = Some b /\ exact 21.375 = Some m /\
     ((a + b + a + a) / 4 == m)%Q) /\
  existsb (isPointInPolygon (70.3, 21.375)) (outerRings borderState) = true /\
  isPointInFeature (70.3, 21.375) borderState = true /\
  calculateFeatureCentroid borderDistrict = Some (70.29999999999998, 21.375) /\
  isPointInFeature (70.29999999999998, 21.375) borderState = false /\
  districtsGeoJson (GET borderRequest borderFiles) = None /\
  exists stateq districtq cx cy west,
    exactFeature borderState = Some stateq /\
    exactFeature borderDistrict = Some districtq /\
    GeoJsonRoute.centroidOfOuterRings districtq = Some (cx, cy) /\
    exact 70.3 = Some west /\ (cx == west)%Q /\ (cy == 21.375)%Q /\
    GeoJsonRoute.centroidInsideState [stateq] districtq = true.
Proof.
  split; [vm_compute; reflexivity|].
  split; [vm_compute; reflexivity|].
  split; [vm_compute; reflexivity|].
  split; [do 4 eexists; repeat split; vm_compute; reflexivity|].
  split; [do 3 eexists; repeat split; vm_compute; reflexivity|].
  split; [vm_compute; reflexivity|].
  split; [vm_compute; reflexivity|].
  split; [vm_compute; reflexivity|].
  split; [vm_compute; reflexivity|].
  split; [vm_compute; reflexivity|].
  do 5 eexists. repeat split; vm_compute; reflexivity.
Qed.

End GeoJsonRoute64Facts.
